(** * ctoz: the asynchronous task-orchestration core

    A shallow embedding of the Go backend of the CasaOS-to-ZimaOS migration
    tool: the task store ([storage.MemoryStore]), the status hub
    ([websocket.Manager]), the per-task workers of
    [services.MigrationService] and the status handlers of
    [handlers.Handler]; then the other methods of the store and of
    [services.TaskService], the loop of the hub, the list, log and upload
    handlers, the login test of [services.ConnectionService], the download
    step of the online worker and the routes of [main]; followed by the
    properties established for them.

    Conventions.
    - Go [string] is [string]; Go [int] is [Z] (the counters modelled here
      never leave the range of a machine integer: they are bounded by the
      length of a slice).  Where a handler computes with numbers taken from
      a request ([Api.ListTasks]), the wrap-around of the 64-bit [int] is
      written out.
    - Go maps are [gmap]; a [nil] map that the code distinguishes from an
      empty one is an [option].
    - [time.Time] fields of the records ([CreatedAt], [UpdatedAt],
      [Timestamp]) are left out.  The only clock the modelled code branches
      on is the one of the status cache, which is passed explicitly.
    - [log.Printf] writes to the process log only and is not modelled. *)

From Stdlib Require Import ZArith Lia.
From stdpp Require Import gmap strings list fin_maps pretty.

#[local] Set Warnings "-register-all,-clear-no-such-hyp".
#[local] Open Scope string_scope.
#[local] Open Scope list_scope.
#[local] Open Scope Z_scope.

(* ===================================================================== *)
(** * package models *)
(* ===================================================================== *)

Module Models.

(** Task status constants ([TaskStatus]). *)
Definition TaskStatusPending : string := "pending".
Definition TaskStatusRunning : string := "running".
Definition TaskStatusCompleted : string := "completed".
Definition TaskStatusFailed : string := "failed".

(** Task type constants. *)
Definition TaskTypeOnline : string := "online".
Definition TaskTypeOfflineExport : string := "offline-export".
Definition TaskTypeOfflineImport : string := "offline-import".
Definition TaskTypeExport : string := "export".
Definition TaskTypeImport : string := "import".
Definition TaskTypeTest : string := "test".

(** Log levels. *)
Definition LogLevelInfo : string := "info".
Definition LogLevelWarning : string := "warning".
Definition LogLevelError : string := "error".

(** Application status constants. *)
Definition AppStatusSuccess : string := "success".
Definition AppStatusFailed : string := "failed".
Definition AppStatusSkipped : string := "skipped".

(** Errors are compared by identity in Go; here by their text. *)
Definition ErrTaskNotFound : string := "task not found".

(** [SystemConnection]. *)
Record SystemConnection := mkSystemConnection {
  conn_ID : string;
  Host : string;
  Port : Z;
  Username : string;
  Password : string;
  Token : string;
  conn_Type : string;
  Verified : bool
}.

(** [MigrationLog]. *)
Record MigrationLog := mkMigrationLog {
  Level : string;
  Message : string
}.

(** [AppImportStatus]: the per-application outcome. *)
Record AppImportStatus := mkAppImportStatus {
  AppName : string;
  HasAppData : bool;
  AppDataStatus : string;
  ComposeStatus : string;
  OverallStatus : string;
  ErrorMessage : string;
  DownloadURL : string
}.

Definition set_AppDataStatus (v : string) (a : AppImportStatus) :=
  mkAppImportStatus (AppName a) (HasAppData a) v (ComposeStatus a)
                    (OverallStatus a) (ErrorMessage a) (DownloadURL a).
Definition set_ComposeStatus (v : string) (a : AppImportStatus) :=
  mkAppImportStatus (AppName a) (HasAppData a) (AppDataStatus a) v
                    (OverallStatus a) (ErrorMessage a) (DownloadURL a).
Definition set_OverallStatus (v : string) (a : AppImportStatus) :=
  mkAppImportStatus (AppName a) (HasAppData a) (AppDataStatus a)
                    (ComposeStatus a) v (ErrorMessage a) (DownloadURL a).
Definition set_ErrorMessage (v : string) (a : AppImportStatus) :=
  mkAppImportStatus (AppName a) (HasAppData a) (AppDataStatus a)
                    (ComposeStatus a) (OverallStatus a) v (DownloadURL a).
Definition set_DownloadURL (v : string) (a : AppImportStatus) :=
  mkAppImportStatus (AppName a) (HasAppData a) (AppDataStatus a)
                    (ComposeStatus a) (OverallStatus a) (ErrorMessage a) v.

(** [ImportSummary]. *)
Record ImportSummary := mkImportSummary {
  TotalApps : Z;
  SuccessApps : Z;
  FailedApps : Z
}.

(** [DownloadInstructions] (the fields the export worker fills). *)
Record DownloadInstructions := mkDownloadInstructions {
  di_Message : string;
  di_FilePath : string;
  di_DownloadURL : string;
  di_Instructions : list string
}.

(** A Go [interface{}] as it occurs in [Options], [Result] and the
    workers' [sourceData]: a tagged union over the dynamic types the code
    stores or type-switches on.  [VFloat64] carries the truncation toward
    zero of the number, which is all [getInt] observes of it. *)
Inductive Value :=
| VNil
| VBool (b : bool)
| VString (s : string)
| VInt (n : Z)
| VFloat64 (trunc : Z)
| VTime
| VAppStatuses (apps : list AppImportStatus)
| VSummary (s : ImportSummary)
| VComposeFiles (m : gmap string string)
| VDownloadInstructions (d : DownloadInstructions)
| VSlice (l : list Value)
| VMap (m : gmap string Value).

(** Connection records are reached through pointers. *)
Definition loc := positive.

(** [MigrationTask].  [Source] and [Target] are [*SystemConnection];
    [Result] is a map that may be [nil]. *)
Record MigrationTask := mkMigrationTask {
  ID : string;
  task_Type : string;
  Status : string;
  Progress : Z;
  Source : option loc;
  Target : option loc;
  Options : gmap string Value;
  Logs : list MigrationLog;
  Result : option (gmap string Value)
}.

Definition set_Status (v : string) (t : MigrationTask) :=
  mkMigrationTask (ID t) (task_Type t) v (Progress t) (Source t) (Target t)
                  (Options t) (Logs t) (Result t).
Definition set_Progress (v : Z) (t : MigrationTask) :=
  mkMigrationTask (ID t) (task_Type t) (Status t) v (Source t) (Target t)
                  (Options t) (Logs t) (Result t).
Definition set_Result (v : option (gmap string Value)) (t : MigrationTask) :=
  mkMigrationTask (ID t) (task_Type t) (Status t) (Progress t) (Source t)
                  (Target t) (Options t) (Logs t) v.
Definition set_Source (v : option loc) (t : MigrationTask) :=
  mkMigrationTask (ID t) (task_Type t) (Status t) (Progress t) v (Target t)
                  (Options t) (Logs t) (Result t).
Definition set_Target (v : option loc) (t : MigrationTask) :=
  mkMigrationTask (ID t) (task_Type t) (Status t) (Progress t) (Source t) v
                  (Options t) (Logs t) (Result t).

(** [ImportStatusResponse]: the view served by the import-status query. *)
Record ImportStatusResponse := mkImportStatusResponse {
  isr_TaskID : string;
  isr_Status : string;
  isr_Progress : Z;
  isr_Apps : list AppImportStatus;
  isr_Summary : ImportSummary
}.

(** [WSMessage].  [Data] is a map literal with fixed keys; it is kept as
    the list of its entries.  Only the fields the [Send*] functions fill
    are modelled. *)
Inductive WSValue := WSString (s : string) | WSInt (n : Z).
Record WSMessage := mkWSMessage {
  ws_Type : string;
  ws_Data : list (string * WSValue)
}.

End Models.
Export Models.

(** Go's [error]: [None] is [nil], [Some e] an error with text [e]. *)
Definition error := option string.

(** Field updates of a slice element reached by index, [s[i].f = v]. *)
Definition update_at {A} (i : nat) (f : A → A) (l : list A) : list A :=
  match l !! i with
  | Some a => <[i := f a]> l
  | None => l
  end.

(* ===================================================================== *)
(** * package storage *)
(* ===================================================================== *)

Module Storage.

(** [MemoryStore].  The four mutexes serialise the methods; every method
    below is one critical section and hence one atomic function. *)
Record MemoryStore := mkMemoryStore {
  tasks : gmap string MigrationTask;
  connections : gmap string SystemConnection;
  logs : gmap string (list MigrationLog);
  downloadInstructions : gmap string DownloadInstructions
}.

Definition NewMemoryStore : MemoryStore := mkMemoryStore ∅ ∅ ∅ ∅.

Definition set_tasks (v : gmap string MigrationTask) (ms : MemoryStore) :=
  mkMemoryStore v (connections ms) (logs ms) (downloadInstructions ms).
Definition set_logs (v : gmap string (list MigrationLog)) (ms : MemoryStore) :=
  mkMemoryStore (tasks ms) (connections ms) v (downloadInstructions ms).

Definition SaveTask (task : MigrationTask) (ms : MemoryStore) : error * MemoryStore :=
  (None, set_tasks (<[ID task := task]> (tasks ms)) ms).

Definition GetTask (taskID : string) (ms : MemoryStore) : option MigrationTask * error :=
  match tasks ms !! taskID with
  | None => (None, Some ErrTaskNotFound)
  | Some task => (Some task, None)
  end.

Definition DeleteTask (taskID : string) (ms : MemoryStore) : error * MemoryStore :=
  match tasks ms !! taskID with
  | None => (Some ErrTaskNotFound, ms)
  | Some _ =>
      (None, set_logs (delete taskID (logs ms))
               (set_tasks (delete taskID (tasks ms)) ms))
  end.

Definition UpdateTaskStatus (taskID status : string) (ms : MemoryStore)
  : error * MemoryStore :=
  match tasks ms !! taskID with
  | None => (Some ErrTaskNotFound, ms)
  | Some task =>
      (None, set_tasks (<[taskID := set_Status status task]> (tasks ms)) ms)
  end.

Definition UpdateTaskProgress (taskID : string) (progress : Z) (ms : MemoryStore)
  : error * MemoryStore :=
  match tasks ms !! taskID with
  | None => (Some ErrTaskNotFound, ms)
  | Some task =>
      (None, set_tasks (<[taskID := set_Progress progress task]> (tasks ms)) ms)
  end.

(** [SetTaskResult]: a [map[string]interface{}] is stored as it is, any
    other value is wrapped under the key ["data"]. *)
Definition SetTaskResult (taskID : string) (result : Value) (ms : MemoryStore)
  : error * MemoryStore :=
  match tasks ms !! taskID with
  | None => (Some ErrTaskNotFound, ms)
  | Some task =>
      let resultMap :=
        match result with
        | VMap m => m
        | _ => {[ "data" := result ]}
        end in
      (None, set_tasks (<[taskID := set_Result (Some resultMap) task]> (tasks ms)) ms)
  end.

Definition AddLog (taskID : string) (log : MigrationLog) (ms : MemoryStore)
  : error * MemoryStore :=
  (None, set_logs (<[taskID := default [] (logs ms !! taskID) ++ [log]]> (logs ms)) ms).

Definition GetLogs (taskID : string) (ms : MemoryStore) : list MigrationLog * error :=
  match logs ms !! taskID with
  | None => ([], None)
  | Some l => (l, None)
  end.

End Storage.
Export Storage.

(* ===================================================================== *)
(** * package websocket *)
(* ===================================================================== *)

Module Websocket.

(** A [*Client] is a pointer; observers are told apart by it. *)
Definition ClientRef := positive.

(** The buffered channel [Send chan models.WSMessage]. *)
Record Chan := mkChan {
  buf : list WSMessage;
  closed : bool
}.

(** [make(chan models.WSMessage, 256)] in [HandleWebSocket]. *)
Definition sendCapacity : nat := 256.

Definition makeChan : Chan := mkChan [] false.

(** [Client]: the connection itself is outside the model. *)
Record Client := mkClient {
  Send : Chan;
  TaskID : string
}.

(** [Manager]: [Clients] is [map[string]map[*Client]bool], the inner map
    being used as a set (only [true] is ever stored); [heap] holds the
    clients the pointers refer to. *)
Record Manager := mkManager {
  Clients : gmap string (gset ClientRef);
  heap : gmap ClientRef Client
}.

Definition NewManager : Manager := mkManager ∅ ∅.

Record BroadcastMessage := mkBroadcastMessage {
  bm_TaskID : string;
  bm_Message : WSMessage
}.

(** [select { case ch <- msg: ...; default: ... }].  [None] is the runtime
    panic of a send on a closed channel; otherwise the flag tells whether
    the send case was taken. *)
Definition trySend (msg : WSMessage) (ch : Chan) : option (bool * Chan) :=
  if closed ch then None
  else if bool_decide (length (buf ch) < sendCapacity)%nat
       then Some (true, mkChan (buf ch ++ [msg]) false)
       else Some (false, ch).

(** [close(ch)]; closing a closed channel panics. *)
Definition closeChan (ch : Chan) : option Chan :=
  if closed ch then None else Some (mkChan (buf ch) true).

(** [delete(clients, client); if len(clients) == 0 { delete(m.Clients, taskID) }]
    where [clients] is the inner map stored under [taskID]. *)
Definition dropClient (taskID : string) (c : ClientRef)
    (cs : gmap string (gset ClientRef)) : gmap string (gset ClientRef) :=
  match cs !! taskID with
  | None => cs
  | Some clients =>
      let clients' := clients ∖ {[ c ]} in
      if bool_decide (size clients' = 0%nat) then delete taskID cs
      else <[taskID := clients']> cs
  end.

(** The [Register] case of [Run]. *)
Definition register (c : ClientRef) (cl : Client) (m : Manager) : Manager :=
  mkManager
    (<[TaskID cl := {[ c ]} ∪ default ∅ (Clients m !! TaskID cl)]> (Clients m))
    (<[c := cl]> (heap m)).

(** The [Unregister] case of [Run]. *)
Definition unregister (c : ClientRef) (m : Manager) : option Manager :=
  match heap m !! c with
  | None => Some m
  | Some cl =>
      match Clients m !! TaskID cl with
      | None => Some m
      | Some clients =>
          if bool_decide (c ∈ clients) then
            ch ← closeChan (Send cl);
            Some (mkManager (dropClient (TaskID cl) c (Clients m))
                            (<[c := mkClient ch (TaskID cl)]> (heap m)))
          else Some m
      end
  end.

(** One iteration of the delivery loop of the [Broadcast] case. *)
Definition deliver (taskID : string) (msg : WSMessage) (c : ClientRef)
    (m : Manager) : option Manager :=
  cl ← heap m !! c;
  '(sent, ch) ← trySend msg (Send cl);
  if sent : bool then
    Some (mkManager (Clients m) (<[c := mkClient ch (TaskID cl)]> (heap m)))
  else
    ch' ← closeChan ch;
    Some (mkManager (dropClient taskID c (Clients m))
                    (<[c := mkClient ch' (TaskID cl)]> (heap m))).

(** [for client := range clients { ... }] visiting the clients in [order]. *)
Fixpoint deliverAll (taskID : string) (msg : WSMessage) (order : list ClientRef)
    (m : Manager) : option Manager :=
  match order with
  | [] => Some m
  | c :: rest => m' ← deliver taskID msg c m; deliverAll taskID msg rest m'
  end.

(** The [Broadcast] case of [Run], the range loop visiting [order].  Go
    leaves the order of a map range unspecified: [order] is any duplicate
    free enumeration of the observers of the task. *)
Definition broadcastIn (order : list ClientRef) (message : BroadcastMessage)
    (m : Manager) : option Manager :=
  let clients := default ∅ (Clients m !! bm_TaskID message) in
  if bool_decide (size clients = 0%nat) then Some m
  else deliverAll (bm_TaskID message) (bm_Message message) order m.

Definition broadcast (message : BroadcastMessage) (m : Manager) : option Manager :=
  broadcastIn (elements (default ∅ (Clients m !! bm_TaskID message))) message m.

(** The [Send*] helpers build the message; [SendMessage] hands it to the
    [Broadcast] channel. *)
Definition taskStatusMessage (taskID status message : string) : WSMessage :=
  mkWSMessage "task_status"
    [("task_id", WSString taskID); ("status", WSString status);
     ("message", WSString message)].

Definition progressMessage (taskID : string) (progress : Z) (step message : string)
  : WSMessage :=
  mkWSMessage "task_progress"
    [("task_id", WSString taskID); ("progress", WSInt progress);
     ("step", WSString step); ("message", WSString message)].

Definition logMessage (taskID level message : string) : WSMessage :=
  mkWSMessage "task_log"
    [("task_id", WSString taskID); ("level", WSString level);
     ("message", WSString message)].

Definition stepStartMessage (taskID step message : string) : WSMessage :=
  mkWSMessage "step"
    [("task_id", WSString taskID); ("step", WSString step);
     ("status", WSString "start"); ("message", WSString message)].

Definition stepCompleteMessage (taskID step message : string) : WSMessage :=
  mkWSMessage "step"
    [("task_id", WSString taskID); ("step", WSString step);
     ("status", WSString "complete"); ("message", WSString message)].

Definition stepErrorMessage (taskID step message errorMsg : string) : WSMessage :=
  mkWSMessage "step"
    [("task_id", WSString taskID); ("step", WSString step);
     ("status", WSString "error"); ("message", WSString message);
     ("error", WSString errorMsg)].

End Websocket.
Export Websocket.

(* ===================================================================== *)
(** * package services *)
(* ===================================================================== *)

Module Services.

(** ** TaskService *)

(** [TaskService]: the store it owns and the messages it has handed to the
    hub's [Broadcast] channel, oldest first.  [wsManager] is never [nil]
    ([main] always passes [websocket.NewManager()]). *)
Record TaskService := mkTaskService {
  store : MemoryStore;
  Broadcast : list BroadcastMessage
}.

Definition NewTaskService : TaskService := mkTaskService NewMemoryStore [].

Definition SendMessage (taskID : string) (message : WSMessage) (s : TaskService)
  : TaskService :=
  mkTaskService (store s) (Broadcast s ++ [mkBroadcastMessage taskID message]).

Definition GetTask (taskID : string) (s : TaskService) : option MigrationTask * error :=
  Storage.GetTask taskID (store s).

Definition UpdateTaskStatus (taskID status : string) (s : TaskService)
  : error * TaskService :=
  match Storage.UpdateTaskStatus taskID status (store s) with
  | (Some err, _) => (Some err, s)
  | (None, ms) =>
      let s' := mkTaskService ms (Broadcast s) in
      (None,
       if String.eqb status TaskStatusRunning then
         SendMessage taskID (taskStatusMessage taskID TaskStatusRunning "Task started") s'
       else if String.eqb status TaskStatusCompleted then
         SendMessage taskID (taskStatusMessage taskID TaskStatusCompleted "Task completed") s'
       else if String.eqb status TaskStatusFailed then
         SendMessage taskID (taskStatusMessage taskID TaskStatusFailed "Task failed") s'
       else s')
  end.

Definition UpdateTaskProgress (taskID : string) (progress : Z) (s : TaskService)
  : error * TaskService :=
  match Storage.UpdateTaskProgress taskID progress (store s) with
  | (Some err, _) => (Some err, s)
  | (None, ms) =>
      (None, SendMessage taskID (progressMessage taskID progress "progress" "")
               (mkTaskService ms (Broadcast s)))
  end.

Definition AddTaskLog (taskID level message : string) (s : TaskService)
  : error * TaskService :=
  match Storage.AddLog taskID (mkMigrationLog level message) (store s) with
  | (Some err, _) => (Some err, s)
  | (None, ms) =>
      (None, SendMessage taskID (logMessage taskID level message)
               (mkTaskService ms (Broadcast s)))
  end.

Definition SetTaskResult (taskID : string) (result : Value) (s : TaskService)
  : error * TaskService :=
  let '(err, ms) := Storage.SetTaskResult taskID result (store s) in
  (err, mkTaskService ms (Broadcast s)).

Definition DeleteTask (taskID : string) (s : TaskService) : error * TaskService :=
  let '(err, ms) := Storage.DeleteTask taskID (store s) in
  (err, mkTaskService ms (Broadcast s)).

(** ** What a worker does to its task service

    A worker never reads the task service: it only calls it, and drops the
    error each call returns.  Its run is therefore modelled as the sequence
    of calls it makes, in order; [applyCall] gives each call its meaning.
    Another goroutine can observe the task service between any two calls,
    that is after any prefix of the sequence. *)
Inductive Call :=
| CallUpdateTaskStatus (taskID status : string)
| CallAddTaskLog (taskID level message : string)
| CallUpdateTaskProgress (taskID : string) (progress : Z)
| CallSetTaskResult (taskID : string) (result : Value)
| CallSendStepStart (taskID step message : string)
| CallSendStepComplete (taskID step message : string)
| CallSendStepError (taskID step message errorMsg : string)
| CallSendProgress (taskID : string) (progress : Z) (step message : string).

Definition applyCall (c : Call) (s : TaskService) : TaskService :=
  match c with
  | CallUpdateTaskStatus taskID status => (UpdateTaskStatus taskID status s).2
  | CallAddTaskLog taskID level message => (AddTaskLog taskID level message s).2
  | CallUpdateTaskProgress taskID progress => (UpdateTaskProgress taskID progress s).2
  | CallSetTaskResult taskID result => (SetTaskResult taskID result s).2
  | CallSendStepStart taskID step message =>
      SendMessage taskID (stepStartMessage taskID step message) s
  | CallSendStepComplete taskID step message =>
      SendMessage taskID (stepCompleteMessage taskID step message) s
  | CallSendStepError taskID step message errorMsg =>
      SendMessage taskID (stepErrorMessage taskID step message errorMsg) s
  | CallSendProgress taskID progress step message =>
      SendMessage taskID (progressMessage taskID progress step message) s
  end.

Definition applyCalls (cs : list Call) (s : TaskService) : TaskService :=
  fold_left (fun s c => applyCall c s) cs s.

(** ** Local variables of a worker *)

(** The variables the three workers declare and their step closures
    capture; [sourceData] and [exportData] are maps that start out [nil]. *)
Record Vars := mkVars {
  appStatuses : list AppImportStatus;
  sourceData : option (gmap string Value);
  extractedPath : string;
  exportData : option (gmap string Value);
  exportPath : string
}.

Definition initVars : Vars := mkVars [] None "" None "".

Definition set_appStatuses (v : list AppImportStatus) (x : Vars) :=
  mkVars v (sourceData x) (extractedPath x) (exportData x) (exportPath x).
Definition set_sourceData (v : option (gmap string Value)) (x : Vars) :=
  mkVars (appStatuses x) v (extractedPath x) (exportData x) (exportPath x).
Definition set_extractedPath (v : string) (x : Vars) :=
  mkVars (appStatuses x) (sourceData x) v (exportData x) (exportPath x).
Definition set_exportData (v : option (gmap string Value)) (x : Vars) :=
  mkVars (appStatuses x) (sourceData x) (extractedPath x) v (exportPath x).
Definition set_exportPath (v : string) (x : Vars) :=
  mkVars (appStatuses x) (sourceData x) (extractedPath x) (exportData x) v.

(** ** Step closures

    A step closure ([func() error] or
    [func(progressCallback func(int, string)) error]) works on the captured
    variables and touches the task in three ways only: through
    [s.taskService.AddTaskLog], through [s.saveAppImportStatuses] and, when
    it is given one, through [progressCallback].  It ends by returning a
    value or by a runtime panic. *)
Inductive TaskEffect :=
| EffAddTaskLog (level message : string)
| EffSave (apps : list AppImportStatus).

Inductive StepEffect :=
| EffProgress (progress : Z) (message : string)
| EffTask (e : TaskEffect).

Inductive Outcome (A : Type) :=
| Ret (a : A)
| Fault (v : string).
Arguments Ret {A} a.
Arguments Fault {A} v.

Definition Closure (E A : Type) : Type := Vars → list E * Vars * Outcome A.

#[export] Instance Closure_ret {E} : MRet (Closure E) :=
  fun A a x => ([], x, Ret a).
#[export] Instance Closure_bind {E} : MBind (Closure E) :=
  fun A B f m x =>
    match m x with
    | (es, x', Ret a) =>
        match f a x' with
        | (es', x'', r) => (es ++ es', x'', r)
        end
    | (es, x', Fault v) => (es, x', Fault v)
    end.

Definition emit {E} (e : E) : Closure E unit := fun x => ([e], x, Ret tt).
Definition getVars {E} : Closure E Vars := fun x => ([], x, Ret x).
Definition modifyVars {E} (f : Vars → Vars) : Closure E unit :=
  fun x => ([], f x, Ret tt).
Definition panic {E A} (v : string) : Closure E A := fun x => ([], x, Fault v).

(** A call of an external collaborator (network, file system, archive
    code): the task log lines it writes and the way it ends. *)
Definition External (A : Type) : Type := list TaskEffect * Outcome A.

Definition extern {A} (c : External A) : Closure StepEffect A :=
  fun x => (EffTask <$> c.1, x, c.2).

Definition progressCallback (progress : Z) (message : string)
  : Closure StepEffect unit :=
  emit (EffProgress progress message).
Definition addTaskLog (level message : string) : Closure StepEffect unit :=
  emit (EffTask (EffAddTaskLog level message)).

(** Texts of the runtime panics that can occur in the modelled code. *)
Definition nilMapPanic : string := "assignment to entry in nil map".
Definition divideByZeroPanic : string := "integer divide by zero".
Definition indexPanic : string := "index out of range".

(** ** MigrationService: status derivation and summary *)

(** [calculateOverallStatus]. *)
Definition calculateOverallStatus (appStatus : AppImportStatus) : string :=
  if HasAppData appStatus then
    if String.eqb (AppDataStatus appStatus) AppStatusSuccess
       && String.eqb (ComposeStatus appStatus) AppStatusSuccess
    then AppStatusSuccess
    else AppStatusFailed
  else ComposeStatus appStatus.

(** [calculateImportSummary]: the body of the range loop, then the loop. *)
Definition summaryStep (summary : ImportSummary) (app : AppImportStatus)
  : ImportSummary :=
  if String.eqb (OverallStatus app) AppStatusSuccess
  then mkImportSummary (TotalApps summary) (SuccessApps summary + 1) (FailedApps summary)
  else mkImportSummary (TotalApps summary) (SuccessApps summary) (FailedApps summary + 1).

Definition calculateImportSummary (appStatuses : list AppImportStatus)
  : ImportSummary :=
  fold_left summaryStep appStatuses
            (mkImportSummary (Z.of_nat (length appStatuses)) 0 0).

(** The map [saveAppImportStatuses] hands to [SetTaskResult]. *)
Definition importStatusResult (appStatuses : list AppImportStatus) : Value :=
  let summary := calculateImportSummary appStatuses in
  VMap (<["apps" := VAppStatuses appStatuses]>
        (<["summary" := VSummary summary]> ∅)).

(** [saveAppImportStatuses], as the calls it makes.  The list is recorded
    as it stands at the call.  (In the source the stored slice shares its
    backing array with the worker's [appStatuses], so an element the worker
    writes afterwards shows in the stored list before the next save; the
    stored summary is a struct value and changes only with a save.) *)
Definition saveAppImportStatuses (taskID : string)
    (appStatuses : list AppImportStatus) : list Call :=
  [CallSetTaskResult taskID (importStatusResult appStatuses)].

Definition taskEffectCalls (taskID : string) (e : TaskEffect) : list Call :=
  match e with
  | EffAddTaskLog level message => [CallAddTaskLog taskID level message]
  | EffSave apps => saveAppImportStatuses taskID apps
  end.

(** The [progressCallback] closure built by [ExecuteStepWithProgress]. *)
Definition progressCallbackCalls (taskID step : string) (progress : Z)
    (message : string) : list Call :=
  [CallSendProgress taskID progress step message;
   CallUpdateTaskProgress taskID progress]
  ++ (if String.eqb message "" then []
      else [CallAddTaskLog taskID LogLevelInfo message]).

Definition stepEffectCalls (taskID step : string) (e : StepEffect) : list Call :=
  match e with
  | EffProgress progress message => progressCallbackCalls taskID step progress message
  | EffTask e => taskEffectCalls taskID e
  end.

(** ** The worker monad

    A worker function runs on a frame (its local variables), makes calls
    and ends normally, by an early [return], or by a panic that unwinds to
    its deferred function. *)
Record Frame := mkFrame {
  vars : Vars;
  hasCriticalError : bool
}.

Definition initFrame : Frame := mkFrame initVars false.

Inductive Res (A : Type) :=
| Normal (a : A)
| Returned
| Panicked (v : string).
Arguments Normal {A} a.
Arguments Returned {A}.
Arguments Panicked {A} v.

Definition Worker (A : Type) : Type := Frame → list Call * Frame * Res A.

#[export] Instance Worker_ret : MRet Worker :=
  fun A a fr => ([], fr, Normal a).
#[export] Instance Worker_bind : MBind Worker :=
  fun A B f m fr =>
    match m fr with
    | (cs, fr', Normal a) =>
        match f a fr' with
        | (cs', fr'', r) => (cs ++ cs', fr'', r)
        end
    | (cs, fr', Returned) => (cs, fr', Returned)
    | (cs, fr', Panicked v) => (cs, fr', Panicked v)
    end.

Definition call (c : Call) : Worker unit := fun fr => ([c], fr, Normal tt).
Definition calls (cs : list Call) : Worker unit := fun fr => (cs, fr, Normal tt).
Definition getFrame : Worker Frame := fun fr => ([], fr, Normal fr).
Definition modifyWorkerVars (f : Vars → Vars) : Worker unit :=
  fun fr => ([], mkFrame (f (vars fr)) (hasCriticalError fr), Normal tt).
Definition setCriticalError : Worker unit :=
  fun fr => ([], mkFrame (vars fr) true, Normal tt).
Definition return_ {A} : Worker A := fun fr => ([], fr, Returned).

(** Running a step closure inside the worker: [lift] is what each of its
    effects does to the task service. *)
Definition runClosure {E A} (lift : E → list Call) (fn : Closure E A) : Worker A :=
  fun fr =>
    match fn (vars fr) with
    | (es, x, Ret a) => (es ≫= lift, mkFrame x (hasCriticalError fr), Normal a)
    | (es, x, Fault v) => (es ≫= lift, mkFrame x (hasCriticalError fr), Panicked v)
    end.

(** [defer func() { if r := recover(); r != nil { ... } else { ... } }()]
    around [body]: the deferred function runs however [body] ends and is
    given what [recover()] returns; a recovered panic does not propagate. *)
Definition deferRecover (deferred : option string → Worker unit)
    (body : Worker unit) : Worker unit :=
  fun fr =>
    match body fr with
    | (cs, fr', r) =>
        let recovered := match r with Panicked v => Some v | _ => None end in
        match deferred recovered fr' with
        | (cs', fr'', Panicked w) => (cs ++ cs', fr'', Panicked w)
        | (cs', fr'', _) => (cs ++ cs', fr'', Normal tt)
        end
    end.

(** ** TaskService.ExecuteStep and ExecuteStepWithProgress *)

Definition ExecuteStep (taskID step : string) (fn : Closure TaskEffect error)
  : Worker error :=
  call (CallSendStepStart taskID step "Step started");;
  call (CallAddTaskLog taskID LogLevelInfo ("Step started: " +:+ step));;
  err ← runClosure (taskEffectCalls taskID) fn;
  match err with
  | Some e =>
      call (CallSendStepError taskID step "Step failed" e);;
      call (CallAddTaskLog taskID LogLevelError
              ("Step failed: " +:+ step +:+ " - " +:+ e));;
      mret (Some e)
  | None =>
      call (CallSendStepComplete taskID step "Step completed");;
      call (CallAddTaskLog taskID LogLevelInfo ("Step completed: " +:+ step));;
      mret None
  end.

Definition ExecuteStepWithProgress (taskID step : string)
    (fn : Closure StepEffect error) : Worker error :=
  call (CallSendStepStart taskID step "Step started");;
  call (CallAddTaskLog taskID LogLevelInfo ("Step started: " +:+ step));;
  err ← runClosure (stepEffectCalls taskID step) fn;
  match err with
  | Some e =>
      call (CallSendStepError taskID step "Step failed" e);;
      call (CallAddTaskLog taskID LogLevelError
              ("Step failed: " +:+ step +:+ " - " +:+ e));;
      mret (Some e)
  | None =>
      call (CallSendStepComplete taskID step "Step completed");;
      call (CallAddTaskLog taskID LogLevelInfo ("Step completed: " +:+ step));;
      mret None
  end.

(** ** MigrationService: the three workers

    Each worker is written over the closures it hands to [ExecuteStep] and
    [ExecuteStepWithProgress]; the closures of the import worker follow
    further down. *)

(** [sourceData[key] = v]; assigning into a [nil] map panics. *)
Definition setSourceData (key : string) (v : Value) : Worker unit :=
  fun fr =>
    match sourceData (vars fr) with
    | None => ([], fr, Panicked nilMapPanic)
    | Some m =>
        ([], mkFrame (set_sourceData (Some (<[key := v]> m)) (vars fr))
                     (hasCriticalError fr), Normal tt)
    end.

(** The error branch after the step "Scan app configuration". *)
Definition scanFailed (taskID e : string) : Worker unit :=
  call (CallAddTaskLog taskID LogLevelWarning
          ("Failed to scan app configuration: " +:+ e
           +:+ ", continuing with next steps"));;
  modifyWorkerVars (set_appStatuses []);;
  setSourceData "composeFiles" (VComposeFiles ∅);;
  setSourceData "hasGlobalAppData" (VBool false).

Definition mergeFailed (taskID e : string) : Worker unit :=
  call (CallAddTaskLog taskID LogLevelWarning
          ("Failed to merge AppData directory: " +:+ e
           +:+ ", continuing with next steps")).

Definition composeFailed (taskID e : string) : Worker unit :=
  call (CallAddTaskLog taskID LogLevelWarning
          ("Failed to import application configuration: " +:+ e
           +:+ ", continuing with next steps")).

Definition cleanupFailed (taskID e : string) : Worker unit :=
  call (CallAddTaskLog taskID LogLevelWarning
          ("Cleanup local temporary files failed: " +:+ e)).

(** The result written after the last step of the online and import
    workers. *)
Definition importCompletedResult (appStatuses : list AppImportStatus) : Value :=
  let summary := calculateImportSummary appStatuses in
  VMap (<["apps" := VAppStatuses appStatuses]>
        (<["summary" := VSummary summary]>
        (<["completion_time" := VTime]>
        (<["status" := VString
             ("Import completed: " +:+ pretty (SuccessApps summary)
              +:+ " succeeded, " +:+ pretty (FailedApps summary)
              +:+ " failed, total " +:+ pretty (TotalApps summary)
              +:+ " apps")]> ∅)))).

Definition writeImportResult (taskID : string) : Worker unit :=
  fr ← getFrame;
  call (CallSetTaskResult taskID (importCompletedResult (appStatuses (vars fr))));;
  call (CallUpdateTaskProgress taskID 100).

(** The steps from "Scan app configuration" on are the same code in the
    online and in the import worker. *)
Definition itemSteps (taskID : string)
    (scan merge compose cleanup : Closure StepEffect error) : Worker unit :=
  err ← ExecuteStepWithProgress taskID "Scan app configuration" scan;
  match err with Some e => scanFailed taskID e | None => mret tt end;;
  err ← ExecuteStepWithProgress taskID "Merge AppData directory" merge;
  match err with Some e => mergeFailed taskID e | None => mret tt end;;
  err ← ExecuteStepWithProgress taskID "Import application configuration" compose;
  match err with Some e => composeFailed taskID e | None => mret tt end;;
  err ← ExecuteStepWithProgress taskID "Cleanup local temporary files" cleanup;
  match err with Some e => cleanupFailed taskID e | None => mret tt end;;
  writeImportResult taskID.

(** The deferred function of a worker: [panicPrefix], [criticalText] and
    [completedText] are the three log texts in which the workers differ,
    [save] tells whether it ends with [saveAppImportStatuses]. *)
Definition workerDeferred (taskID panicPrefix criticalText completedText : string)
    (save : bool) (r : option string) : Worker unit :=
  match r with
  | Some v =>
      call (CallUpdateTaskStatus taskID TaskStatusFailed);;
      call (CallAddTaskLog taskID LogLevelError (panicPrefix +:+ v))
  | None =>
      fr ← getFrame;
      if hasCriticalError fr then
        call (CallUpdateTaskStatus taskID TaskStatusFailed);;
        call (CallAddTaskLog taskID LogLevelError criticalText)
      else
        call (CallUpdateTaskStatus taskID TaskStatusCompleted);;
        call (CallAddTaskLog taskID LogLevelInfo completedText)
  end;;
  if save then
    fr ← getFrame;
    calls (saveAppImportStatuses taskID (appStatuses (vars fr)))
  else mret tt.

(** *** executeOnlineMigration *)

Record OnlineSteps := mkOnlineSteps {
  onl_testSource : Closure TaskEffect error;
  onl_testTarget : Closure TaskEffect error;
  onl_download : Closure StepEffect error;
  onl_scan : Closure StepEffect error;
  onl_merge : Closure StepEffect error;
  onl_compose : Closure StepEffect error;
  onl_cleanup : Closure StepEffect error
}.

Definition onlineDeferred (taskID : string) : option string → Worker unit :=
  workerDeferred taskID "Migration panic: "
    "Critical error occurred during online migration; task failed"
    "Online migration completed" true.

Definition executeOnlineMigration_body (taskID : string) (st : OnlineSteps)
  : Worker unit :=
  err ← ExecuteStep taskID "Test source system connection" (onl_testSource st);
  match err with
  | Some _ => setCriticalError;; return_
  | None =>
  err ← ExecuteStep taskID "Test target system connection" (onl_testTarget st);
  match err with
  | Some _ => setCriticalError;; return_
  | None =>
  err ← ExecuteStepWithProgress taskID "Download and process source data"
          (onl_download st);
  match err with
  | Some _ => setCriticalError;; return_
  | None =>
  itemSteps taskID (onl_scan st) (onl_merge st) (onl_compose st) (onl_cleanup st)
  end end end.

Definition executeOnlineMigration (taskID : string) (st : OnlineSteps)
  : Worker unit :=
  call (CallUpdateTaskStatus taskID TaskStatusRunning);;
  deferRecover (onlineDeferred taskID) (executeOnlineMigration_body taskID st).

(** *** executeDataImport *)

Record ImportSteps := mkImportSteps {
  imp_testTarget : Closure TaskEffect error;
  imp_parse : Closure StepEffect error;
  imp_scan : Closure StepEffect error;
  imp_merge : Closure StepEffect error;
  imp_compose : Closure StepEffect error;
  imp_cleanup : Closure StepEffect error
}.

Definition importDeferred (taskID : string) : option string → Worker unit :=
  workerDeferred taskID "Panic occurred during import: "
    "Critical error occurred during offline import; task failed"
    "Offline import completed" true.

Definition executeDataImport_body (taskID : string) (st : ImportSteps)
  : Worker unit :=
  err ← ExecuteStep taskID "Test target system connection" (imp_testTarget st);
  match err with
  | Some _ => setCriticalError;; return_
  | None =>
  err ← ExecuteStepWithProgress taskID "Parse import file" (imp_parse st);
  match err with
  | Some _ => setCriticalError;; return_
  | None =>
  itemSteps taskID (imp_scan st) (imp_merge st) (imp_compose st) (imp_cleanup st)
  end end.

Definition executeDataImport (taskID : string) (st : ImportSteps) : Worker unit :=
  call (CallUpdateTaskStatus taskID TaskStatusRunning);;
  deferRecover (importDeferred taskID) (executeDataImport_body taskID st).

(** *** executeDataExport *)

(** Functions of the standard library and of the file system that the
    workers call and that neither fail nor touch the task. *)
Record OS := mkOS {
  filepath_Join : list string → string;
  filepath_Base : string → string;
  statOK : string → bool;          (* [_, err := os.Stat(p); err == nil] *)
  getFileSize : string → Z
}.

Record ExportSteps := mkExportSteps {
  exp_testSource : Closure TaskEffect error;
  exp_export : Closure StepEffect error
}.

Definition exportDeferred (taskID : string) : option string → Worker unit :=
  workerDeferred taskID "Panic occurred during export: "
    "Critical error occurred during data export; task failed"
    "Data export completed" false.

Definition exportResult (os : OS) (exportPath : string) : Value :=
  VMap (<["export_file" := VString exportPath]>
        (<["export_size" := VInt (getFileSize os exportPath)]>
        (<["completion_time" := VTime]>
        (<["download_instructions" :=
             VDownloadInstructions
               (mkDownloadInstructions
                  "Data export completed. Please download the export file from CasaOS manually."
                  exportPath
                  ("/downloads/" +:+ filepath_Base os exportPath)
                  ["1. Sign in to CasaOS";
                   "2. Open the File Manager";
                   "3. Locate the export file: " +:+ exportPath;
                   "4. Download the file to your local machine";
                   "5. Use this file to import on the target system"])]> ∅)))).

Definition executeDataExport_body (os : OS) (taskID : string) (st : ExportSteps)
  : Worker unit :=
  err ← ExecuteStep taskID "Test source system connection" (exp_testSource st);
  match err with
  | Some _ => setCriticalError;; return_
  | None =>
  err ← ExecuteStepWithProgress taskID "Export system data" (exp_export st);
  match err with
  | Some _ => setCriticalError;; return_
  | None =>
  fr ← getFrame;
  call (CallSetTaskResult taskID (exportResult os (exportPath (vars fr))));;
  call (CallUpdateTaskProgress taskID 100)
  end end.

Definition executeDataExport (os : OS) (taskID : string) (st : ExportSteps)
  : Worker unit :=
  call (CallUpdateTaskStatus taskID TaskStatusRunning);;
  deferRecover (exportDeferred taskID) (executeDataExport_body os taskID st).

(** ** The closures of the import worker *)

(** A Go function returning [(value, error)]. *)
Inductive ValueOrError (A : Type) :=
| Ok (a : A)
| Err (e : string).
Arguments Ok {A} a.
Arguments Err {A} e.

(** [ConnectionTestResponse] (the fields the workers read). *)
Record ConnectionTestResponse := mkConnectionTestResponse {
  Success : bool;
  ctr_Message : string
}.

(** The external collaborators of the import worker.  [scanRange] and
    [composeRange] are the orders in which the range loops of the scan step
    and of the compose step visit [composeFiles]; Go leaves the order of a
    map range unspecified, and the two need not agree. *)
Record ImportEnv := mkImportEnv {
  env_os : OS;
  TestConnection : option loc → External (ValueOrError ConnectionTestResponse);
  osMkdirAll : string → External error;
  detectFileFormat : string → External (ValueOrError string);
  extractTarGz : string → string → External error;
  extractZipFile : string → string → External error;
  readComposeFiles : string → External (ValueOrError (gmap string string));
  scanRange : gmap string string → list (string * string);
  composeRange : gmap string string → list (string * string);
  uploadAppDataToZimaOS : option loc → string → string → External error;
  importComposeToZimaOS : option loc → string → string → External error
}.

Definition externPlain {A} (c : External A) : Closure TaskEffect A :=
  fun x => (c.1, x, c.2).

(** Step 1: "Test target system connection". *)
Definition importTestTarget (env : ImportEnv) (task : MigrationTask)
  : Closure TaskEffect error :=
  r ← externPlain (TestConnection env (Target task));
  match r with
  | Err err => mret (Some ("Failed to test target connection: " +:+ err))
  | Ok testResp =>
      if negb (Success testResp)
      then mret (Some ("Target connection failed: " +:+ ctr_Message testResp))
      else mret None
  end.

(** Step 2: "Parse import file". *)
Definition importParse (env : ImportEnv) (task : MigrationTask)
  : Closure StepEffect error :=
  match Options task !! "import_file" with
  | None => mret (Some "Missing required import_file parameter")
  | Some importFileValue =>
  match importFileValue with
  | VString importFile =>
    if String.eqb importFile "" then
      (* the text goes on with the dynamic type and the value (%T, %v) *)
      mret (Some "import_file must be a non-empty string")
    else
    progressCallback 10 "Start parsing import file...";;
    progressCallback 30 "Extract import file...";;
    let extractDir := filepath_Join (env_os env) ["uploads"; "extracted_import"] in
    err ← extern (osMkdirAll env extractDir);
    match err with
    | Some e => mret (Some ("Failed to create extraction directory: " +:+ e))
    | None =>
    r ← extern (detectFileFormat env importFile);
    match r with
    | Err e => mret (Some ("Failed to detect file format: " +:+ e))
    | Ok actualFormat =>
    err ← (if String.eqb actualFormat "gzip" then
             err ← extern (extractTarGz env importFile extractDir);
             mret (option_map (fun e => "Failed to extract tar.gz file: " +:+ e) err)
           else if String.eqb actualFormat "zip" then
             err ← extern (extractZipFile env importFile extractDir);
             mret (option_map (fun e => "Failed to extract ZIP file: " +:+ e) err)
           else
             mret (Some ("Unsupported file format: " +:+ actualFormat
                         +:+ ", only ZIP and GZIP are supported")));
    match err with
    | Some e => mret (Some e)
    | None =>
    modifyVars (set_extractedPath extractDir);;
    progressCallback 60 "Parsing CasaOS structure...";;
    modifyVars (set_sourceData (Some {[ "extractedPath" := VString extractDir ]}));;
    progressCallback 100 "Import file parsing completed";;
    mret None
    end end end
  | _ => mret (Some "import_file must be a non-empty string")
  end end.

(** [sourceData["extractedPath"].(string)]; reading a [nil] map yields the
    zero value, for which the type assertion fails. *)
Definition sourceString (key : string) (x : Vars) : option string :=
  match default ∅ (sourceData x) !! key with
  | Some (VString s) => Some s
  | _ => None
  end.

(** [sourceData[key] = v] inside a closure. *)
Definition closureSetSourceData (key : string) (v : Value) : Closure StepEffect unit :=
  fun x =>
    match sourceData x with
    | None => ([], x, Fault nilMapPanic)
    | Some m => ([], set_sourceData (Some (<[key := v]> m)) x, Ret tt)
    end.

(** Step 3: "Scan app configuration".  The range loop appends one status
    per compose file. *)
Definition scanStatus (os : OS) (appDataPath : string) (hasGlobalAppData : bool)
    (appName : string) : AppImportStatus :=
  let appDataDir := filepath_Join os [appDataPath; appName] in
  let hasAppData := hasGlobalAppData && statOK os appDataDir in
  mkAppImportStatus appName hasAppData AppStatusSkipped "pending" "pending" "" "".

Definition importScan (env : ImportEnv) (task : MigrationTask)
  : Closure StepEffect error :=
  x ← getVars;
  match sourceString "extractedPath" x with
  | None => mret (Some "Extracted path not found")
  | Some extractedPath =>
  progressCallback 20 "Scanning app configuration...";;
  let appsDir := filepath_Join (env_os env) [extractedPath; "var/lib/casaos/apps"] in
  r ← extern (readComposeFiles env appsDir);
  match r with
  | Err e =>
      let errorMsg := "Failed to read compose files: " +:+ e in
      addTaskLog LogLevelError errorMsg;;
      mret (Some errorMsg)
  | Ok composeFiles =>
  let appDataPath := filepath_Join (env_os env) [extractedPath; "DATA/AppData"] in
  let hasGlobalAppData := statOK (env_os env) appDataPath in
  progressCallback 60 "Initializing application status...";;
  modifyVars (fun x =>
    set_appStatuses
      (appStatuses x
       ++ (scanStatus (env_os env) appDataPath hasGlobalAppData
             <$> (scanRange env composeFiles).*1)) x);;
  closureSetSourceData "composeFiles" (VComposeFiles composeFiles);;
  closureSetSourceData "hasGlobalAppData" (VBool hasGlobalAppData);;
  progressCallback 100
    ("Found " +:+ pretty (Z.of_nat (size composeFiles)) +:+ " apps");;
  mret None
  end end.

(** Step 4: "Merge AppData directory".  [mergeLoop] is the second range
    loop over the indices of [appStatuses]. *)
Fixpoint mergeLoop (env : ImportEnv) (task : MigrationTask) (appDataPath : string)
    (totalAppsWithData : Z) (indices : list nat) (completedApps : Z)
  : Closure StepEffect unit :=
  match indices with
  | [] => mret tt
  | i :: rest =>
      x ← getVars;
      match appStatuses x !! i with
      | None => panic indexPanic
      | Some app =>
          if negb (HasAppData app) then
            mergeLoop env task appDataPath totalAppsWithData rest completedApps
          else
            let completedApps := completedApps + 1 in
            (if totalAppsWithData =? 0 then panic divideByZeroPanic else mret tt);;
            let progress := 20 + (60 * completedApps) `quot` totalAppsWithData in
            progressCallback progress
              ("Merging " +:+ AppName app +:+ " AppData ("
               +:+ pretty completedApps +:+ "/" +:+ pretty totalAppsWithData
               +:+ ")...");;
            let appDataDir := filepath_Join (env_os env) [appDataPath; AppName app] in
            err ← extern (uploadAppDataToZimaOS env (Target task) (AppName app) appDataDir);
            match err with
            | Some e =>
                modifyVars (fun x => set_appStatuses
                  (update_at i (fun a =>
                     set_ErrorMessage ("AppData merge failed: " +:+ e)
                       (set_AppDataStatus AppStatusFailed a)) (appStatuses x)) x);;
                addTaskLog LogLevelError
                  ("App " +:+ AppName app +:+ " AppData merge failed: " +:+ e)
            | None =>
                modifyVars (fun x => set_appStatuses
                  (update_at i (set_AppDataStatus AppStatusSuccess) (appStatuses x)) x);;
                addTaskLog LogLevelInfo
                  ("App " +:+ AppName app +:+ " AppData merge succeeded ✓")
            end;;
            x ← getVars;
            emit (EffTask (EffSave (appStatuses x)));;
            mergeLoop env task appDataPath totalAppsWithData rest completedApps
      end
  end.

Definition importMerge (env : ImportEnv) (task : MigrationTask)
  : Closure StepEffect error :=
  x ← getVars;
  match sourceString "extractedPath" x with
  | None => mret (Some "Extracted path not found")
  | Some extractedPath =>
  let hasGlobalAppData :=
    match default ∅ (sourceData x) !! "hasGlobalAppData" with
    | Some (VBool b) => b
    | _ => false
    end in
  if negb hasGlobalAppData then
    progressCallback 100 "AppData directory not found, skipping merge";;
    mret None
  else
  progressCallback 10 "Start merging AppData directory...";;
  let appDataPath := filepath_Join (env_os env) [extractedPath; "DATA/AppData"] in
  let totalAppsWithData :=
    Z.of_nat (length (filter (fun a => HasAppData a = true) (appStatuses x))) in
  mergeLoop env task appDataPath totalAppsWithData
    (seq 0 (length (appStatuses x))) 0;;
  progressCallback 100 "AppData directory merge completed";;
  mret None
  end.

(** Step 5: "Import application configuration". *)

(** [for i := range appStatuses { if appStatuses[i].AppName == appName { ...; break } }]:
    the body runs on the first status with that name, if there is one. *)
Fixpoint findApp (appName : string) (l : list AppImportStatus) : option nat :=
  match l with
  | [] => None
  | a :: rest =>
      if String.eqb (AppName a) appName then Some 0%nat
      else S <$> findApp appName rest
  end.

Definition composeOutcome (err : error) (a : AppImportStatus) : AppImportStatus :=
  let a' :=
    match err with
    | Some e =>
        let a1 := set_ComposeStatus AppStatusFailed a in
        let a2 := if String.eqb (ErrorMessage a1) "" then a1
                  else set_ErrorMessage (ErrorMessage a1 +:+ "; ") a1 in
        set_ErrorMessage (ErrorMessage a2 +:+ "Compose import failed: " +:+ e) a2
    | None => set_ComposeStatus AppStatusSuccess a
    end in
  set_OverallStatus (calculateOverallStatus a') a'.

Fixpoint composeLoop (env : ImportEnv) (task : MigrationTask) (totalCompose : Z)
    (entries : list (string * string)) (completedCompose : Z)
  : Closure StepEffect unit :=
  match entries with
  | [] => mret tt
  | (appName, composeContent) :: rest =>
      let completedCompose := completedCompose + 1 in
      (if totalCompose =? 0 then panic divideByZeroPanic else mret tt);;
      let progress := 20 + (70 * completedCompose) `quot` totalCompose in
      progressCallback progress
        ("Import " +:+ appName +:+ " compose configuration ("
         +:+ pretty completedCompose +:+ "/" +:+ pretty totalCompose +:+ ")...");;
      err ← extern (importComposeToZimaOS env (Target task) appName composeContent);
      x ← getVars;
      match findApp appName (appStatuses x) with
      | Some i =>
          modifyVars (fun x => set_appStatuses
            (update_at i (composeOutcome err) (appStatuses x)) x);;
          match err with
          | Some e => addTaskLog LogLevelError
                        ("App " +:+ appName +:+ " compose import failed: " +:+ e)
          | None => addTaskLog LogLevelInfo
                      ("App " +:+ appName +:+ " compose import succeeded ✓")
          end
      | None => mret tt
      end;;
      x ← getVars;
      emit (EffTask (EffSave (appStatuses x)));;
      composeLoop env task totalCompose rest completedCompose
  end.

Definition importCompose (env : ImportEnv) (task : MigrationTask)
  : Closure StepEffect error :=
  x ← getVars;
  match default ∅ (sourceData x) !! "composeFiles" with
  | Some (VComposeFiles composeFiles) =>
      if bool_decide (size composeFiles = 0%nat) then
        progressCallback 100 "No application configuration files found";;
        mret None
      else
        composeLoop env task (Z.of_nat (size composeFiles))
          (composeRange env composeFiles) 0;;
        progressCallback 100 "All application compose imports completed";;
        mret None
  | _ => mret (Some "Compose file data not found")
  end.

(** Step 6: "Cleanup local temporary files": the results of [os.Remove]
    and [os.RemoveAll] only reach the process log. *)
Definition importCleanup (env : ImportEnv) (task : MigrationTask)
  : Closure StepEffect error :=
  progressCallback 50 "Cleaning up local temporary files...";;
  progressCallback 100 "Cleanup completed";;
  mret None.

Definition importSteps (env : ImportEnv) (task : MigrationTask) : ImportSteps :=
  mkImportSteps (importTestTarget env task) (importParse env task)
    (importScan env task) (importMerge env task) (importCompose env task)
    (importCleanup env task).

(** [go s.executeDataImport(task)] as started by [StartDataImport]. *)
Definition runDataImport (env : ImportEnv) (task : MigrationTask)
  : list Call * Frame * Res unit :=
  executeDataImport (ID task) (importSteps env task) initFrame.

End Services.
Export Services.

(* ===================================================================== *)
(** * package handlers *)
(* ===================================================================== *)

Module Handlers.

(** Points in time and durations, in nanoseconds. *)
Abbreviation Time := Z.
Definition Minute : Z := 60 * 1000000000.

(** The cache fields of [Handler]. *)
Record Handler := mkHandler {
  importStatusCache : gmap string ImportStatusResponse;
  cacheExpiry : gmap string Time;
  cacheTTL : Z
}.

(** [NewHandler]: empty cache, five minutes of TTL. *)
Definition NewHandler : Handler := mkHandler ∅ ∅ (Minute * 5).

Definition zeroImportStatusResponse : ImportStatusResponse :=
  mkImportStatusResponse "" "" 0 [] (mkImportSummary 0 0 0).

(** [getCachedImportStatus], called at time [now]. *)
Definition getCachedImportStatus (taskID : string) (now : Time) (h : Handler)
  : ImportStatusResponse * bool * Handler :=
  match importStatusCache h !! taskID with
  | Some cached =>
      match cacheExpiry h !! taskID with
      | Some expiry =>
          if now <? expiry then (cached, true, h)
          else (zeroImportStatusResponse, false,
                mkHandler (delete taskID (importStatusCache h))
                          (delete taskID (cacheExpiry h)) (cacheTTL h))
      | None =>
          (zeroImportStatusResponse, false,
           mkHandler (delete taskID (importStatusCache h))
                     (delete taskID (cacheExpiry h)) (cacheTTL h))
      end
  | None => (zeroImportStatusResponse, false, h)
  end.

(** [cacheImportStatus], called at time [now]. *)
Definition cacheImportStatus (taskID : string) (response : ImportStatusResponse)
    (now : Time) (h : Handler) : Handler :=
  mkHandler (<[taskID := response]> (importStatusCache h))
            (<[taskID := now + cacheTTL h]> (cacheExpiry h))
            (cacheTTL h).

(** [clearExpiredCache], the sweep run once a minute; deleting the visited
    key during a map range is allowed and the outcome does not depend on
    the order of the visit. *)
Definition clearExpiredCache (now : Time) (h : Handler) : Handler :=
  let expired := filter (fun kv => kv.2 < now) (cacheExpiry h) in
  mkHandler (filter (fun kv => expired !! kv.1 = None) (importStatusCache h))
            (filter (fun kv => ¬ kv.2 < now) (cacheExpiry h))
            (cacheTTL h).

(** The [get*] helpers on a [map[string]interface{}]. *)
Definition getString (m : gmap string Value) (key : string) : string :=
  match m !! key with Some (VString s) => s | _ => "" end.
Definition getBool (m : gmap string Value) (key : string) : bool :=
  match m !! key with Some (VBool b) => b | _ => false end.
Definition getInt (m : gmap string Value) (key : string) : Z :=
  match m !! key with
  | Some (VFloat64 i) => i
  | Some (VInt i) => i
  | _ => 0
  end.

(** What the body of an HTTP answer carries. *)
Inductive ResponseData :=
| DataNone
| DataError (e : string)
| DataImportStatus (r : ImportStatusResponse)
| DataTask (task : MigrationTask).

(** The status code and the [APIResponse] written by [c.JSON]. *)
Record HTTPResponse := mkHTTPResponse {
  http_Status : Z;
  api_Success : bool;
  api_Message : string;
  api_Data : ResponseData
}.

(** The element of a [[]interface{}] decoded into an [AppImportStatus]. *)
Definition decodeApp (appData : Value) : option AppImportStatus :=
  match appData with
  | VMap appMap =>
      Some (mkAppImportStatus (getString appMap "app_name")
              (getBool appMap "has_app_data")
              (getString appMap "app_data_status")
              (getString appMap "compose_status")
              (getString appMap "overall_status")
              (getString appMap "error_message") "")
  | _ => None
  end.

(** The [apps] slice [GetImportStatus] works on, and whether it is the
    very slice stored in the task's result (the first type switch case
    assigns the stored slice, the second builds a new one). *)
Definition resultApps (result : option (gmap string Value))
  : list AppImportStatus * bool :=
  match result with
  | None => ([], false)
  | Some m =>
      match m !! "apps" with
      | Some (VAppStatuses appsSlice) => (appsSlice, true)
      | Some (VSlice appsSlice) => (omap decodeApp appsSlice, false)
      | _ => ([], false)
      end
  end.

Definition resultSummary (result : option (gmap string Value)) : ImportSummary :=
  match result with
  | None => mkImportSummary 0 0 0
  | Some m =>
      match m !! "summary" with
      | Some (VMap summaryMap) =>
          mkImportSummary (getInt summaryMap "total_apps")
                          (getInt summaryMap "success_apps")
                          (getInt summaryMap "failed_apps")
      | _ => mkImportSummary 0 0 0
      end
  end.

Definition withDownloadURL (taskID : string) (a : AppImportStatus) : AppImportStatus :=
  set_DownloadURL ("/api/tasks/" +:+ taskID +:+ "/download/" +:+ AppName a) a.

(** The view computed from the task's live result. *)
Definition computeImportStatus (taskID : string) (task : MigrationTask)
  : ImportStatusResponse :=
  mkImportStatusResponse taskID (Status task) (Progress task)
    (withDownloadURL taskID <$> (resultApps (Result task)).1)
    (resultSummary (Result task)).

(** [apps[i].DownloadURL = ...] writes through to the stored slice when
    [apps] is that slice. *)
Definition writeDownloadURLs (taskID : string) (task : MigrationTask)
  : MigrationTask :=
  match Result task, resultApps (Result task) with
  | Some m, (apps, true) =>
      set_Result (Some (<["apps" := VAppStatuses (withDownloadURL taskID <$> apps)]> m)) task
  | _, _ => task
  end.

(** [GetImportStatus]: [now] is the clock read by [getCachedImportStatus],
    [now'] the one read by [cacheImportStatus]. *)
Definition GetImportStatus (taskID : string) (now now' : Time)
    (h : Handler) (s : TaskService) : HTTPResponse * Handler * TaskService :=
  if String.eqb taskID "" then
    (mkHTTPResponse 400 false "Task ID is required" DataNone, h, s)
  else
  match Services.GetTask taskID s with
  | (Some task, None) =>
  if negb (String.eqb (task_Type task) TaskTypeImport)
     && negb (String.eqb (task_Type task) TaskTypeOnline)
     && negb (String.eqb (task_Type task) TaskTypeOfflineImport)
  then
    (mkHTTPResponse 400 false ""
       (DataError "Task type does not support import status query"), h, s)
  else
  let running := String.eqb (Status task) TaskStatusRunning in
  let '(cachedResponse, ok, h1) :=
    if negb running then getCachedImportStatus taskID now h
    else (zeroImportStatusResponse, false, h) in
  if ok : bool then
    (mkHTTPResponse 200 true "Import status retrieved (cached)"
       (DataImportStatus cachedResponse), h1, s)
  else
  let response := computeImportStatus taskID task in
  let s' := mkTaskService
              (set_tasks (<[taskID := writeDownloadURLs taskID task]> (tasks (store s)))
                         (store s))
              (Broadcast s) in
  let h2 := if negb running then cacheImportStatus taskID response now' h1 else h1 in
  (mkHTTPResponse 200 true "Import status retrieved" (DataImportStatus response),
   h2, s')
  | (_, err) =>
      (mkHTTPResponse 404 false (default "" err) DataNone, h, s)
  end.

(** [sourceCopy.Password = ""; sourceCopy.Token = ""] on a copy of a
    connection record. *)
Definition scrub (c : SystemConnection) : SystemConnection :=
  mkSystemConnection (conn_ID c) (Host c) (Port c) (Username c) "" ""
                     (conn_Type c) (Verified c).

(** [sourceCopy := *p; ...; &sourceCopy]: the scrubbed copy lives in a new
    cell.  A pointer held by a task always refers to an allocated record;
    for a dangling one the model leaves everything as it is. *)
Definition scrubCopy (p : option loc) (heap : gmap loc SystemConnection)
  : option loc * gmap loc SystemConnection :=
  match p with
  | None => (None, heap)
  | Some l =>
      match heap !! l with
      | None => (Some l, heap)
      | Some c =>
          let l' := fresh (dom heap) in
          (Some l', <[l' := scrub c]> heap)
      end
  end.

(** [GetTaskStatus], on the task service and the memory holding the
    connection records the tasks point to. *)
Definition GetTaskStatus (taskID : string) (s : TaskService)
    (heap : gmap loc SystemConnection)
  : HTTPResponse * TaskService * gmap loc SystemConnection :=
  if String.eqb taskID "" then
    (mkHTTPResponse 400 false "Task ID is required" DataNone, s, heap)
  else
  match Services.GetTask taskID s with
  | (Some task, None) =>
      let taskCopy := task in
      let '(source', heap1) := scrubCopy (Source taskCopy) heap in
      let taskCopy := set_Source source' taskCopy in
      let '(target', heap2) := scrubCopy (Target taskCopy) heap1 in
      let taskCopy := set_Target target' taskCopy in
      (mkHTTPResponse 200 true "Task status retrieved" (DataTask taskCopy),
       s, heap2)
  | (_, err) =>
      (mkHTTPResponse 404 false (default "" err) DataNone, s, heap)
  end.

(** The connection record a pointer of the answer leads to, which is what
    the JSON encoder writes out. *)
Definition deref (heap : gmap loc SystemConnection) (p : option loc)
  : option SystemConnection :=
  p ≫= (fun l => heap !! l).

(** [Handler.DeleteTask]. *)
Definition DeleteTask (taskID : string) (s : TaskService)
  : HTTPResponse * TaskService :=
  if String.eqb taskID "" then
    (mkHTTPResponse 400 false "Task ID is required" DataNone, s)
  else
  match Services.GetTask taskID s with
  | (Some task, None) =>
      if String.eqb (Status task) TaskStatusRunning then
        (mkHTTPResponse 400 false "Running tasks cannot be deleted" DataNone, s)
      else
        match Services.DeleteTask taskID s with
        | (Some err, s') =>
            (mkHTTPResponse 500 false ("Failed to delete task: " +:+ err) DataNone, s')
        | (None, s') =>
            (mkHTTPResponse 200 true "Task deleted successfully" DataNone, s')
        end
  | (_, err) =>
      (mkHTTPResponse 404 false (default "" err) DataNone, s)
  end.

End Handlers.
Export Handlers.

(* ===================================================================== *)
(** * Observations on a worker's run *)
(* ===================================================================== *)

Module Observe.

(** The statuses a sequence of calls writes to task [taskID], in order. *)
Definition statusWrite (taskID : string) (c : Call) : option string :=
  match c with
  | CallUpdateTaskStatus id status =>
      if String.eqb id taskID then Some status else None
  | _ => None
  end.
Definition statusWrites (taskID : string) (cs : list Call) : list string :=
  omap (statusWrite taskID) cs.

(** The step events published to the hub. *)
Inductive StepEvent :=
| StepStart (step : string)
| StepComplete (step : string)
| StepError (step err : string).

Definition stepEvent (c : Call) : option StepEvent :=
  match c with
  | CallSendStepStart _ step _ => Some (StepStart step)
  | CallSendStepComplete _ step _ => Some (StepComplete step)
  | CallSendStepError _ step _ err => Some (StepError step err)
  | _ => None
  end.
Definition stepEvents (cs : list Call) : list StepEvent := omap stepEvent cs.

Definition startedStep (c : Call) : option string :=
  match c with
  | CallSendStepStart _ step _ => Some step
  | _ => None
  end.
Definition startedSteps (cs : list Call) : list string := omap startedStep cs.

(** The values written to the result of task [taskID], in order. *)
Definition resultWrite (taskID : string) (c : Call) : option Value :=
  match c with
  | CallSetTaskResult id result =>
      if String.eqb id taskID then Some result else None
  | _ => None
  end.
Definition resultWrites (taskID : string) (cs : list Call) : list Value :=
  omap (resultWrite taskID) cs.

(** The status, and the result, of a task as a query finds them. *)
Definition taskStatus (taskID : string) (s : TaskService) : option string :=
  Status <$> tasks (store s) !! taskID.
Definition taskResult (taskID : string) (s : TaskService)
  : option (option (gmap string Value)) :=
  Result <$> tasks (store s) !! taskID.

(** The item list and the summary a stored result carries. *)
Definition storedApps (result : Value) : option (list AppImportStatus) :=
  match result with
  | VMap m => match m !! "apps" with
              | Some (VAppStatuses l) => Some l
              | _ => None
              end
  | _ => None
  end.
Definition storedSummary (result : Value) : option ImportSummary :=
  match result with
  | VMap m => match m !! "summary" with
              | Some (VSummary sm) => Some sm
              | _ => None
              end
  | _ => None
  end.

(** Counting the items whose overall status satisfies a test. *)
Definition countOverall (p : string → bool) (l : list AppImportStatus) : Z :=
  Z.of_nat (length (filter (fun a => p (OverallStatus a) = true) l)).

(** The task types for which the import-status query answers. *)
Definition importStatusType (task : MigrationTask) : Prop :=
  task_Type task = TaskTypeImport ∨ task_Type task = TaskTypeOnline
  ∨ task_Type task = TaskTypeOfflineImport.

(** The observers of a task in the hub, and the hub's invariant: every
    registered observer is an allocated client of that task whose queue is
    open. *)
Definition observers (taskID : string) (m : Manager) : gset ClientRef :=
  default ∅ (Clients m !! taskID).

Definition hubInvariant (m : Manager) : Prop :=
  ∀ taskID c, c ∈ observers taskID m →
    ∃ cl, heap m !! c = Some cl ∧ TaskID cl = taskID ∧ closed (Send cl) = false.

(** Whether the queue of a client has room for one more message, and the
    client after a delivery attempt. *)
Definition hasRoom (cl : Client) : bool :=
  bool_decide (length (buf (Send cl)) < sendCapacity)%nat.

Definition enqueued (msg : WSMessage) (cl : Client) : Client :=
  mkClient (mkChan (buf (Send cl) ++ [msg]) false) (TaskID cl).

Definition dropped (cl : Client) : Client :=
  mkClient (mkChan (buf (Send cl)) true) (TaskID cl).

(** A stored result is consistent when the summary it carries is the one
    computed from the item list it carries. *)
Definition summaryConsistent (result : Value) : Prop :=
  ∀ l, storedApps result = Some l →
       storedSummary result = Some (calculateImportSummary l).

(** The calls [ExecuteStep] and [ExecuteStepWithProgress] make around the
    closure. *)
Definition stepStartCalls (taskID step : string) : list Call :=
  [CallSendStepStart taskID step "Step started";
   CallAddTaskLog taskID LogLevelInfo ("Step started: " +:+ step)].
Definition stepErrorCalls (taskID step e : string) : list Call :=
  [CallSendStepError taskID step "Step failed" e;
   CallAddTaskLog taskID LogLevelError ("Step failed: " +:+ step +:+ " - " +:+ e)].
Definition stepCompleteCalls (taskID step : string) : list Call :=
  [CallSendStepComplete taskID step "Step completed";
   CallAddTaskLog taskID LogLevelInfo ("Step completed: " +:+ step)].

(** Calls that write no status, publish no step event and write only
    consistent results: what the effects of a step closure amount to. *)
Definition quiet (taskID : string) (cs : list Call) : Prop :=
  statusWrites taskID cs = [] ∧ stepEvents cs = [] ∧ startedSteps cs = [] ∧
  Forall summaryConsistent (resultWrites taskID cs).

(** The postcondition of a worker run from a frame. *)
Definition wp {A} (w : Worker A) (fr : Frame)
    (Q : list Call → Frame → Res A → Prop) : Prop :=
  Q (w fr).1.1 (w fr).1.2 (w fr).2.

(** The calls of the deferred function of a worker. *)
Definition deferredCalls (taskID panicPrefix criticalText completedText : string)
    (save : bool) (recovered : option string) (fr : Frame) : list Call :=
  match recovered with
  | Some v => [CallUpdateTaskStatus taskID TaskStatusFailed;
               CallAddTaskLog taskID LogLevelError (panicPrefix +:+ v)]
  | None =>
      if hasCriticalError fr
      then [CallUpdateTaskStatus taskID TaskStatusFailed;
            CallAddTaskLog taskID LogLevelError criticalText]
      else [CallUpdateTaskStatus taskID TaskStatusCompleted;
            CallAddTaskLog taskID LogLevelInfo completedText]
  end
  ++ (if save then saveAppImportStatuses taskID (appStatuses (vars fr)) else []).

Definition recoveredPanic {A} (r : Res A) : option string :=
  match r with Panicked v => Some v | _ => None end.

(** The text of the warning logged when a non-critical step returns the
    error [e]. *)
Definition warningText (step e : string) : string :=
  if String.eqb step "Scan app configuration" then
    "Failed to scan app configuration: " +:+ e +:+ ", continuing with next steps"
  else if String.eqb step "Merge AppData directory" then
    "Failed to merge AppData directory: " +:+ e +:+ ", continuing with next steps"
  else if String.eqb step "Import application configuration" then
    "Failed to import application configuration: " +:+ e
    +:+ ", continuing with next steps"
  else "Cleanup local temporary files failed: " +:+ e.

(** The classification the specification gives to the steps of each
    flow, in the order of the pipeline: [true] marks a critical step
    (connectivity checks, initial bulk data acquisition or parsing),
    [false] a non-critical one (scan, per-item processing, cleanup). *)
Definition itemStepNames : list string :=
  ["Scan app configuration"; "Merge AppData directory";
   "Import application configuration"; "Cleanup local temporary files"].

Definition onlinePipeline : list (string * bool) :=
  [("Test source system connection", true);
   ("Test target system connection", true);
   ("Download and process source data", true);
   ("Scan app configuration", false);
   ("Merge AppData directory", false);
   ("Import application configuration", false);
   ("Cleanup local temporary files", false)].

Definition exportPipeline : list (string * bool) :=
  [("Test source system connection", true);
   ("Export system data", true)].

Definition importPipeline : list (string * bool) :=
  [("Test target system connection", true);
   ("Parse import file", true);
   ("Scan app configuration", false);
   ("Merge AppData directory", false);
   ("Import application configuration", false);
   ("Cleanup local temporary files", false)].

(** The position and the classification of a step in a pipeline. *)
Fixpoint stepIndex (pipeline : list (string * bool)) (step : string)
  : option (nat * bool) :=
  match pipeline with
  | [] => None
  | (name, crit) :: rest =>
      if String.eqb name step then Some (0%nat, crit)
      else (fun ic => (S ic.1, ic.2)) <$> stepIndex rest step
  end.

(** A critical step of the pipeline returned an error during the run. *)
Definition criticalFailure (pipeline : list (string * bool)) (cs : list Call)
  : Prop :=
  ∃ step e, (step, true) ∈ pipeline ∧ StepError step e ∈ stepEvents cs.

(** The failure policy of a pipeline, read on the run of a worker body
    that made the calls [cs] and ended with [r] in frame [fr]: an error of
    a critical step ends the run there, by the early return that sets the
    failure flag; an error of a non-critical step is logged as a warning
    and, unless the run is cut short by a panic, every step of the
    pipeline is started and the flag stays unset. *)
Definition stepPolicy (pipeline : list (string * bool)) (taskID : string)
    (cs : list Call) (fr : Frame) (r : Res unit) : Prop :=
  ∀ i step crit e,
    pipeline !! i = Some (step, crit) →
    StepError step e ∈ stepEvents cs →
    if crit : bool then
      startedSteps cs = (take (S i) pipeline).*1 ∧
      hasCriticalError fr = true ∧ r = Returned
    else
      CallAddTaskLog taskID LogLevelWarning (warningText step e) ∈ cs ∧
      ((∀ v, r ≠ Panicked v) →
       startedSteps cs = pipeline.*1 ∧ hasCriticalError fr = false ∧
       r = Normal tt).

(** What holds of the run of a worker body. *)
Definition bodyPost (pipeline : list (string * bool)) (taskID : string)
    (cs : list Call) (fr : Frame) (r : Res unit) : Prop :=
  statusWrites taskID cs = [] ∧
  Forall summaryConsistent (resultWrites taskID cs) ∧
  (hasCriticalError fr = true ↔ criticalFailure pipeline cs) ∧
  stepPolicy pipeline taskID cs fr r.

(** What holds of the run of a sequence of non-critical steps [names]
    from frame [fr0]. *)
Definition stagePost (taskID : string) (names : list string) (fr0 : Frame)
    (cs : list Call) (fr : Frame) (r : Res unit) : Prop :=
  statusWrites taskID cs = [] ∧
  Forall summaryConsistent (resultWrites taskID cs) ∧
  hasCriticalError fr = hasCriticalError fr0 ∧
  r ≠ Returned ∧
  (r = Normal tt → startedSteps cs = names) ∧
  (∀ step e, StepError step e ∈ stepEvents cs →
     step ∈ names ∧
     CallAddTaskLog taskID LogLevelWarning (warningText step e) ∈ cs).

(** The error branch of a non-critical step: the warning is logged, the
    failure flag is not touched, and the worker goes on unless the branch
    itself panics. *)
Definition warnsOnly (taskID step : string) (handler : string → Worker unit)
  : Prop :=
  ∀ e fr, ∃ fr' r,
    handler e fr
    = ([CallAddTaskLog taskID LogLevelWarning (warningText step e)], fr', r) ∧
    hasCriticalError fr' = hasCriticalError fr ∧ r ≠ Returned.

(** The terminal decision of a worker, read on its run from the initial
    frame against a task service [s]: the worker itself ends normally; the
    task ends "failed" exactly when a critical step returned an error or
    the body ended in a panic, which the deferred function recovers and
    logs, and "completed" otherwise; the failure flag is set exactly when
    a critical step returned an error. *)
Definition terminalDecision (taskID panicPrefix : string)
    (pipeline : list (string * bool)) (body worker : Worker unit)
    (s : TaskService) : Prop :=
  let rb := (body initFrame).2 in
  let cs := (worker initFrame).1.1 in
  let final := taskStatus taskID (applyCalls cs s) in
  let failure := criticalFailure pipeline cs ∨ ∃ v, rb = Panicked v in
  (worker initFrame).2 = Normal tt ∧
  (hasCriticalError (worker initFrame).1.2 = true ↔ criticalFailure pipeline cs) ∧
  (final = Some TaskStatusFailed ↔ failure) ∧
  (final = Some TaskStatusCompleted ↔ ¬ failure) ∧
  (∀ v, rb = Panicked v →
        CallAddTaskLog taskID LogLevelError (panicPrefix +:+ v) ∈ cs).

(** The failure policy of a worker, read on its run from the initial
    frame against a task service [s]: when a critical step returns an
    error no later step is started and the task ends "failed"; when a
    non-critical step returns an error the warning is logged and, unless
    a panic cuts the run short, every step of the pipeline is started and
    the task ends "completed". *)
Definition failurePolicy (taskID : string) (pipeline : list (string * bool))
    (body worker : Worker unit) (s : TaskService) : Prop :=
  let cs := (body initFrame).1.1 in
  let rb := (body initFrame).2 in
  let final := taskStatus taskID (applyCalls (worker initFrame).1.1 s) in
  ∀ i step crit e,
    pipeline !! i = Some (step, crit) →
    StepError step e ∈ stepEvents cs →
    if crit : bool then
      startedSteps cs = (take (S i) pipeline).*1 ∧
      final = Some TaskStatusFailed
    else
      CallAddTaskLog taskID LogLevelWarning (warningText step e) ∈ cs ∧
      ((∀ v, rb ≠ Panicked v) →
       startedSteps cs = pipeline.*1 ∧ final = Some TaskStatusCompleted).

(** The map [SetTaskResult] stores for a value. *)
Definition resultMap (result : Value) : gmap string Value :=
  match result with
  | VMap m => m
  | _ => {[ "data" := result ]}
  end.

(** Every result written by a worker that tracks items carries the summary
    recomputed from the list written with it, and the result the run
    leaves in the store is the worker's current item list with its
    summary, however the run ended. *)
Definition resultsRecomputed (taskID : string) (worker : Worker unit)
    (s : TaskService) : Prop :=
  let cs := (worker initFrame).1.1 in
  let fr := (worker initFrame).1.2 in
  Forall summaryConsistent (resultWrites taskID cs) ∧
  taskResult taskID (applyCalls cs s)
  = Some (Some (resultMap (importStatusResult (appStatuses (vars fr))))).

(** The statuses a worker writes are "running" and then one of
    "completed" and "failed", and a status written by anyone else before
    the worker's last status write does not change the status the run
    ends with. *)
Definition overwritesStatus (taskID : string) (worker : Worker unit)
    (s : TaskService) : Prop :=
  let cs := (worker initFrame).1.1 in
  (∃ terminal, terminal ∈ [TaskStatusCompleted; TaskStatusFailed] ∧
               statusWrites taskID cs = [TaskStatusRunning; terminal]) ∧
  ∀ before after status,
    cs = before ++ after → statusWrites taskID after ≠ [] →
    taskStatus taskID
      (applyCalls (before ++ CallUpdateTaskStatus taskID status :: after) s)
    = taskStatus taskID (applyCalls cs s).

End Observe.
Export Observe.

(* ===================================================================== *)
(** * Sample inputs *)
(* ===================================================================== *)

Module Samples.

Definition sampleOS : OS :=
  mkOS (fun parts => String.concat "/" parts) (fun p => p) (fun _ => true)
       (fun _ => 0).

(** A target that answers the connectivity check with [connected], an
    archive whose compose files are read as [compose], and an upload of
    AppData that ends as [upload]; every application found has an AppData
    directory, and every compose import succeeds. *)
Definition sampleEnv (connected : bool)
    (compose : External (ValueOrError (gmap string string)))
    (upload : External error) : ImportEnv :=
  mkImportEnv sampleOS
    (fun _ => ([], Ret (Ok (mkConnectionTestResponse connected "answer"))))
    (fun _ => ([], Ret None))
    (fun _ => ([], Ret (Ok "zip")))
    (fun _ _ => ([], Ret None))
    (fun _ _ => ([], Ret None))
    (fun _ => compose)
    map_to_list map_to_list
    (fun _ _ _ => upload)
    (fun _ appName _ =>
       ([EffAddTaskLog LogLevelInfo ("Start importing app: " +:+ appName)],
        Ret None)).

Definition oneApp : External (ValueOrError (gmap string string)) :=
  ([], Ret (Ok {[ "X" := "services: {}" ]})).

(** One application, "X": the upload of its AppData is refused, its
    compose import succeeds. *)
Definition envX : ImportEnv := sampleEnv true oneApp ([], Ret (Some "upload refused")).

(** As [envX], but the upload succeeds as well. *)
Definition envY : ImportEnv := sampleEnv true oneApp ([], Ret None).

(** The target cannot be reached. *)
Definition envOffline : ImportEnv := sampleEnv false oneApp ([], Ret None).

(** The archive has no apps directory. *)
Definition envNoApps : ImportEnv :=
  sampleEnv true ([], Ret (Err "apps directory does not exist")) ([], Ret None).

(** The upload runs into a runtime fault. *)
Definition envCrash : ImportEnv :=
  sampleEnv true oneApp ([], Fault "invalid memory address or nil pointer dereference").

Definition taskX : MigrationTask :=
  mkMigrationTask "t1" TaskTypeImport TaskStatusPending 0 None (Some 1%positive)
    {[ "import_file" := VString "backup.zip" ]} [] None.

Definition serviceX : TaskService :=
  mkTaskService (Storage.SaveTask taskX NewMemoryStore).2 [].

(** Closures that succeed at once, for the online and the export worker. *)
Definition onlineOK : OnlineSteps :=
  mkOnlineSteps (mret None) (mret None) (mret None) (mret None) (mret None)
                (mret None) (mret None).
Definition exportOK : ExportSteps := mkExportSteps (mret None) (mret None).

(** A task whose source and target connections carry credentials, and the
    memory holding the two connection records. *)
Definition sourceConn : SystemConnection :=
  mkSystemConnection "c1" "casa.local" 80 "admin" "secret" "tok-1" "casaos" true.
Definition targetConn : SystemConnection :=
  mkSystemConnection "c2" "zima.local" 80 "root" "hunter2" "tok-2" "zimaos" true.
Definition connHeap : gmap loc SystemConnection :=
  <[1%positive := sourceConn]> (<[2%positive := targetConn]> ∅).
Definition taskC : MigrationTask :=
  mkMigrationTask "t2" TaskTypeOnline TaskStatusCompleted 100
    (Some 1%positive) (Some 2%positive) ∅ [] None.
Definition serviceC : TaskService :=
  mkTaskService (Storage.SaveTask taskC NewMemoryStore).2 [].

(** A hub with two observers of task "t1": the queue of the first is
    empty, the queue of the second is full. *)
Definition eventX : WSMessage := logMessage "t1" LogLevelInfo "hello".
Definition fullQueue : Chan := mkChan (replicate sendCapacity eventX) false.
Definition hubX : Manager :=
  mkManager {[ "t1" := {[ 1%positive; 2%positive ]} ]}
            (<[1%positive := mkClient makeChan "t1"]>
               (<[2%positive := mkClient fullQueue "t1"]> ∅)).

(** The task of [serviceX] once its worker has started. *)
Definition taskR : MigrationTask := set_Status TaskStatusRunning taskX.
Definition serviceR : TaskService :=
  mkTaskService (Storage.SaveTask taskR NewMemoryStore).2 [].

End Samples.

(* ===================================================================== *)
(** * package storage: the other methods of MemoryStore *)
(* ===================================================================== *)

Module Store.

Definition ErrConnectionNotFound : string := "connection not found".
Definition ErrDownloadInstructionsNotFound : string :=
  "download instructions not found".

Definition set_connections (v : gmap string SystemConnection) (ms : MemoryStore) :=
  mkMemoryStore (tasks ms) v (logs ms) (downloadInstructions ms).
Definition set_downloadInstructions (v : gmap string DownloadInstructions)
    (ms : MemoryStore) :=
  mkMemoryStore (tasks ms) (connections ms) (logs ms) v.

(** [GetAllTasks]: the range over [ms.tasks] appends the tasks in the
    order of the visit, [order] being the keys as visited. *)
Definition GetAllTasks (order : list string) (ms : MemoryStore)
  : list MigrationTask * error :=
  (omap (fun taskID => tasks ms !! taskID) order, None).

Definition SaveConnection (conn : SystemConnection) (ms : MemoryStore)
  : error * MemoryStore :=
  (None, set_connections (<[conn_ID conn := conn]> (connections ms)) ms).

Definition GetConnection (connID : string) (ms : MemoryStore)
  : option SystemConnection * error :=
  match connections ms !! connID with
  | None => (None, Some ErrConnectionNotFound)
  | Some conn => (Some conn, None)
  end.

Definition GetAllConnections (order : list string) (ms : MemoryStore)
  : list SystemConnection * error :=
  (omap (fun connID => connections ms !! connID) order, None).

Definition DeleteConnection (connID : string) (ms : MemoryStore)
  : error * MemoryStore :=
  match connections ms !! connID with
  | None => (Some ErrConnectionNotFound, ms)
  | Some _ => (None, set_connections (delete connID (connections ms)) ms)
  end.

Definition ClearLogs (taskID : string) (ms : MemoryStore) : error * MemoryStore :=
  (None, set_logs (delete taskID (logs ms)) ms).

Definition SaveDownloadInstructions (taskID : string)
    (instructions : DownloadInstructions) (ms : MemoryStore)
  : error * MemoryStore :=
  (None, set_downloadInstructions
           (<[taskID := instructions]> (downloadInstructions ms)) ms).

Definition GetDownloadInstructions (taskID : string) (ms : MemoryStore)
  : option DownloadInstructions * error :=
  match downloadInstructions ms !! taskID with
  | None => (None, Some ErrDownloadInstructionsNotFound)
  | Some instructions => (Some instructions, None)
  end.

Definition DeleteDownloadInstructions (taskID : string) (ms : MemoryStore)
  : error * MemoryStore :=
  (None, set_downloadInstructions (delete taskID (downloadInstructions ms)) ms).

(** [GetStats]: [totalLogs] is the sum the range over [ms.logs] builds;
    an addition does not depend on the order of the visit. *)
Definition sumLogs (m : gmap string (list MigrationLog)) : Z :=
  map_fold (fun _ (l : list MigrationLog) total => total + Z.of_nat (length l)) 0 m.
Definition totalLogs (ms : MemoryStore) : Z := sumLogs (logs ms).

Definition GetStats (ms : MemoryStore) : gmap string Value :=
  {[ "tasks" := VInt (Z.of_nat (size (tasks ms)));
     "connections" := VInt (Z.of_nat (size (connections ms)));
     "total_logs" := VInt (totalLogs ms);
     "download_instructions" := VInt (Z.of_nat (size (downloadInstructions ms))) ]}.

End Store.

(* ===================================================================== *)
(** * package services: the other methods of TaskService *)
(* ===================================================================== *)

Module Tasks.

(** [CreateTask]; [id] is the string [uuid.New().String()] returns. *)
Definition CreateTask (id taskType : string) (source target : option loc)
    (options : gmap string Value) (s : TaskService)
  : MigrationTask * TaskService :=
  let task := mkMigrationTask id taskType TaskStatusPending 0 source target
                              options [] None in
  (task, mkTaskService (Storage.SaveTask task (store s)).2 (Broadcast s)).

(** [ListTasks]; [GetAllTasks] returns no error. *)
Definition ListTasks (order : list string) (s : TaskService) : list MigrationTask :=
  match Store.GetAllTasks order (store s) with
  | (_, Some _) => []
  | (allTasks, None) => allTasks
  end.

Definition GetTaskLogs (taskID : string) (s : TaskService)
  : list MigrationLog * error :=
  Storage.GetLogs taskID (store s).

Definition GetStats (s : TaskService) : gmap string Value :=
  Store.GetStats (store s).

End Tasks.

(* ===================================================================== *)
(** * package websocket: the loop of Manager.Run *)
(* ===================================================================== *)

Module Hub.

(** [HandleWebSocket] makes the client it hands to the [Register] channel:
    [&Client{Conn: conn, Send: make(chan models.WSMessage, 256), TaskID: taskID}]. *)
Definition newClient (taskID : string) : Client := mkClient makeChan taskID.

(** [message, ok := <-client.Send] in [writePump]: the oldest queued
    message, if there is one.  On an empty queue the receive blocks while
    the channel is open and yields [ok = false] once it is closed; either
    way the channel is left as it is. *)
Definition receive (ch : Chan) : option WSMessage * Chan :=
  match buf ch with
  | message :: rest => (Some message, mkChan rest (closed ch))
  | [] => (None, ch)
  end.

(** What the goroutines around the hub do to it, one at a time: the three
    cases of the [select] in [Run], each handled to its end before the
    next, and the receives of the clients' [writePump]s.  [EvBroadcast]
    carries the order in which its range loop visits the observers. *)
Inductive Event :=
| EvRegister (c : ClientRef) (cl : Client)
| EvUnregister (c : ClientRef)
| EvBroadcast (message : BroadcastMessage) (order : list ClientRef)
| EvReceive (c : ClientRef).

(** One event; [None] is a runtime panic (a send on a closed channel, or
    closing a channel twice). *)
Definition step (ev : Event) (m : Manager) : option Manager :=
  match ev with
  | EvRegister c cl => Some (register c cl m)
  | EvUnregister c => unregister c m
  | EvBroadcast message order => broadcastIn order message m
  | EvReceive c =>
      match heap m !! c with
      | None => Some m
      | Some cl =>
          Some (mkManager (Clients m)
                  (<[c := mkClient (receive (Send cl)).2 (TaskID cl)]> (heap m)))
      end
  end.

Fixpoint run (evs : list Event) (m : Manager) : option Manager :=
  match evs with
  | [] => Some m
  | ev :: rest => m' ← step ev m; run rest m'
  end.

(** The messages the [writePump] of client [c] takes out of its queue
    during the events [evs], oldest first. *)
Definition taken (c : ClientRef) (ev : Event) (m : Manager) : list WSMessage :=
  match ev with
  | EvReceive c' =>
      if decide (c' = c)
      then match heap m !! c with
           | Some cl => option_list (receive (Send cl)).1
           | None => []
           end
      else []
  | _ => []
  end.

Fixpoint takenAll (c : ClientRef) (evs : list Event) (m : Manager)
  : list WSMessage :=
  match evs with
  | [] => []
  | ev :: rest =>
      taken c ev m ++
      match step ev m with
      | Some m' => takenAll c rest m'
      | None => []
      end
  end.

(** The messages handed to the [Broadcast] channel for task [taskID]. *)
Definition broadcastTo (taskID : string) (ev : Event) : list WSMessage :=
  match ev with
  | EvBroadcast message _ =>
      if decide (bm_TaskID message = taskID) then [bm_Message message] else []
  | _ => []
  end.

(** The events are those the code can produce: a registered client is a new
    one, made by [HandleWebSocket], and the range loop of a broadcast
    visits each observer of the task once. *)
Definition enabled (ev : Event) (m : Manager) : Prop :=
  match ev with
  | EvRegister c cl => heap m !! c = None ∧ cl = newClient (TaskID cl)
  | EvBroadcast message order =>
      NoDup order ∧ ∀ c, c ∈ order ↔ c ∈ observers (bm_TaskID message) m
  | _ => True
  end.

Fixpoint admissible (evs : list Event) (m : Manager) : Prop :=
  match evs with
  | [] => True
  | ev :: rest =>
      enabled ev m ∧ ∀ m', step ev m = Some m' → admissible rest m'
  end.

End Hub.

(* ===================================================================== *)
(** * package handlers: task list, task logs, upload checks *)
(* ===================================================================== *)

Module Api.
Import Stdlib.Strings.Ascii.

(** The answer written by [c.JSON]: status code and [APIResponse], with
    the payload of the handler at hand. *)
Record Answer (D : Type) := mkAnswer {
  code : Z;
  success : bool;
  message : string;
  data : option D
}.
Arguments mkAnswer {D} code success message data.
Arguments code {D} a.
Arguments success {D} a.
Arguments message {D} a.
Arguments data {D} a.

(** Go's [int] on the platforms the image is built for: 64 bits, two's
    complement. *)
Definition minInt : Z := - 2 ^ 63.
Definition maxInt : Z := 2 ^ 63 - 1.
Definition wrap (z : Z) : Z := (z + 2 ^ 63) `mod` 2 ^ 64 - 2 ^ 63.

(** [strconv.Atoi]: an optional sign followed by one or more decimal
    digits, denoting a number in the range of [int]; anything else is an
    error, of which the callers here only test the presence. *)
Definition digitOf (a : Ascii.ascii) : option Z :=
  let n := Z.of_N (Ascii.N_of_ascii a) in
  if (48 <=? n) && (n <=? 57) then Some (n - 48) else None.

Fixpoint digits (s : string) (acc : Z) : option Z :=
  match s with
  | EmptyString => Some acc
  | String a rest => d ← digitOf a; digits rest (10 * acc + d)
  end.

Definition Atoi (s : string) : option Z :=
  let '(neg, ds) :=
    match s with
    | String "-"%char rest => (true, rest)
    | String "+"%char rest => (false, rest)
    | _ => (false, s)
    end in
  if String.eqb ds "" then None
  else
    n ← digits ds 0;
    let n := if neg : bool then - n else n in
    if (minInt <=? n) && (n <=? maxInt) then Some n else None.

(** [c.DefaultQuery] and [c.Query] on the query string of the request. *)
Definition DefaultQuery (query : gmap string string) (key defaultValue : string)
  : string :=
  default defaultValue (query !! key).
Definition Query (query : gmap string string) (key : string) : string :=
  default "" (query !! key).

(** [s[low:high]]; [None] is the panic of a slice expression out of range.
    The bound checked is the length, where Go checks the capacity. *)
Definition slice {A} (s : list A) (low high : Z) : option (list A) :=
  if (0 <=? low) && (low <=? high) && (high <=? Z.of_nat (length s))
  then Some (take (Z.to_nat (high - low)) (drop (Z.to_nat low) s))
  else None.

(** The body of the filter loop of [ListTasks]: whether the task is kept. *)
Definition kept (status taskType : string) (task : MigrationTask) : bool :=
  negb (negb (String.eqb status "") && negb (String.eqb (Status task) status))
  && negb (negb (String.eqb taskType "") && negb (String.eqb (task_Type task) taskType)).

Record TaskList := mkTaskList {
  tl_tasks : list MigrationTask;
  tl_total : Z;
  tl_limit : Z;
  tl_offset : Z
}.

(** [ListTasks]: [query] is the query string, [order] the order in which
    [GetAllTasks] visits the store. *)
Definition ListTasks (query : gmap string string) (order : list string)
    (s : TaskService) : option (Answer TaskList) :=
  let limitStr := DefaultQuery query "limit" "10" in
  let offsetStr := DefaultQuery query "offset" "0" in
  let status := Query query "status" in
  let taskType := Query query "type" in
  let limit :=
    match Atoi limitStr with
    | Some limit => if limit <=? 0 then 10 else limit
    | None => 10
    end in
  let limit := if 100 <? limit then 100 else limit in
  let offset :=
    match Atoi offsetStr with
    | Some offset => if offset <? 0 then 0 else offset
    | None => 0
    end in
  let allTasks := Tasks.ListTasks order s in
  let filteredTasks := List.filter (kept status taskType) allTasks in
  let total := Z.of_nat (length filteredTasks) in
  let start := offset in
  let end_ := wrap (offset + limit) in
  let start := if total <? start then total else start in
  let end_ := if total <? end_ then total else end_ in
  pagedTasks ← (if start <? end_ then slice filteredTasks start end_ else Some []);
  Some (mkAnswer 200 true "Task list retrieved"
          (Some (mkTaskList pagedTasks total limit offset))).

(** [GetTaskLogs]. *)
Definition GetTaskLogs (taskID : string) (s : TaskService)
  : Answer (list MigrationLog) :=
  if String.eqb taskID "" then mkAnswer 400 false "Task ID is required" None
  else
  match Services.GetTask taskID s with
  | (_, Some _) => mkAnswer 404 false "Task not found" None
  | (_, None) =>
      match Tasks.GetTaskLogs taskID s with
      | (_, Some err) =>
          mkAnswer 500 false ("Failed to get task logs: " +:+ err) None
      | (logs, None) => mkAnswer 200 true "Task logs retrieved" (Some logs)
      end
  end.

(** What the first [file.Read] into a buffer of ten bytes gives: an error
    ([io.EOF] on an empty file) or the bytes read, [buf[:n]]. *)
Inductive Header :=
| ReadFails (err : string)
| ReadOK (bytes : list Byte.byte).

(** [buf[i]] of the buffer [make([]byte, 10)] after the read. *)
Definition bufAt (bytes : list Byte.byte) (i : nat) : Byte.byte :=
  default Byte.x00 (bytes !! i).

(** [detectFileFormat] of package handlers; [open] is the error of
    [os.Open]. *)
Definition detectFileFormat (open : error) (header : Header) : string * error :=
  match open with
  | Some err => ("", Some ("Failed to open file: " +:+ err))
  | None =>
  match header with
  | ReadFails err => ("", Some ("Failed to read file header: " +:+ err))
  | ReadOK bytes =>
      let n := length bytes in
      if bool_decide (2 ≤ n)%nat && Byte.eqb (bufAt bytes 0) Byte.x50
         && Byte.eqb (bufAt bytes 1) Byte.x4b
      then ("zip", None)
      else if bool_decide (2 ≤ n)%nat && Byte.eqb (bufAt bytes 0) Byte.x1f
              && Byte.eqb (bufAt bytes 1) Byte.x8b
      then ("gzip", None)
      else ("unknown", None)
  end end.

(** The verb [%02X] applied to a byte. *)
Definition hexDigit (d : N) : string :=
  String.substring (N.to_nat d) 1 "0123456789ABCDEF".
Definition hex2 (b : Byte.byte) : string :=
  let n := Byte.to_N b in
  hexDigit (n / 16)%N +:+ hexDigit (n `mod` 16)%N.

(** How [gzReader.Read] ends. *)
Inductive ReadEnd := ReadNil | ReadEOF | ReadError (err : string).

(** What [validateGzipFile] gets from the file system and from the gzip
    reader. *)
Record GzipFile := mkGzipFile {
  gz_open : error;                   (* [os.Open(filePath)] *)
  gz_stat : ValueOrError Z;          (* [file.Stat()], the size *)
  gz_header : Header;                (* [file.Read(buf)] *)
  gz_seek : error;                   (* [file.Seek(0, 0)] *)
  gz_newReader : error;              (* [gzip.NewReader(file)] *)
  gz_read : ReadEnd                  (* [gzReader.Read(testBuf)] *)
}.

(** [validateGzipFile]. *)
Definition validateGzipFile (f : GzipFile) : error :=
  match gz_open f with
  | Some err => Some ("Failed to open file: " +:+ err)
  | None =>
  match gz_stat f with
  | Err err => Some ("Failed to get file info: " +:+ err)
  | Ok size =>
  if size <? 10 then Some "File too small, not a valid gzip file"
  else
  match gz_header f with
  | ReadFails err => Some ("Failed to read file header: " +:+ err)
  | ReadOK bytes =>
  let n := length bytes in
  if bool_decide (n < 2)%nat || negb (Byte.eqb (bufAt bytes 0) Byte.x1f)
     || negb (Byte.eqb (bufAt bytes 1) Byte.x8b)
  then Some ("Incorrect magic number: " +:+ hex2 (bufAt bytes 0) +:+ " "
             +:+ hex2 (bufAt bytes 1) +:+ ", expected: 1F 8B")
  else
  match gz_seek f with
  | Some err => Some ("Failed to reset file pointer: " +:+ err)
  | None =>
  match gz_newReader f with
  | Some err => Some ("Failed to create gzip reader: " +:+ err)
  | None =>
  match gz_read f with
  | ReadError err => Some ("Failed to read gzip content: " +:+ err)
  | _ => None
  end end end end end end.

End Api.

(* ===================================================================== *)
(** * package services: format detection of the import file *)
(* ===================================================================== *)

Module Files.

(** [MigrationService.detectFileFormat]: as the one of package handlers,
    but an unrecognised header is an error that quotes the magic bytes. *)
Definition detectFileFormat (open : error) (header : Api.Header) : string * error :=
  match open with
  | Some err => ("", Some ("Failed to open file: " +:+ err))
  | None =>
  match header with
  | Api.ReadFails err => ("", Some ("Failed to read file header: " +:+ err))
  | Api.ReadOK bytes =>
      let n := length bytes in
      if bool_decide (2 ≤ n)%nat && Byte.eqb (Api.bufAt bytes 0) Byte.x50
         && Byte.eqb (Api.bufAt bytes 1) Byte.x4b
      then ("zip", None)
      else if bool_decide (2 ≤ n)%nat && Byte.eqb (Api.bufAt bytes 0) Byte.x1f
              && Byte.eqb (Api.bufAt bytes 1) Byte.x8b
      then ("gzip", None)
      else
        let magicStr :=
          if bool_decide (2 ≤ n)%nat
          then Api.hex2 (Api.bufAt bytes 0) +:+ " " +:+ Api.hex2 (Api.bufAt bytes 1)
          else if bool_decide (1 ≤ n)%nat then Api.hex2 (Api.bufAt bytes 0)
          else "" in
        ("unknown",
         Some ("Unsupported file format. Detected magic bytes: " +:+ magicStr
               +:+ " (Supported: ZIP magic 50 4B, GZIP magic 1F 8B)"))
  end end.

End Files.

(* ===================================================================== *)
(** * package services: ConnectionService *)
(* ===================================================================== *)

Module Connection.

(** What [json.Unmarshal] puts into a [map[string]interface{}].  A number
    is a [float64]; a finite one is [mantissa * 2 ^ exponent]. *)
Inductive JSON :=
| JNull
| JBool (b : bool)
| JNumber (mantissa exponent : Z)
| JString (s : string)
| JArray (l : list JSON)
| JObject (m : gmap string JSON).

(** [f == 200] on a [float64]. *)
Definition is200 (mantissa exponent : Z) : bool :=
  if 0 <=? exponent then mantissa * 2 ^ exponent =? 200
  else mantissa =? 200 * 2 ^ (- exponent).

(** The login exchange with the remote system, as far as the code looks at
    it: the first call that fails, or the status code, the body, and what
    [json.Unmarshal] makes of the body. *)
Inductive Login :=
| MarshalFails (err : string)
| NewRequestFails (err : string)
| DoFails (err : string)
| ReadAllFails (err : string)
| Answered (statusCode : Z) (body : string)
           (loginResponse : ValueOrError (gmap string JSON)).

(** [models.ConnectionTestResponse]. *)
Record TestResponse := mkTestResponse {
  tr_Success : bool;
  tr_Message : string;
  tr_SystemInfo : option (gmap string Value)
}.

Definition set_Token (v : string) (c : SystemConnection) : SystemConnection :=
  mkSystemConnection (conn_ID c) (Host c) (Port c) (Username c) (Password c) v
                     (conn_Type c) (Verified c).
Definition set_ID (v : string) (c : SystemConnection) : SystemConnection :=
  mkSystemConnection v (Host c) (Port c) (Username c) (Password c) (Token c)
                     (conn_Type c) (Verified c).

(** [testCasaOSConnection] and [testZimaOSConnection]: the two functions
    differ only in the name of the system in their texts, [system] here.
    The connection is returned as the function leaves it. *)
Definition testLogin (system : string) (login : Login) (conn : SystemConnection)
  : TestResponse * error * SystemConnection :=
  let failed message := (mkTestResponse false message None, None, conn) in
  match login with
  | MarshalFails err => failed ("Failed to build login payload: " +:+ err)
  | NewRequestFails err => failed ("Failed to create login request: " +:+ err)
  | DoFails err => failed (system +:+ " login connection failed: " +:+ err)
  | ReadAllFails err =>
      failed ("Failed to read " +:+ system +:+ " login response: " +:+ err)
  | Answered statusCode body parsed =>
  if negb (statusCode =? 200) then
    failed (system +:+ " login failed, status code: " +:+ pretty statusCode
            +:+ ", response: " +:+ body)
  else
  match parsed with
  | Err err => failed ("Failed to parse " +:+ system +:+ " login response: " +:+ err)
  | Ok loginResponse =>
  let isSuccess :=
    match loginResponse !! "success" with
    | Some (JBool success) => success
    | Some (JNumber mantissa exponent) => is200 mantissa exponent
    | _ => false
    end in
  if negb isSuccess then
    let message :=
      match loginResponse !! "message" with
      | Some (JString msg) =>
          if negb (String.eqb msg "") && negb (String.eqb msg "ok")
          then system +:+ " login failed: " +:+ msg
          else system +:+ " login failed: invalid username or password"
      | _ => system +:+ " login failed: invalid username or password"
      end in
    failed message
  else
  let token :=
    match loginResponse !! "data" with
    | Some (JObject data) =>
        match data !! "token" with
        | Some (JObject tokenData) =>
            match tokenData !! "access_token" with
            | Some (JString accessToken) => accessToken
            | _ => ""
            end
        | _ => ""
        end
    | _ => ""
    end in
  (mkTestResponse true (system +:+ " login successful")
     (Some {[ "type" := VString system; "host" := VString (Host conn);
              "port" := VInt (Port conn); "username" := VString (Username conn);
              "token" := VString token ]}),
   None, set_Token token conn)
  end end.

Definition testCasaOSConnection := testLogin "CasaOS".
Definition testZimaOSConnection := testLogin "ZimaOS".

(** [TestConnection]; [uuid] is the string [uuid.New().String()] would
    return.  The connection is returned as the function leaves it, and the
    store is the one of the connection service. *)
Definition TestConnection (login : Login) (uuid : string)
    (conn : option SystemConnection) (ms : MemoryStore)
  : TestResponse * error * option SystemConnection * MemoryStore :=
  let refused message := (mkTestResponse false message None, None, conn, ms) in
  match conn with
  | None => refused "连接信息不能为空"
  | Some c =>
  if String.eqb (Host c) "" then refused "主机地址不能为空"
  else if (Port c <=? 0) || (65535 <? Port c) then refused "端口号必须在1-65535之间"
  else if String.eqb (Username c) "" then refused "用户名不能为空"
  else if String.eqb (Password c) "" then refused "密码不能为空"
  else
  let tested test :=
    let '(response, err, c1) := test login c in
    match err with
    | None =>
        if tr_Success response then
          let c2 := if String.eqb (conn_ID c1) "" then set_ID uuid c1 else c1 in
          (response, err, Some c2, (Store.SaveConnection c2 ms).2)
        else (response, err, Some c1, ms)
    | Some _ => (response, err, Some c1, ms)
    end in
  if String.eqb (conn_Type c) "casaos" then tested testCasaOSConnection
  else if String.eqb (conn_Type c) "zimaos" then tested testZimaOSConnection
  else refused ("不支持的系统类型: " +:+ conn_Type c)
  end.

End Connection.

(* ===================================================================== *)
(** * Further observations *)
(* ===================================================================== *)

Module Views.

(** The store after adding the log entries [new] for [taskID] one by one. *)
Definition addLogs (taskID : string) (new : list MigrationLog) (ms : MemoryStore)
  : MemoryStore :=
  fold_left (fun ms log => (Storage.AddLog taskID log ms).2) new ms.

(** The string a message carries under [key]. *)
Fixpoint dataString (key : string) (data : list (string * WSValue)) : option string :=
  match data with
  | [] => None
  | (k, v) :: rest =>
      if String.eqb k key
      then match v with WSString s => Some s | _ => None end
      else dataString key rest
  end.

(** The log entries published to the observers of [taskID]: what the
    "task_log" messages handed to the hub for the task carry. *)
Definition publishedLog (taskID : string) (b : BroadcastMessage)
  : option MigrationLog :=
  if String.eqb (bm_TaskID b) taskID
     && String.eqb (ws_Type (bm_Message b)) "task_log"
  then
    level ← dataString "level" (ws_Data (bm_Message b));
    message ← dataString "message" (ws_Data (bm_Message b));
    Some (mkMigrationLog level message)
  else None.

Definition publishedLogs (taskID : string) (s : TaskService) : list MigrationLog :=
  omap (publishedLog taskID) (Broadcast s).

Definition storedLogs (taskID : string) (s : TaskService) : list MigrationLog :=
  (Storage.GetLogs taskID (store s)).1.

(** The log entries the calls [cs] write for [taskID], in order. *)
Definition logged (taskID : string) (c : Call) : option MigrationLog :=
  match c with
  | CallAddTaskLog id level message =>
      if String.eqb id taskID then Some (mkMigrationLog level message) else None
  | _ => None
  end.
Definition loggedBy (taskID : string) (cs : list Call) : list MigrationLog :=
  omap (logged taskID) cs.

(** The two maps of the status cache have the same keys. *)
Definition cacheAligned (h : Handler) : Prop :=
  dom (importStatusCache h) = dom (cacheExpiry h).

(** The token a login response carries at [data.token.access_token]. *)
Definition accessToken (loginResponse : gmap string Connection.JSON) : string :=
  match loginResponse !! "data" with
  | Some (Connection.JObject data) =>
      match data !! "token" with
      | Some (Connection.JObject tokenData) =>
          match tokenData !! "access_token" with
          | Some (Connection.JString accessToken) => accessToken
          | _ => ""
          end
      | _ => ""
      end
  | _ => ""
  end.

(** The login answers that count as a success. *)
Definition accepted (login : Connection.Login)
    (loginResponse : gmap string Connection.JSON) : Prop :=
  (∃ body, login = Connection.Answered 200 body (Ok loginResponse)) ∧
  (loginResponse !! "success" = Some (Connection.JBool true) ∨
   ∃ mantissa exponent,
     loginResponse !! "success" = Some (Connection.JNumber mantissa exponent) ∧
     Connection.is200 mantissa exponent = true).

(** A closure keeps [R] when the variables it leaves are related to those
    it found, however it ends. *)
Definition keeps {E A} (R : Vars → Vars → Prop) (m : Closure E A) : Prop :=
  ∀ x, R x (m x).1.2.

(** What the merge step leaves alone: the item list keeps its length, and
    every item keeps its name, its AppData flag, its compose status, its
    overall status and its download link; the worker's [sourceData] is not
    touched. *)
Definition mergeKeeps (a a' : AppImportStatus) : Prop :=
  AppName a' = AppName a ∧ HasAppData a' = HasAppData a ∧
  ComposeStatus a' = ComposeStatus a ∧ OverallStatus a' = OverallStatus a ∧
  DownloadURL a' = DownloadURL a.

Definition mergeRel (x x' : Vars) : Prop :=
  Forall2 mergeKeeps (appStatuses x) (appStatuses x') ∧
  sourceData x' = sourceData x.

(** An item is decided when its overall status is the derived one and is
    "success" or "failed". *)
Definition decided (a : AppImportStatus) : Prop :=
  OverallStatus a = calculateOverallStatus a ∧
  OverallStatus a ∈ ["success"; "failed"].

(** The progress values the calls [cs] write to the task. *)
Definition progressWrite (taskID : string) (c : Call) : option Z :=
  match c with
  | CallUpdateTaskProgress id progress =>
      if String.eqb id taskID then Some progress else None
  | _ => None
  end.
Definition progressWrites (taskID : string) (cs : list Call) : list Z :=
  omap (progressWrite taskID) cs.

Definition taskProgress (taskID : string) (s : TaskService) : option Z :=
  Progress <$> tasks (store s) !! taskID.

(** How the body of a worker ends: normally, and then the last progress
    it wrote is 100; by an early return, and then the critical-failure
    flag is set; or by a panic. *)
Definition bodyEnds (taskID : string) (cs : list Call) (fr : Frame)
    (r : Res unit) : Prop :=
  match r with
  | Normal _ => last (progressWrites taskID cs) = Some 100
  | Returned => hasCriticalError fr = true
  | Panicked _ => True
  end.

(** What a step wrapper makes of the closure's outcome [out]: the step
    events it publishes, and how it ends. *)
Definition wrapped (taskID step : string) (out : Outcome error) (fr fr' : Frame)
    (cs : list Call) (r : Res error) : Prop :=
  statusWrites taskID cs = [] ∧
  hasCriticalError fr' = hasCriticalError fr ∧
  match out with
  | Ret None =>
      r = Normal None ∧ stepEvents cs = [StepStart step; StepComplete step]
  | Ret (Some e) =>
      r = Normal (Some e) ∧ stepEvents cs = [StepStart step; StepError step e]
  | Fault v => r = Panicked v ∧ stepEvents cs = [StepStart step]
  end.

End Views.

(* ===================================================================== *)
(** * Further concrete inputs *)
(* ===================================================================== *)

Module Cases.

(** The calls of the import worker on the archive of [Samples.envX]. *)
Definition importCalls : list Call :=
  (executeDataImport "t1" (importSteps Samples.envX Samples.taskX) initFrame).1.1.

(** A running import whose stored result lists one application. *)
Definition appX : AppImportStatus :=
  mkAppImportStatus "X" true "success" "pending" "pending" "" "".
Definition taskA : MigrationTask :=
  set_Result (Some {[ "apps" := VAppStatuses [appX] ]}) Samples.taskR.
Definition serviceA : TaskService :=
  mkTaskService (Storage.SaveTask taskA NewMemoryStore).2 [].

(** A third client joins the hub of [Samples.hubX]; a message for "t1"
    finds the queue of the second client full; the writer of the first
    client takes the message; the reader of the second client ends; a
    second message follows. *)
Definition eventY : WSMessage := logMessage "t1" LogLevelInfo "again".
Definition hubEvents : list Hub.Event :=
  [Hub.EvRegister 3%positive (Hub.newClient "t1");
   Hub.EvBroadcast (mkBroadcastMessage "t1" Samples.eventX)
                   [3%positive; 2%positive; 1%positive];
   Hub.EvReceive 1%positive;
   Hub.EvUnregister 2%positive;
   Hub.EvBroadcast (mkBroadcastMessage "t1" eventY) [1%positive; 3%positive]].
Definition hubAfter : Manager := default Samples.hubX (Hub.run hubEvents Samples.hubX).

(** The hub of [Samples.hubX] after one message for "t1". *)
Definition hubDropped : Manager :=
  default Samples.hubX
    (broadcastIn [2%positive; 1%positive]
       (mkBroadcastMessage "t1" Samples.eventX) Samples.hubX).

(** The variables of the import worker when its scan step starts, and
    after the scan, the merge and the compose step. *)
Definition varsParsed : Vars :=
  (importParse Samples.envX Samples.taskX initVars).1.2.
Definition varsScanned : Vars :=
  (importScan Samples.envX Samples.taskX varsParsed).1.2.
Definition varsMerged : Vars :=
  (importMerge Samples.envX Samples.taskX varsScanned).1.2.
Definition varsComposed : Vars :=
  (importCompose Samples.envX Samples.taskX varsMerged).1.2.

End Cases.

(* ===================================================================== *)
(** * package services: the download step of the online worker *)
(* ===================================================================== *)

Module Online.

(** A collaborator that is handed [progressCallback]: the progress it
    reports and the way it ends. *)
Definition Reporting (A : Type) : Type := list (Z * string) * Outcome A.

Definition reporting {A} (c : Reporting A) : Closure StepEffect A :=
  fun x => ((fun pm => EffProgress pm.1 pm.2) <$> c.1, x, c.2).

(** [downloadCasaOSFiles] and [extractDownloadedFiles] work on the network
    and on the file system and report through [progressCallback]. *)
Record OnlineEnv := mkOnlineEnv {
  downloadCasaOSFiles : option loc → Reporting (ValueOrError string);
  extractDownloadedFiles : string → Reporting (ValueOrError string)
}.

(** [getSystemApps], [getSystemSettings] and [getUserData] return fixed
    data and a [nil] error. *)
Definition getSystemApps (conn : option loc) : ValueOrError (list Value) :=
  Ok [VMap {[ "name" := VString "Nextcloud"; "version" := VString "25.0.0";
              "port" := VString "8080" ]};
      VMap {[ "name" := VString "Jellyfin"; "version" := VString "10.8.0";
              "port" := VString "8096" ]}].

Definition getSystemSettings (conn : option loc)
  : ValueOrError (gmap string Value) :=
  Ok {[ "timezone" := VString "Asia/Shanghai"; "language" := VString "zh-CN";
        "theme" := VString "dark" ]}.

Definition getUserData (conn : option loc) : ValueOrError (gmap string Value) :=
  Ok {[ "documents" := VString "/home/user/Documents";
        "downloads" := VString "/home/user/Downloads" ]}.

(** Step 3 of [executeOnlineMigration]: "Download and process source
    data".  The closure assigns [sourceData] right before it returns
    [nil]. *)
Definition onlineDownload (env : OnlineEnv) (task : MigrationTask)
  : Closure StepEffect error :=
  progressCallback 5 "Start download";;
  r ← reporting (downloadCasaOSFiles env (Source task));
  match r with
  | Err err => mret (Some ("Failed to download files: " +:+ err))
  | Ok downloadPath =>
  progressCallback 40 "Download succeeded";;
  progressCallback 45 "Extracting";;
  r ← reporting (extractDownloadedFiles env downloadPath);
  match r with
  | Err err => mret (Some ("Failed to extract files: " +:+ err))
  | Ok extractedPath =>
  progressCallback 60 "Extraction succeeded";;
  progressCallback 65 "Fetching app list";;
  match getSystemApps (Source task) with
  | Err err => mret (Some ("Failed to fetch app list: " +:+ err))
  | Ok apps =>
  progressCallback 75 "Fetching system settings";;
  match getSystemSettings (Source task) with
  | Err err => mret (Some ("Failed to fetch system settings: " +:+ err))
  | Ok settings =>
  progressCallback 85 "Fetching user data";;
  match getUserData (Source task) with
  | Err err => mret (Some ("Failed to fetch user data: " +:+ err))
  | Ok userData =>
  modifyVars (set_sourceData
    (Some {[ "apps" := VSlice apps; "settings" := VMap settings;
             "userData" := VMap userData; "downloadPath" := VString downloadPath;
             "extractedPath" := VString extractedPath ]}));;
  progressCallback 95 "Data acquisition completed";;
  mret None
  end end end end end.

(** The scan closure of the online worker is, line for line, the one of
    the import worker. *)
Definition onlineScan (env : ImportEnv) (task : MigrationTask)
  : Closure StepEffect error :=
  importScan env task.

End Online.

(* ===================================================================== *)
(** * The error policy of the workers, as observed *)
(* ===================================================================== *)

Module Policy.

(** The run ended inside a step: the last step event is the start of a
    step, which therefore neither completed nor returned an error.  Since
    [ExecuteStep] publishes one of the two whenever the closure returns,
    this is a run cut short by a runtime panic of the closure of a step. *)
Definition endsInStep (events : list StepEvent) : Prop :=
  ∃ step, last events = Some (StepStart step).

(** The step events a run of a pipeline can publish, with the way the run
    ends: a step that completes, or a non-critical step that returns an
    error, is followed by the rest of the pipeline; a critical step that
    returns an error ends the run by the early [return]; a step whose
    closure panics ends it by the panic. *)
Inductive pipelineTrace : list (string * bool) → Res unit → list StepEvent → Prop :=
| trace_end : pipelineTrace [] (Normal tt) []
| trace_complete step crit rest r events :
    pipelineTrace rest r events →
    pipelineTrace ((step, crit) :: rest) r
      (StepStart step :: StepComplete step :: events)
| trace_warn step rest r e events :
    pipelineTrace rest r events →
    pipelineTrace ((step, false) :: rest) r
      (StepStart step :: StepError step e :: events)
| trace_stop step rest e :
    pipelineTrace ((step, true) :: rest) Returned
      [StepStart step; StepError step e]
| trace_panic step crit rest v :
    pipelineTrace ((step, crit) :: rest) (Panicked v) [StepStart step].

(** The postcondition of a worker run that publishes a trace of
    [pipeline]. *)
Definition traced (pipeline : list (string * bool))
  : list Call → Frame → Res unit → Prop :=
  fun cs _ r => pipelineTrace pipeline r (stepEvents cs).

(** The steps from "Scan app configuration" on. *)
Definition itemPipeline : list (string * bool) :=
  [("Scan app configuration", false);
   ("Merge AppData directory", false);
   ("Import application configuration", false);
   ("Cleanup local temporary files", false)].

(** The step a start event names. *)
Definition startedBy (ev : StepEvent) : option string :=
  match ev with StepStart step => Some step | _ => None end.

(** The step an event is about. *)
Definition eventStep (ev : StepEvent) : string :=
  match ev with
  | StepStart step | StepComplete step | StepError step _ => step
  end.

(** No critical step follows a non-critical one. *)
Fixpoint criticalFirst (pipeline : list (string * bool)) : bool :=
  match pipeline with
  | [] => true
  | (_, true) :: rest => criticalFirst rest
  | (_, false) :: rest => forallb (fun p => negb p.2) rest
  end.

(** The error policy of a worker, read on its run from the initial frame
    against a task service [s].  When a critical step returns an error, no
    later step is started and the task ends "failed".  When a non-critical
    step returns an error, the warning naming it is logged and the step
    that follows it in the pipeline is started; the task ends "failed"
    exactly when the run is then cut short inside a later step, and
    "completed" otherwise, in which case every step of the pipeline was
    started. *)
Definition errorPolicy (taskID : string) (pipeline : list (string * bool))
    (worker : Worker unit) (s : TaskService) : Prop :=
  let cs := (worker initFrame).1.1 in
  let final := taskStatus taskID (applyCalls cs s) in
  ∀ i step crit e,
    pipeline !! i = Some (step, crit) →
    StepError step e ∈ stepEvents cs →
    if crit : bool then
      startedSteps cs = (take (S i) pipeline).*1 ∧
      final = Some TaskStatusFailed
    else
      CallAddTaskLog taskID LogLevelWarning (warningText step e) ∈ cs ∧
      startedSteps cs `prefix_of` pipeline.*1 ∧
      (∀ next, pipeline.*1 !! S i = Some next → next ∈ startedSteps cs) ∧
      (final = Some TaskStatusFailed ↔ endsInStep (stepEvents cs)) ∧
      (final = Some TaskStatusCompleted ↔ ¬ endsInStep (stepEvents cs)) ∧
      (¬ endsInStep (stepEvents cs) → startedSteps cs = pipeline.*1).

(** What the code of the online and of the import worker gives the scan
    step: the closure of the step before it (the download, the parsing)
    has assigned a map to [sourceData] when it returns no error, and the
    scan closure leaves a map there when it returns an error. *)
Definition assignsSourceData (acquire scan : Closure StepEffect error) : Prop :=
  (∀ x, (acquire x).2 = Ret None → is_Some (sourceData (acquire x).1.2)) ∧
  (∀ x e, is_Some (sourceData x) → (scan x).2 = Ret (Some e) →
          is_Some (sourceData (scan x).1.2)).

End Policy.

(* ===================================================================== *)
(** * package main: the routes *)
(* ===================================================================== *)

Module Router.

(** A segment of a route pattern: a literal, a parameter ([:id]) or a
    catch-all ([*filepath]). *)
Inductive Segment :=
| Lit (s : string)
| Param (name : string)
| CatchAll (name : string).

(** The handlers [main] registers. *)
Inductive Endpoint :=
| HealthCheck
| GetSystemInfo
| TestConnection
| StartOnlineMigration
| StartDataExport
| ExportDownload
| StartDataImport
| DataImportUpload
| TestWebSocket
| CreateTestTask
| ListTasks
| GetTaskStatus
| DeleteTask
| GetTaskLogs
| GetImportStatus
| DownloadAppPackage
| HandleWebSocket
| StaticDir
| StaticIndex.

(** The routes of [main], in the order of their registration; [r.Static]
    and [r.StaticFile] register their pattern for GET and for HEAD. *)
Definition routes : list (string * list Segment * Endpoint) :=
  [("GET", [Lit "health"], HealthCheck);
   ("GET", [Lit "info"], GetSystemInfo);
   ("POST", [Lit "api"; Lit "test-connection"], TestConnection);
   ("POST", [Lit "api"; Lit "online-migration"], StartOnlineMigration);
   ("POST", [Lit "api"; Lit "data-export"], StartDataExport);
   ("POST", [Lit "api"; Lit "export-download"], ExportDownload);
   ("POST", [Lit "api"; Lit "data-import"], StartDataImport);
   ("POST", [Lit "api"; Lit "data-import-upload"], DataImportUpload);
   ("POST", [Lit "api"; Lit "test-websocket"; Param "taskId"], TestWebSocket);
   ("POST", [Lit "api"; Lit "create-test-task"], CreateTestTask);
   ("GET", [Lit "api"; Lit "tasks"], ListTasks);
   ("GET", [Lit "api"; Lit "tasks"; Param "id"], GetTaskStatus);
   ("DELETE", [Lit "api"; Lit "tasks"; Param "id"], DeleteTask);
   ("GET", [Lit "api"; Lit "tasks"; Param "id"; Lit "logs"], GetTaskLogs);
   ("GET", [Lit "api"; Lit "tasks"; Param "id"; Lit "import-status"],
    GetImportStatus);
   ("GET", [Lit "api"; Lit "tasks"; Param "id"; Lit "download"; Param "appName"],
    DownloadAppPackage);
   ("GET", [Lit "ws"], HandleWebSocket);
   ("GET", [Lit "static"; CatchAll "filepath"], StaticDir);
   ("HEAD", [Lit "static"; CatchAll "filepath"], StaticDir);
   ("GET", [], StaticIndex);
   ("HEAD", [], StaticIndex)].

(** Whether a pattern matches a path, given as its segments: a literal
    matches itself, a parameter one non-empty segment, a catch-all the
    rest of the path. *)
Fixpoint matches (pattern : list Segment) (path : list string) : bool :=
  match pattern, path with
  | [], [] => true
  | Lit s :: pattern, segment :: path =>
      String.eqb s segment && matches pattern path
  | Param _ :: pattern, segment :: path =>
      negb (String.eqb segment "") && matches pattern path
  | CatchAll _ :: _, _ => true
  | _, _ => false
  end.

(** The handler the router finds for a request, if any. *)
Definition dispatch (method : string) (path : list string) : option Endpoint :=
  (fun route => route.2)
    <$> List.find (fun route => String.eqb route.1.1 method
                                && matches route.1.2 path) routes.

(** What serves a request: a registered handler or, when the router finds
    none, the [NoRoute] handler of [main], [c.File("./dist/index.html")],
    which sends the page of the frontend and calls no service. *)
Inductive Served :=
| ToHandler (endpoint : Endpoint)
| File (path : string).

Definition serve (method : string) (path : list string) : Served :=
  match dispatch method path with
  | Some endpoint => ToHandler endpoint
  | None => File "./dist/index.html"
  end.

End Router.

(* ===================================================================== *)
(** * Sample runs with failing steps *)
(* ===================================================================== *)

Module Failing.

(** An online migration "t3" whose download and extraction succeed. *)
Definition taskO : MigrationTask :=
  mkMigrationTask "t3" TaskTypeOnline TaskStatusPending 0
    (Some 1%positive) (Some 2%positive) ∅ [] None.
Definition serviceO : TaskService :=
  mkTaskService (Storage.SaveTask taskO NewMemoryStore).2 [].
Definition oenvX : Online.OnlineEnv :=
  Online.mkOnlineEnv
    (fun _ => ([(10, "Start downloading"); (20, "Downloading file");
                (35, "Download completed, file size: 0 bytes")],
               Ret (Ok "download/casaos_backup.zip")))
    (fun _ => ([(45, "Starting to extract file"); (50, "Extracting file");
                (60, "Extraction completed")],
               Ret (Ok "download/extracted"))).

(** The online worker on the download of [oenvX], with the scan closure
    of the code on an archive without an apps directory; the closures of
    the other steps succeed at once. *)
Definition onlineNoApps : OnlineSteps :=
  mkOnlineSteps (mret None) (mret None) (Online.onlineDownload oenvX taskO)
    (Online.onlineScan Samples.envNoApps taskO) (mret None) (mret None)
    (mret None).

(** An export whose source cannot be reached. *)
Definition exportOffline : ExportSteps :=
  mkExportSteps (mret (Some "Source connection failed: answer")) (mret None).

(** The error returned by the scan closure at [Samples.envNoApps]. *)
Definition scanError : string :=
  "Failed to read compose files: apps directory does not exist".

End Failing.

(* ===================================================================== *)
(** * Properties *)
(* ===================================================================== *)

(** ** The derived status of an item *)

Lemma eqb_success_iff (x : string) :
  String.eqb x AppStatusSuccess = true ↔ x = "success".
Proof. unfold AppStatusSuccess. apply String.eqb_eq. Qed.

(** C3.  The overall status of an item without AppData is its compose
    status; with AppData it is "success" exactly when both sub-statuses are
    "success", and "failed" for every other pair of sub-statuses. *)
Theorem calculateOverallStatus_rule (a : AppImportStatus) :
  (HasAppData a = false → calculateOverallStatus a = ComposeStatus a) ∧
  (HasAppData a = true →
     (calculateOverallStatus a = "success"
        ↔ AppDataStatus a = "success" ∧ ComposeStatus a = "success") ∧
     (¬ (AppDataStatus a = "success" ∧ ComposeStatus a = "success")
        → calculateOverallStatus a = "failed")).
Proof.
  unfold calculateOverallStatus.
  split; intros ->; [reflexivity|].
  destruct (String.eqb (AppDataStatus a) AppStatusSuccess) eqn:Hd;
    destruct (String.eqb (ComposeStatus a) AppStatusSuccess) eqn:Hc; simpl.
  - apply eqb_success_iff in Hd, Hc. intuition.
  - assert (ComposeStatus a ≠ "success")
      by (intros E; apply eqb_success_iff in E; congruence).
    unfold AppStatusFailed. intuition congruence.
  - assert (AppDataStatus a ≠ "success")
      by (intros E; apply eqb_success_iff in E; congruence).
    unfold AppStatusFailed. intuition congruence.
  - assert (AppDataStatus a ≠ "success")
      by (intros E; apply eqb_success_iff in E; congruence).
    unfold AppStatusFailed. intuition congruence.
Qed.

(** ** Deleting a task *)

Lemma store_delete_absent (taskID : string) (ms : MemoryStore) :
  tasks ms !! taskID = None →
  Storage.DeleteTask taskID ms = (Some ErrTaskNotFound, ms).
Proof. intros H. unfold Storage.DeleteTask. by rewrite H. Qed.

Lemma store_delete_removes (taskID : string) (ms ms' : MemoryStore) :
  Storage.DeleteTask taskID ms = (None, ms') →
  tasks ms' !! taskID = None ∧ logs ms' !! taskID = None.
Proof.
  unfold Storage.DeleteTask. destruct (tasks ms !! taskID); [|discriminate].
  intros [= <-]. simpl. split; apply lookup_delete_eq.
Qed.

(** C9, as the code has it.  Once a task has been deleted, deleting it
    again is answered with the error "task not found" by the store and with
    status 404 by the handler, and the second call leaves the task map,
    the log map and the rest of the task service as they were. *)
Theorem delete_twice_not_found (taskID : string) (s s' : TaskService)
    (r : HTTPResponse) :
  Handlers.DeleteTask taskID s = (r, s') →
  http_Status r = 200 →
  Storage.DeleteTask taskID (store s') = (Some ErrTaskNotFound, store s') ∧
  Handlers.DeleteTask taskID s'
    = (mkHTTPResponse 404 false ErrTaskNotFound DataNone, s').
Proof.
  unfold Handlers.DeleteTask, Services.GetTask, Services.DeleteTask, Storage.GetTask.
  destruct (String.eqb taskID "") eqn:Hid; [intros [= <- <-]; discriminate|].
  destruct (tasks (store s) !! taskID) as [task|] eqn:Ht;
    [|intros [= <- <-]; discriminate].
  destruct (String.eqb (Status task) TaskStatusRunning);
    [intros [= <- <-]; discriminate|].
  destruct (Storage.DeleteTask taskID (store s)) as [[err|] ms] eqn:Hd;
    intros [= <- <-]; [discriminate|]; intros _. simpl.
  destruct (store_delete_removes _ _ _ Hd) as [Hgone _].
  rewrite (store_delete_absent _ _ Hgone), Hgone. done.
Qed.

(** ** The single-task status query *)

Lemma scrubCopy_spec (p : option loc) (heap : gmap loc SystemConnection) :
  (∀ l, p = Some l → is_Some (heap !! l)) →
  let '(p', heap') := scrubCopy p heap in
  deref heap' p' = scrub <$> deref heap p ∧
  heap ⊆ heap' ∧
  (p = None → p' = None).
Proof.
  intros Halloc. unfold scrubCopy. destruct p as [l|]; simpl.
  - destruct (Halloc l eq_refl) as [c Hc]. rewrite Hc. simpl.
    pose proof (is_fresh (dom heap)) as Hfresh.
    apply not_elem_of_dom in Hfresh.
    rewrite lookup_insert_eq. split_and!; [done| |done].
    by apply insert_subseteq.
  - split_and!; done.
Qed.

(** C10.  The answer of the single-task status query carries, for the
    source and for the target connection, a copy of the stored record with
    the password and the token blanked; the task service and every
    connection record in memory, hence the stored task, are left as they
    were. *)
Theorem GetTaskStatus_scrubs (taskID : string) (s : TaskService)
    (heap : gmap loc SystemConnection) (task : MigrationTask) :
  taskID ≠ "" →
  tasks (store s) !! taskID = Some task →
  (∀ l, Source task = Some l ∨ Target task = Some l → is_Some (heap !! l)) →
  ∃ taskCopy heap',
    Handlers.GetTaskStatus taskID s heap
      = (mkHTTPResponse 200 true "Task status retrieved" (DataTask taskCopy),
         s, heap') ∧
    deref heap' (Source taskCopy) = scrub <$> deref heap (Source task) ∧
    deref heap' (Target taskCopy) = scrub <$> deref heap (Target task) ∧
    (∀ c, deref heap' (Source taskCopy) = Some c ∨
          deref heap' (Target taskCopy) = Some c →
          Password c = "" ∧ Token c = "") ∧
    (∀ l c, heap !! l = Some c → heap' !! l = Some c).
Proof.
  intros Hid Ht Halloc.
  unfold Handlers.GetTaskStatus, Services.GetTask, Storage.GetTask.
  apply String.eqb_neq in Hid. rewrite Hid, Ht.
  pose proof (scrubCopy_spec (Source task) heap) as H1.
  destruct (scrubCopy (Source task) heap) as [source' heap1].
  destruct H1 as (Hs & Hsub1 & Hnew1); [naive_solver|].
  pose proof (scrubCopy_spec (Target task) heap1) as H2. simpl.
  destruct (scrubCopy (Target task) heap1) as [target' heap2].
  destruct H2 as (Htg & Hsub2 & Hnew2).
  { intros l Hl. destruct (Halloc l (or_intror Hl)) as [c Hc].
    exists c. eapply lookup_weaken; eauto. }
  assert (Hsrc : deref heap2 source' = scrub <$> deref heap (Source task)).
  { rewrite <- Hs. destruct source' as [l|]; [|done]. simpl.
    destruct (heap1 !! l) as [c|] eqn:Hl.
    - eapply lookup_weaken; eauto.
    - destruct (Source task) as [l0|] eqn:Hsrc; [|by specialize (Hnew1 eq_refl)].
      simpl in Hs. destruct (Halloc l0 (or_introl eq_refl)) as [c Hc].
      rewrite Hl, Hc in Hs. discriminate. }
  assert (Htgt : deref heap2 target' = scrub <$> deref heap (Target task)).
  { rewrite Htg. destruct (Target task) as [l|]; [|done]. simpl.
    destruct (Halloc l (or_intror eq_refl)) as [c Hc].
    rewrite Hc. by rewrite (lookup_weaken _ _ _ _ Hc Hsub1). }
  eexists _, heap2. split; [reflexivity|]. simpl.
  split_and!; [done|done| |].
  - intros c [Hc|Hc]; rewrite ?Hsrc, ?Htgt in Hc;
      apply fmap_Some in Hc as (c0 & _ & ->); done.
  - intros l c Hl. eapply lookup_weaken; [|exact Hsub2].
    eapply lookup_weaken; eauto.
Qed.

(** ** The import-status cache *)

Lemma importStatusType_check (task : MigrationTask) :
  importStatusType task →
  negb (String.eqb (task_Type task) TaskTypeImport)
  && negb (String.eqb (task_Type task) TaskTypeOnline)
  && negb (String.eqb (task_Type task) TaskTypeOfflineImport) = false.
Proof. intros [-> | [-> | ->]]; reflexivity. Qed.

(** A cache entry that has not expired by [now] survives a sweep made at
    any time up to [now]. *)
Lemma clearExpiredCache_keeps (taskID : string) (v : ImportStatusResponse)
    (expiry now t : Time) (h : Handler) :
  importStatusCache h !! taskID = Some v →
  cacheExpiry h !! taskID = Some expiry →
  t ≤ now → now < expiry →
  importStatusCache (clearExpiredCache t h) !! taskID = Some v ∧
  cacheExpiry (clearExpiredCache t h) !! taskID = Some expiry.
Proof.
  intros Hv He Ht Hnow. unfold clearExpiredCache. simpl. split.
  - apply map_lookup_filter_Some. split; [done|]. simpl.
    apply map_lookup_filter_None. right. intros e. rewrite He. intros [= <-].
    simpl. lia.
  - apply map_lookup_filter_Some. split; [done|]. simpl. lia.
Qed.

Lemma sweeps_keep (taskID : string) (v : ImportStatusResponse)
    (expiry now : Time) (sweeps : list Time) (h : Handler) :
  importStatusCache h !! taskID = Some v →
  cacheExpiry h !! taskID = Some expiry →
  Forall (fun t => t ≤ now) sweeps → now < expiry →
  let h' := fold_left (fun h t => clearExpiredCache t h) sweeps h in
  importStatusCache h' !! taskID = Some v ∧ cacheExpiry h' !! taskID = Some expiry.
Proof.
  intros Hv He Hs Hnow. revert h Hv He.
  induction Hs as [|t ts Ht _ IH]; intros h Hv He; simpl; [done|].
  destruct (clearExpiredCache_keeps taskID v expiry now t h) as [Hv' He']; try done.
  by apply IH.
Qed.

Lemma getCached_hit (taskID : string) (v : ImportStatusResponse)
    (expiry now : Time) (h : Handler) :
  importStatusCache h !! taskID = Some v →
  cacheExpiry h !! taskID = Some expiry →
  now < expiry →
  getCachedImportStatus taskID now h = (v, true, h).
Proof.
  intros Hv He Hnow. unfold getCachedImportStatus. rewrite Hv. simpl.
  rewrite He. by rewrite (proj2 (Z.ltb_lt _ _) Hnow).
Qed.


(** ** The status hub *)

Lemma dropClient_observers (t t' : string) (c : ClientRef)
    (cs : gmap string (gset ClientRef)) :
  default ∅ (dropClient t c cs !! t')
  = if decide (t' = t) then default ∅ (cs !! t) ∖ {[ c ]} else default ∅ (cs !! t').
Proof.
  unfold dropClient. destruct (cs !! t) as [clients|] eqn:Hcs.
  - case_bool_decide as Hsz.
    + apply size_empty_iff in Hsz. case_decide as Ht.
      * subst t'. rewrite lookup_delete_eq. simpl. set_solver.
      * by rewrite lookup_delete_ne.
    + case_decide as Ht.
      * subst t'. by rewrite lookup_insert_eq.
      * by rewrite lookup_insert_ne.
  - case_decide as Ht; [|done]. subst t'. rewrite Hcs. simpl. set_solver.
Qed.

Lemma deliver_spec (taskID : string) (msg : WSMessage) (c : ClientRef)
    (m : Manager) (cl : Client) :
  heap m !! c = Some cl → closed (Send cl) = false →
  deliver taskID msg c m
  = Some (if hasRoom cl
          then mkManager (Clients m) (<[c := enqueued msg cl]> (heap m))
          else mkManager (dropClient taskID c (Clients m))
                         (<[c := dropped cl]> (heap m))).
Proof.
  intros Hc Hopen. unfold deliver, trySend, closeChan, hasRoom. rewrite Hc. simpl.
  rewrite Hopen. case_bool_decide; simpl; [done|]. by rewrite Hopen.
Qed.

(** The delivery loop, whatever the order of the visit. *)
Lemma deliverAll_spec (taskID : string) (msg : WSMessage)
    (order : list ClientRef) (m : Manager) :
  NoDup order →
  (∀ c, c ∈ order → ∃ cl, heap m !! c = Some cl ∧ closed (Send cl) = false) →
  ∃ m', deliverAll taskID msg order m = Some m' ∧
    (∀ c, c ∉ order → heap m' !! c = heap m !! c) ∧
    (∀ c cl, c ∈ order → heap m !! c = Some cl →
       heap m' !! c = Some (if hasRoom cl then enqueued msg cl else dropped cl)) ∧
    (∀ t, t ≠ taskID → Clients m' !! t = Clients m !! t) ∧
    (∀ c, c ∈ observers taskID m' ↔
          c ∈ observers taskID m ∧
          ¬ (c ∈ order ∧ ∃ cl, heap m !! c = Some cl ∧ hasRoom cl = false)).
Proof.
  intros Hnd. revert m. induction Hnd as [|c rest Hc Hnd IH]; intros m Hopen.
  - exists m. simpl. split_and!; try done.
    + intros c cl Hin. by apply elem_of_nil in Hin.
    + intros c. split; [|tauto]. intros ?. split; [done|].
      intros [Hin _]. by apply elem_of_nil in Hin.
  - destruct (Hopen c) as (cl & Hcl & Hop); [left|].
    simpl. rewrite (deliver_spec _ _ _ _ _ Hcl Hop). simpl.
    set (m1 := if hasRoom cl
               then mkManager (Clients m) (<[c := enqueued msg cl]> (heap m))
               else mkManager (dropClient taskID c (Clients m))
                              (<[c := dropped cl]> (heap m))).
    assert (Hheap1 : heap m1 = <[c := if hasRoom cl then enqueued msg cl
                                      else dropped cl]> (heap m))
      by (unfold m1; destruct (hasRoom cl); done).
    assert (Hobs1 : ∀ x, x ∈ observers taskID m1 ↔
              x ∈ observers taskID m ∧ ¬ (x = c ∧ hasRoom cl = false)).
    { intros x. unfold observers, m1. destruct (hasRoom cl); simpl.
      - naive_solver.
      - rewrite dropClient_observers. rewrite decide_True by done.
        set_solver. }
    assert (Hoth1 : ∀ t, t ≠ taskID → Clients m1 !! t = Clients m !! t).
    { intros t Ht. unfold m1. destruct (hasRoom cl); simpl; [done|].
      unfold dropClient. destruct (Clients m !! taskID); [|done].
      case_bool_decide; [by rewrite lookup_delete_ne|by rewrite lookup_insert_ne]. }
    destruct (IH m1) as (m' & Hrun & Hout & Hin & Hoth & Hobs).
    { intros c' Hc'. destruct (Hopen c') as (cl' & Hcl' & Hop'); [by right|].
      exists cl'. split; [|done]. rewrite Hheap1, lookup_insert_ne; [done|].
      intros ->. done. }
    exists m'. split; [done|]. split_and!.
    + intros x Hx. apply not_elem_of_cons in Hx as [Hxc Hx].
      rewrite Hout by done. by rewrite Hheap1, lookup_insert_ne.
    + intros x clx Hx Hclx. apply elem_of_cons in Hx as [->|Hx].
      * rewrite Hout by done. rewrite Hheap1, lookup_insert_eq.
        by simplify_eq.
      * apply Hin; [done|]. rewrite Hheap1, lookup_insert_ne; [done|].
        intros ->. done.
    + intros t Ht. rewrite Hoth by done. by apply Hoth1.
    + intros x. rewrite Hobs, Hobs1. split.
      * intros [[Hx Hnc] Hnr]. split; [done|].
        intros [Hxin (clx & Hclx & Hfull)].
        apply elem_of_cons in Hxin as [->|Hxin].
        -- simplify_eq. tauto.
        -- apply Hnr. split; [done|]. exists clx. split; [|done].
           rewrite Hheap1, lookup_insert_ne; [done|]. intros ->. done.
      * intros [Hx Hn]. split_and!; [done| |].
        -- intros [-> Hfull]. apply Hn. split; [left|]. eauto.
        -- intros [Hxin (clx & Hclx & Hfull)]. apply Hn. split; [by right|].
           exists clx. split; [|done].
           rewrite Hheap1, lookup_insert_ne in Hclx; [done|]. intros ->. done.
Qed.

(** C8.  Handling one broadcast for a task never panics and gives the
    producer nothing back but the next hub state.  With no observer of the
    task the hub is left as it was.  Otherwise, in whatever order the
    observers are visited, each observer whose queue has room gets the
    event appended to its queue and stays subscribed, and each observer
    whose queue is full is taken out of the task's observer set and has its
    queue closed; the clients and observer sets of other tasks are not
    touched, and the hub invariant is kept. *)
Theorem broadcast_delivers (message : BroadcastMessage) (order : list ClientRef)
    (m : Manager) :
  hubInvariant m →
  NoDup order →
  (∀ c, c ∈ order ↔ c ∈ observers (bm_TaskID message) m) →
  ∃ m', broadcastIn order message m = Some m' ∧
    (observers (bm_TaskID message) m = ∅ → m' = m) ∧
    (∀ c cl, c ∈ observers (bm_TaskID message) m → heap m !! c = Some cl →
       if hasRoom cl
       then heap m' !! c = Some (enqueued (bm_Message message) cl)
            ∧ c ∈ observers (bm_TaskID message) m'
       else heap m' !! c = Some (dropped cl)
            ∧ c ∉ observers (bm_TaskID message) m') ∧
    (∀ c, c ∉ observers (bm_TaskID message) m → heap m' !! c = heap m !! c) ∧
    (∀ t, t ≠ bm_TaskID message → observers t m' = observers t m) ∧
    hubInvariant m'.
Proof.
  intros Hinv Hnd Hord. destruct message as [taskID msg]. simpl in *.
  unfold broadcastIn. simpl. fold (observers taskID m).
  case_bool_decide as Hsz.
  - apply size_empty_iff in Hsz. apply leibniz_equiv in Hsz.
    exists m. split_and!; try done.
    intros c cl Hc. rewrite Hsz in Hc. set_solver.
  - destruct (deliverAll_spec taskID msg order m Hnd)
      as (m' & Hrun & Hout & Hin & Hoth & Hobs).
    { intros c Hc. apply Hord in Hc.
      destruct (Hinv taskID c Hc) as (cl & ? & ? & ?). eauto. }
    exists m'. split; [done|]. split_and!.
    + intros He. rewrite He in Hsz. by rewrite size_empty in Hsz.
    + intros c cl Hc Hcl. specialize (Hin c cl (proj2 (Hord c) Hc) Hcl).
      destruct (hasRoom cl) eqn:Hroom; (split; [done|]); rewrite Hobs.
      * split; [done|]. intros [_ (cl' & Hcl' & Hfull)]. simplify_eq. congruence.
      * intros [_ Hn]. apply Hn. split; [by apply Hord|]. eauto.
    + intros c Hc. apply Hout. by rewrite Hord.
    + intros t Ht. unfold observers. by rewrite Hoth.
    + intros t c Hc. destruct (decide (t = taskID)) as [->|Ht].
      * apply Hobs in Hc as [Hc Hn].
        destruct (Hinv taskID c Hc) as (cl & Hcl & Htid & Hop).
        specialize (Hin c cl (proj2 (Hord c) Hc) Hcl).
        destruct (hasRoom cl) eqn:Hroom.
        -- exists (enqueued msg cl). done.
        -- exfalso. apply Hn. split; [by apply Hord|]. eauto.
      * unfold observers in Hc. rewrite Hoth in Hc by done.
        destruct (Hinv t c Hc) as (cl & Hcl & Htid & Hop).
        exists cl. split; [|done]. rewrite Hout; [done|].
        intros Hc'. apply Hord in Hc'.
        destruct (Hinv taskID c Hc') as (cl' & Hcl' & Htid' & _).
        by simplify_eq.
Qed.

(** The order in which the loop of [broadcast] visits the observers is
    one of those covered by [broadcast_delivers]. *)
Lemma broadcast_order (message : BroadcastMessage) (m : Manager) :
  let order := elements (observers (bm_TaskID message) m) in
  broadcast message m = broadcastIn order message m ∧ NoDup order ∧
  ∀ c, c ∈ order ↔ c ∈ observers (bm_TaskID message) m.
Proof.
  simpl. split_and!; [done|apply NoDup_elements|].
  intros c. apply elem_of_elements.
Qed.

(** ** Calls and what a query sees *)

Lemma statusWrites_app (taskID : string) (a b : list Call) :
  statusWrites taskID (a ++ b) = statusWrites taskID a ++ statusWrites taskID b.
Proof. apply omap_app. Qed.

Lemma stepEvents_app (a b : list Call) :
  stepEvents (a ++ b) = stepEvents a ++ stepEvents b.
Proof. apply omap_app. Qed.

Lemma startedSteps_app (a b : list Call) :
  startedSteps (a ++ b) = startedSteps a ++ startedSteps b.
Proof. apply omap_app. Qed.

Lemma resultWrites_app (taskID : string) (a b : list Call) :
  resultWrites taskID (a ++ b) = resultWrites taskID a ++ resultWrites taskID b.
Proof. apply omap_app. Qed.

(** One call keeps every task in the store and changes the status of a
    task only by writing it. *)
Lemma applyCall_status (taskID : string) (c : Call) (s : TaskService)
    (task : MigrationTask) :
  tasks (store s) !! taskID = Some task →
  ∃ task', tasks (store (applyCall c s)) !! taskID = Some task' ∧
           Status task' = default (Status task) (statusWrite taskID c).
Proof.
  intros Ht. destruct c as [id st|id lv msg|id p|id r|id a b|id a b|id a b e|id p a b];
    simpl; try (exists task; done).
  - unfold Services.UpdateTaskStatus, Storage.UpdateTaskStatus.
    destruct (tasks (store s) !! id) as [t|] eqn:Hid; simpl.
    + assert (Hl : ∃ task', <[id := set_Status st t]> (tasks (store s)) !! taskID
                            = Some task' ∧
                    Status task' = default (Status task)
                      (if String.eqb id taskID then Some st else None)).
      { destruct (String.eqb id taskID) eqn:E.
        - apply String.eqb_eq in E as ->. rewrite lookup_insert_eq. eauto.
        - apply String.eqb_neq in E. rewrite lookup_insert_ne by done. eauto. }
      repeat case_match; simpl; done.
    + exists task. split; [done|].
      destruct (String.eqb id taskID) eqn:E; [|done].
      apply String.eqb_eq in E as ->. congruence.
  - unfold Services.UpdateTaskProgress, Storage.UpdateTaskProgress.
    destruct (tasks (store s) !! id) as [t|] eqn:Hid; simpl; [|eauto].
    destruct (decide (id = taskID)) as [->|Hne].
    + rewrite lookup_insert_eq. simplify_eq. eauto.
    + rewrite lookup_insert_ne by done. eauto.
  - unfold Services.SetTaskResult, Storage.SetTaskResult.
    destruct (tasks (store s) !! id) as [t|] eqn:Hid; simpl; [|eauto].
    destruct (decide (id = taskID)) as [->|Hne].
    + rewrite lookup_insert_eq. simplify_eq. eauto.
    + rewrite lookup_insert_ne by done. eauto.
Qed.

Lemma statusWrites_cons (taskID : string) (c : Call) (cs : list Call) :
  statusWrites taskID (c :: cs)
  = match statusWrite taskID c with
    | Some st => st :: statusWrites taskID cs
    | None => statusWrites taskID cs
    end.
Proof. reflexivity. Qed.

Lemma default_last_cons {A} (d x : A) (l : list A) :
  default d (last (x :: l)) = default x (last l).
Proof.
  revert d x. induction l as [|a l IH]; intros d x; [done|].
  rewrite last_cons_cons. by rewrite (IH d a), (IH x a).
Qed.

(** After a sequence of calls the status of a task is the last one
    written to it, or the one it had. *)
Lemma applyCalls_status (taskID : string) (cs : list Call) (s : TaskService)
    (task : MigrationTask) :
  tasks (store s) !! taskID = Some task →
  taskStatus taskID (applyCalls cs s)
  = Some (default (Status task) (last (statusWrites taskID cs))).
Proof.
  revert s task. induction cs as [|c cs IH]; intros s task Ht.
  - unfold taskStatus. simpl. by rewrite Ht.
  - destruct (applyCall_status taskID c s task Ht) as (task' & Ht' & Hst).
    change (applyCalls (c :: cs) s) with (applyCalls cs (applyCall c s)).
    rewrite (IH _ _ Ht'). f_equal. rewrite Hst, statusWrites_cons.
    destruct (statusWrite taskID c) as [st|]; simpl; [|done].
    by rewrite default_last_cons.
Qed.

(** ** Reasoning about worker runs *)

Lemma wp_bind {A B} (m : Worker A) (f : A → Worker B) (fr : Frame)
    (Q : list Call → Frame → Res B → Prop) :
  wp m fr (fun cs fr' r =>
    match r with
    | Normal a => wp (f a) fr' (fun cs' fr'' r' => Q (cs ++ cs') fr'' r')
    | Returned => Q cs fr' Returned
    | Panicked v => Q cs fr' (Panicked v)
    end) →
  wp (m ≫= f) fr Q.
Proof.
  unfold wp, mbind, Worker_bind.
  destruct (m fr) as [[cs fr'] [a| |v]]; simpl; [|done|done].
  by destruct (f a fr') as [[cs' fr''] r'].
Qed.

Lemma wp_eq {A} (w : Worker A) (fr fr' : Frame) (cs : list Call) (r : Res A)
    (Q : list Call → Frame → Res A → Prop) :
  w fr = (cs, fr', r) → Q cs fr' r → wp w fr Q.
Proof. unfold wp. by intros ->. Qed.

Lemma wp_mono {A} (w : Worker A) (fr : Frame)
    (P Q : list Call → Frame → Res A → Prop) :
  wp w fr P → (∀ cs fr' r, P cs fr' r → Q cs fr' r) → wp w fr Q.
Proof. unfold wp. auto. Qed.

Lemma wp_run {A} (w : Worker A) (fr : Frame)
    (Q : list Call → Frame → Res A → Prop) :
  wp w fr Q → ∀ cs fr' r, w fr = (cs, fr', r) → Q cs fr' r.
Proof. unfold wp. intros H cs fr' r E. by rewrite E in H. Qed.

Lemma quiet_nil (taskID : string) : quiet taskID [].
Proof. unfold quiet. split_and!; done. Qed.

Lemma quiet_app (taskID : string) (a b : list Call) :
  quiet taskID a → quiet taskID b → quiet taskID (a ++ b).
Proof.
  intros (A1 & A2 & A3 & A4) (B1 & B2 & B3 & B4). unfold quiet.
  rewrite statusWrites_app, stepEvents_app, startedSteps_app, resultWrites_app.
  rewrite A1, A2, A3, B1, B2, B3. split_and!; try done. by apply Forall_app.
Qed.

Lemma importStatusResult_consistent (apps : list AppImportStatus) :
  summaryConsistent (importStatusResult apps).
Proof.
  intros l. unfold importStatusResult, storedApps, storedSummary.
  rewrite lookup_insert_eq. intros [= <-].
  rewrite lookup_insert_ne by done. by rewrite lookup_insert_eq.
Qed.

Lemma importCompletedResult_consistent (apps : list AppImportStatus) :
  summaryConsistent (importCompletedResult apps).
Proof.
  intros l. unfold importCompletedResult, storedApps, storedSummary.
  rewrite lookup_insert_eq. intros [= <-].
  rewrite lookup_insert_ne by done. by rewrite lookup_insert_eq.
Qed.

Lemma taskEffect_quiet (taskID : string) (e : TaskEffect) :
  quiet taskID (taskEffectCalls taskID e).
Proof.
  destruct e as [lv msg|apps]; unfold quiet; simpl; split_and!; try done.
  unfold resultWrites. simpl. rewrite String.eqb_refl.
  repeat constructor. apply importStatusResult_consistent.
Qed.

Lemma stepEffect_quiet (taskID step : string) (e : StepEffect) :
  quiet taskID (stepEffectCalls taskID step e).
Proof.
  destruct e as [p msg|e]; [|apply taskEffect_quiet].
  unfold quiet. simpl. unfold progressCallbackCalls.
  destruct (String.eqb msg ""); simpl; split_and!; done.
Qed.

Lemma lifted_quiet {E} (taskID : string) (lift : E → list Call) (es : list E) :
  (∀ e, quiet taskID (lift e)) → quiet taskID (es ≫= lift).
Proof.
  intros Hl. induction es as [|e es IH]; [apply quiet_nil|].
  change ((e :: es) ≫= lift) with (lift e ++ (es ≫= lift)).
  by apply quiet_app.
Qed.

(** The three ways a step can end. *)
Lemma ExecuteStep_cases (taskID step : string) (fn : Closure TaskEffect error)
    (fr : Frame) :
  ∃ mid x, quiet taskID mid ∧
    let fr' := mkFrame x (hasCriticalError fr) in
    (∃ v, ExecuteStep taskID step fn fr
          = (stepStartCalls taskID step ++ mid, fr', Panicked v)) ∨
    (∃ e, ExecuteStep taskID step fn fr
          = (stepStartCalls taskID step ++ mid ++ stepErrorCalls taskID step e,
             fr', Normal (Some e))) ∨
    ExecuteStep taskID step fn fr
    = (stepStartCalls taskID step ++ mid ++ stepCompleteCalls taskID step,
       fr', Normal None).
Proof.
  unfold ExecuteStep, runClosure, call, mbind, mret, Worker_bind, Worker_ret.
  simpl. destruct (fn (vars fr)) as [[es x] [[e|]|v]]; simpl;
    exists (es ≫= taskEffectCalls taskID), x;
    (split; [apply lifted_quiet, taskEffect_quiet|]).
  - right; left. eauto.
  - right; right. eauto.
  - left. eauto.
Qed.

Lemma ExecuteStepWithProgress_cases (taskID step : string)
    (fn : Closure StepEffect error) (fr : Frame) :
  ∃ mid x, quiet taskID mid ∧
    let fr' := mkFrame x (hasCriticalError fr) in
    (∃ v, ExecuteStepWithProgress taskID step fn fr
          = (stepStartCalls taskID step ++ mid, fr', Panicked v)) ∨
    (∃ e, ExecuteStepWithProgress taskID step fn fr
          = (stepStartCalls taskID step ++ mid ++ stepErrorCalls taskID step e,
             fr', Normal (Some e))) ∨
    ExecuteStepWithProgress taskID step fn fr
    = (stepStartCalls taskID step ++ mid ++ stepCompleteCalls taskID step,
       fr', Normal None).
Proof.
  unfold ExecuteStepWithProgress, runClosure, call, mbind, mret, Worker_bind,
    Worker_ret.
  simpl. destruct (fn (vars fr)) as [[es x] [[e|]|v]]; simpl;
    exists (es ≫= stepEffectCalls taskID step), x;
    (split; [apply lifted_quiet, stepEffect_quiet|]).
  - right; left. eauto.
  - right; right. eauto.
  - left. eauto.
Qed.

(** ** The item steps *)

Section CallObservations.
Context (taskID taskID' step e level message : string).

Lemma statusWrites_start : statusWrites taskID' (stepStartCalls taskID step) = [].
Proof. done. Qed.
Lemma statusWrites_error : statusWrites taskID' (stepErrorCalls taskID step e) = [].
Proof. done. Qed.
Lemma statusWrites_complete : statusWrites taskID' (stepCompleteCalls taskID step) = [].
Proof. done. Qed.
Lemma statusWrites_log : statusWrites taskID' [CallAddTaskLog taskID level message] = [].
Proof. done. Qed.
Lemma resultWrites_start : resultWrites taskID' (stepStartCalls taskID step) = [].
Proof. done. Qed.
Lemma resultWrites_error : resultWrites taskID' (stepErrorCalls taskID step e) = [].
Proof. done. Qed.
Lemma resultWrites_complete : resultWrites taskID' (stepCompleteCalls taskID step) = [].
Proof. done. Qed.
Lemma resultWrites_log : resultWrites taskID' [CallAddTaskLog taskID level message] = [].
Proof. done. Qed.
Lemma stepEvents_start : stepEvents (stepStartCalls taskID step) = [StepStart step].
Proof. done. Qed.
Lemma stepEvents_error : stepEvents (stepErrorCalls taskID step e) = [StepError step e].
Proof. done. Qed.
Lemma stepEvents_complete : stepEvents (stepCompleteCalls taskID step) = [StepComplete step].
Proof. done. Qed.
Lemma stepEvents_log : stepEvents [CallAddTaskLog taskID level message] = [].
Proof. done. Qed.
Lemma startedSteps_start : startedSteps (stepStartCalls taskID step) = [step].
Proof. done. Qed.
Lemma startedSteps_error : startedSteps (stepErrorCalls taskID step e) = [].
Proof. done. Qed.
Lemma startedSteps_complete : startedSteps (stepCompleteCalls taskID step) = [].
Proof. done. Qed.
Lemma startedSteps_log : startedSteps [CallAddTaskLog taskID level message] = [].
Proof. done. Qed.

End CallObservations.

Create Rewrite HintDb obs.
#[local] Hint Rewrite statusWrites_app stepEvents_app startedSteps_app
  resultWrites_app statusWrites_start statusWrites_error statusWrites_complete
  statusWrites_log resultWrites_start resultWrites_error resultWrites_complete
  resultWrites_log stepEvents_start stepEvents_error stepEvents_complete
  stepEvents_log startedSteps_start startedSteps_error startedSteps_complete
  startedSteps_log @app_nil_r @app_nil_l : obs.

Ltac split_quiet :=
  repeat match goal with
    | H : quiet _ _ |- _ => destruct H as (? & ? & ? & ?)
    end.

(** Normalising the observations of a sequence of calls built from the
    calls around a step and the quiet calls of closures. *)
Ltac observe :=
  unfold bodyPost, stagePost, criticalFailure, stepPolicy;
  autorewrite with obs;
  repeat match goal with
    | H : statusWrites _ _ = _ |- _ => rewrite H
    | H : stepEvents _ = _ |- _ => rewrite H
    | H : startedSteps _ = _ |- _ => rewrite H
    end;
  autorewrite with obs; rewrite ?Forall_app; simpl app.

Ltac in_trace :=
  solve [ assumption
        | apply list_elem_of_here
        | apply list_elem_of_further; in_trace
        | apply elem_of_app; left; in_trace
        | apply elem_of_app; right; in_trace ].

Lemma scanFailed_warns (taskID : string) :
  warnsOnly taskID "Scan app configuration" (scanFailed taskID).
Proof.
  intros e fr.
  unfold scanFailed, setSourceData, modifyWorkerVars, call, mbind, Worker_bind.
  simpl. destruct (sourceData (vars fr)); simpl; eexists _, _; done.
Qed.

Lemma mergeFailed_warns (taskID : string) :
  warnsOnly taskID "Merge AppData directory" (mergeFailed taskID).
Proof. intros e fr. eexists _, _. done. Qed.

Lemma composeFailed_warns (taskID : string) :
  warnsOnly taskID "Import application configuration" (composeFailed taskID).
Proof. intros e fr. eexists _, _. done. Qed.

Lemma cleanupFailed_warns (taskID : string) :
  warnsOnly taskID "Cleanup local temporary files" (cleanupFailed taskID).
Proof. intros e fr. eexists _, _. done. Qed.

Lemma stage_step (taskID name : string) (fn : Closure StepEffect error)
    (handler : string → Worker unit) (rest : Worker unit)
    (names : list string) (fr : Frame) :
  warnsOnly taskID name handler →
  (∀ fr', hasCriticalError fr' = hasCriticalError fr →
          wp rest fr' (stagePost taskID names fr')) →
  wp (err ← ExecuteStepWithProgress taskID name fn;
      match err with Some e => handler e | None => mret tt end;;
      rest) fr (stagePost taskID (name :: names) fr).
Proof.
  intros Hh Hrest. apply wp_bind.
  destruct (ExecuteStepWithProgress_cases taskID name fn fr)
    as (mid & x & Hq & [[v Hrun] | [[e Hrun] | Hrun]]);
    (eapply wp_eq; [exact Hrun|]); lazy beta iota; split_quiet.
  - unfold stagePost. observe. split_and!; try done.
    intros step e Hin. set_solver.
  - apply wp_bind.
    destruct (Hh e (mkFrame x (hasCriticalError fr))) as (fr1 & r1 & Hrun1 & Hhc & Hr1).
    eapply wp_eq; [exact Hrun1|].
    destruct r1 as [[]| |v]; [|done|].
    + eapply wp_mono; [apply Hrest; by rewrite Hhc|].
      intros cs fr' r (S1 & S2 & S3 & S4 & S5 & S6).
      unfold stagePost. observe. split_and!; try done.
      * simpl in Hhc. congruence.
      * intros ->. by rewrite S5.
      * intros step e' Hin. apply elem_of_cons in Hin as [Hin|Hin]; [done|].
        apply elem_of_cons in Hin as [Hin|Hin].
        -- simplify_eq. split; [left|]. in_trace.
        -- destruct (S6 _ _ Hin) as [? ?]. split; [by right|]. in_trace.
    + unfold stagePost. observe. split_and!; try done.
      intros step e' Hin. apply elem_of_cons in Hin as [Hin|Hin]; [done|].
      apply elem_of_cons in Hin as [Hin|Hin]; [|by apply elem_of_nil in Hin].
      simplify_eq. split; [left|]. in_trace.
  - apply wp_bind. apply wp_eq with (cs := []) (fr' := mkFrame x (hasCriticalError fr)) (r := Normal tt); [done|].
    eapply wp_mono; [apply Hrest; done|].
    intros cs fr' r (S1 & S2 & S3 & S4 & S5 & S6).
    unfold stagePost. observe. split_and!; try done.
    * intros ->. by rewrite S5.
    * intros step e' Hin. apply elem_of_cons in Hin as [Hin|Hin]; [done|].
      apply elem_of_cons in Hin as [Hin|Hin]; [done|].
      destruct (S6 _ _ Hin) as [? ?]. split; [by right|]. in_trace.
Qed.

Lemma writeImportResult_post (taskID : string) (fr : Frame) :
  wp (writeImportResult taskID) fr (stagePost taskID [] fr).
Proof.
  unfold wp, writeImportResult, getFrame, call, mbind, Worker_bind. simpl.
  unfold stagePost, resultWrites. simpl. rewrite String.eqb_refl.
  split_and!; try done.
  - repeat constructor. apply importCompletedResult_consistent.
  - intros step e Hin. by apply elem_of_nil in Hin.
Qed.

Lemma itemSteps_post (taskID : string)
    (scan merge compose cleanup : Closure StepEffect error) (fr : Frame) :
  wp (itemSteps taskID scan merge compose cleanup) fr
     (stagePost taskID itemStepNames fr).
Proof.
  unfold itemSteps, itemStepNames.
  apply stage_step; [apply scanFailed_warns|]. intros fr1 _.
  apply stage_step; [apply mergeFailed_warns|]. intros fr2 _.
  apply stage_step; [apply composeFailed_warns|]. intros fr3 _.
  apply stage_step; [apply cleanupFailed_warns|]. intros fr4 _.
  apply writeImportResult_post.
Qed.

(** ** The bodies of the workers *)

Lemma critical_branch (fr : Frame) :
  ((setCriticalError;; return_) : Worker unit) fr
  = ([], mkFrame (vars fr) true, Returned).
Proof. done. Qed.

(** A run in which no step returned an error. *)
Lemma bodyPost_no_error (pipeline : list (string * bool)) (taskID : string)
    (cs : list Call) (fr : Frame) (r : Res unit) :
  statusWrites taskID cs = [] →
  Forall summaryConsistent (resultWrites taskID cs) →
  hasCriticalError fr = false →
  (∀ step e, StepError step e ∉ stepEvents cs) →
  bodyPost pipeline taskID cs fr r.
Proof.
  intros Hs Hr Hc Hn. unfold bodyPost. split_and!; try done.
  - rewrite Hc. split; [done|]. intros (step & e & _ & Hin). by apply Hn in Hin.
  - intros i step crit e _ Hin. by apply Hn in Hin.
Qed.

Lemma stepIndex_lookup (pipeline : list (string * bool)) (i : nat)
    (step : string) (crit : bool) :
  NoDup pipeline.*1 → pipeline !! i = Some (step, crit) →
  stepIndex pipeline step = Some (i, crit).
Proof.
  revert i. induction pipeline as [|[name c] rest IH]; intros i Hnd Hi; [done|].
  apply NoDup_cons in Hnd as [Hname Hnd]. simpl.
  destruct i as [|i]; simpl in Hi.
  - simplify_eq. by rewrite String.eqb_refl.
  - destruct (String.eqb name step) eqn:E.
    + apply String.eqb_eq in E as ->. exfalso. apply Hname.
      apply list_elem_of_fmap. exists (step, crit). split; [done|].
      by eapply list_elem_of_lookup_2.
    + by rewrite (IH i Hnd Hi).
Qed.

Lemma pipelines_NoDup :
  NoDup onlinePipeline.*1 ∧ NoDup exportPipeline.*1 ∧ NoDup importPipeline.*1.
Proof. split_and!; apply (bool_decide_unpack _); by vm_compute. Qed.

Lemma items_not_critical :
  Forall (fun step => ((step, true) ∉ onlinePipeline)
                      ∧ ((step, true) ∉ importPipeline))
         itemStepNames.
Proof. apply (bool_decide_unpack _). by vm_compute. Qed.

Lemma item_step_classified (pipeline : list (string * bool)) (i : nat)
    (step : string) (crit : bool) :
  pipeline = onlinePipeline ∨ pipeline = importPipeline →
  step ∈ itemStepNames → pipeline !! i = Some (step, crit) → crit = false.
Proof.
  intros Hp Hstep Hi. destruct crit; [|done]. exfalso.
  pose proof (proj1 (Forall_forall _ _) items_not_critical step Hstep) as [H1 H2].
  apply list_elem_of_lookup_2 in Hi. destruct Hp as [-> | ->]; done.
Qed.

Ltac pipeline_index i H :=
  first
    [ apply (stepIndex_lookup _ _ _ _ (proj1 pipelines_NoDup)) in H
    | apply (stepIndex_lookup _ _ _ _ (proj1 (proj2 pipelines_NoDup))) in H
    | apply (stepIndex_lookup _ _ _ _ (proj2 (proj2 pipelines_NoDup))) in H ];
  vm_compute in H; simplify_eq.

Ltac body_step lemma :=
  apply wp_bind;
  let mid := fresh "mid" in
  let x := fresh "x" in
  let Hq := fresh "Hq" in
  let H := fresh "Hrun" in
  let v := fresh "v" in
  let e := fresh "e" in
  match goal with
  | |- wp (_ ?taskID ?name ?fn) ?fr _ =>
      destruct (lemma taskID name fn fr)
        as (mid & x & Hq & [[v H] | [[e H] | H]]);
      (eapply wp_eq; [exact H|]); lazy beta iota; clear H; split_quiet
  end.

Ltac no_error_leaf :=
  apply bodyPost_no_error; observe; try done;
  let Hin := fresh in
  intros ? ? Hin; set_unfold in Hin; naive_solver.

Ltac critical_leaf :=
  (eapply wp_eq; [apply critical_branch|]);
  observe; split_and!; try done;
  [ split; [intros _|done]; eexists _, _; split; [|in_trace];
    unfold importPipeline, onlinePipeline, exportPipeline; in_trace
  | let i := fresh "i" in
    let Hi := fresh "Hi" in
    let Hin := fresh "Hin" in
    intros i ? ? ? Hi Hin; set_unfold in Hin;
    destruct_or!; simplify_eq;
    pipeline_index i Hi; done ].

(** The steps that follow the critical ones. *)
Lemma items_leaf (pipeline : list (string * bool)) (taskID : string)
    (pre cs : list Call) (fr0 fr : Frame) (r : Res unit) :
  pipeline = onlinePipeline ∨ pipeline = importPipeline →
  hasCriticalError fr0 = false →
  statusWrites taskID pre = [] →
  Forall summaryConsistent (resultWrites taskID pre) →
  (∀ step e, StepError step e ∉ stepEvents pre) →
  startedSteps pre ++ itemStepNames = pipeline.*1 →
  stagePost taskID itemStepNames fr0 cs fr r →
  bodyPost pipeline taskID (pre ++ cs) fr r.
Proof.
  intros Hp Hc P1 P2 P3 P4 (S1 & S2 & S3 & S4 & S5 & S6).
  assert (Hev : ∀ step e, StepError step e ∈ stepEvents (pre ++ cs) →
                          StepError step e ∈ stepEvents cs).
  { intros step e. rewrite stepEvents_app, elem_of_app. intros [Hin|Hin]; [|done].
    by apply P3 in Hin. }
  unfold bodyPost. rewrite statusWrites_app, resultWrites_app, P1, S1.
  split_and!; [done|by apply Forall_app| |].
  - rewrite S3, Hc. split; [done|].
    intros (step & e & Hin & Hev'). apply Hev, S6 in Hev' as [Hstep _].
    pose proof (proj1 (Forall_forall _ _) items_not_critical step Hstep) as [H1 H2].
    destruct Hp as [-> | ->]; done.
  - intros i step crit e Hi Hin. apply Hev in Hin.
    destruct (S6 _ _ Hin) as [Hstep Hw].
    rewrite (item_step_classified pipeline i step crit Hp Hstep Hi).
    split; [apply elem_of_app; by right|].
    intros Hnp. assert (r = Normal tt) as ->
      by (destruct r as [[]| |]; naive_solver).
    rewrite startedSteps_app, S5 by done. split_and!; congruence.
Qed.

Lemma executeDataImport_body_post (taskID : string) (st : ImportSteps) (fr : Frame) :
  hasCriticalError fr = false →
  wp (executeDataImport_body taskID st) fr (bodyPost importPipeline taskID).
Proof.
  intros Hc. unfold executeDataImport_body.
  body_step ExecuteStep_cases.
  - no_error_leaf.
  - critical_leaf.
  - body_step ExecuteStepWithProgress_cases.
    + no_error_leaf.
    + critical_leaf.
    + eapply wp_mono; [apply itemSteps_post|].
      intros cs fr' r Hpost. rewrite <- !app_assoc, !app_assoc.
      eapply items_leaf; [by right|exact Hc| | | | |exact Hpost].
      * by observe.
      * by observe.
      * intros step e. observe. set_unfold. naive_solver.
      * by observe.
Qed.

Lemma executeOnlineMigration_body_post (taskID : string) (st : OnlineSteps)
    (fr : Frame) :
  hasCriticalError fr = false →
  wp (executeOnlineMigration_body taskID st) fr (bodyPost onlinePipeline taskID).
Proof.
  intros Hc. unfold executeOnlineMigration_body.
  body_step ExecuteStep_cases.
  - no_error_leaf.
  - critical_leaf.
  - body_step ExecuteStep_cases.
    + no_error_leaf.
    + critical_leaf.
    + body_step ExecuteStepWithProgress_cases.
      * no_error_leaf.
      * critical_leaf.
      * eapply wp_mono; [apply itemSteps_post|].
        intros cs fr' r Hpost. rewrite <- !app_assoc, !app_assoc.
        eapply items_leaf; [by left|exact Hc| | | | |exact Hpost].
        -- by observe.
        -- by observe.
        -- intros step e. observe. set_unfold. naive_solver.
        -- by observe.
Qed.

Lemma exportResult_consistent (os : OS) (path : string) :
  summaryConsistent (exportResult os path).
Proof. intros l. unfold exportResult, storedApps. by vm_compute. Qed.

Lemma executeDataExport_body_post (os : OS) (taskID : string) (st : ExportSteps)
    (fr : Frame) :
  hasCriticalError fr = false →
  wp (executeDataExport_body os taskID st) fr (bodyPost exportPipeline taskID).
Proof.
  intros Hc. unfold executeDataExport_body.
  body_step ExecuteStep_cases.
  - no_error_leaf.
  - critical_leaf.
  - body_step ExecuteStepWithProgress_cases.
    + no_error_leaf.
    + critical_leaf.
    + eapply (wp_eq _ _ _
                [CallSetTaskResult taskID (exportResult os (exportPath x0));
                 CallUpdateTaskProgress taskID 100]); [reflexivity|].
      apply bodyPost_no_error; observe; try done.
      * split_and!; try done. unfold resultWrites. simpl.
        rewrite String.eqb_refl. repeat constructor.
        apply exportResult_consistent.
      * intros step e Hin. set_unfold in Hin. naive_solver.
Qed.
(** ** The workers *)

Lemma worker_run (taskID panicPrefix criticalText completedText : string)
    (save : bool) (body : Worker unit) (fr fr' : Frame) (cs : list Call)
    (r : Res unit) :
  body fr = (cs, fr', r) →
  (call (CallUpdateTaskStatus taskID TaskStatusRunning);;
   deferRecover
     (workerDeferred taskID panicPrefix criticalText completedText save) body) fr
  = (CallUpdateTaskStatus taskID TaskStatusRunning
       :: cs ++ deferredCalls taskID panicPrefix criticalText completedText save
                  (recoveredPanic r) fr',
     fr', Normal tt).
Proof.
  intros Hb.
  unfold deferRecover, workerDeferred, deferredCalls, call, calls, getFrame,
    mbind, mret, Worker_bind, Worker_ret.
  simpl. rewrite Hb.
  destruct r as [[]| |v]; simpl; destruct save; simpl;
    destruct (hasCriticalError fr'); simpl; rewrite ?app_nil_r; reflexivity.
Qed.

Lemma deferredCalls_obs (taskID panicPrefix criticalText completedText : string)
    (save : bool) (recovered : option string) (fr : Frame) :
  let cs := deferredCalls taskID panicPrefix criticalText completedText save
              recovered fr in
  statusWrites taskID cs
  = [if bool_decide (is_Some recovered) || hasCriticalError fr
     then TaskStatusFailed else TaskStatusCompleted] ∧
  stepEvents cs = [] ∧ startedSteps cs = [] ∧
  Forall summaryConsistent (resultWrites taskID cs) ∧
  (save = true →
   last (resultWrites taskID cs) = Some (importStatusResult (appStatuses (vars fr)))).
Proof.
  unfold deferredCalls, statusWrites, resultWrites.
  destruct recovered as [v|]; simpl; [|destruct (hasCriticalError fr); simpl];
    rewrite ?String.eqb_refl; destruct save; simpl; rewrite ?String.eqb_refl;
    split_and!; try done; repeat constructor;
    apply importStatusResult_consistent.
Qed.

Lemma terminal_from_body (taskID panicPrefix criticalText completedText : string)
    (save : bool) (pipeline : list (string * bool)) (body : Worker unit)
    (s : TaskService) (task : MigrationTask) :
  tasks (store s) !! taskID = Some task →
  wp body initFrame (bodyPost pipeline taskID) →
  let worker :=
    call (CallUpdateTaskStatus taskID TaskStatusRunning);;
    deferRecover
      (workerDeferred taskID panicPrefix criticalText completedText save) body in
  terminalDecision taskID panicPrefix pipeline body worker s ∧
  failurePolicy taskID pipeline body worker s.
Proof.
  intros Ht Hpost worker.
  destruct (body initFrame) as [[cs fr] r] eqn:Hb.
  pose proof (wp_run _ _ _ Hpost _ _ _ Hb) as (B1 & B2 & B3 & B4).
  pose proof (worker_run taskID panicPrefix criticalText completedText save
                body _ _ _ _ Hb) as Hw. fold worker in Hw.
  destruct (deferredCalls_obs taskID panicPrefix criticalText completedText save
              (recoveredPanic r) fr) as (D1 & D2 & D3 & D4 & D5).
  set (dcs := deferredCalls taskID panicPrefix criticalText completedText save
                (recoveredPanic r) fr) in *.
  assert (Hfinal : taskStatus taskID
            (applyCalls (CallUpdateTaskStatus taskID TaskStatusRunning :: cs ++ dcs) s)
          = Some (if bool_decide (is_Some (recoveredPanic r)) || hasCriticalError fr
                  then TaskStatusFailed else TaskStatusCompleted)).
  { rewrite (applyCalls_status _ _ _ _ Ht). f_equal.
    rewrite statusWrites_cons. simpl. rewrite String.eqb_refl.
    rewrite statusWrites_app, B1, D1. done. }
  assert (Hcrit : criticalFailure pipeline
            (CallUpdateTaskStatus taskID TaskStatusRunning :: cs ++ dcs)
          ↔ criticalFailure pipeline cs).
  { unfold criticalFailure.
    change (stepEvents (CallUpdateTaskStatus taskID TaskStatusRunning :: cs ++ dcs))
      with (stepEvents (cs ++ dcs)).
    by rewrite stepEvents_app, D2, app_nil_r. }
  assert (Hpanic : bool_decide (is_Some (recoveredPanic r)) = true
                   ↔ ∃ v, r = Panicked v).
  { rewrite bool_decide_eq_true. destruct r as [[]| |v]; simpl.
    - split; [by intros [? ?]|by intros [? ?]].
    - split; [by intros [? ?]|by intros [? ?]].
    - split; eauto. }
  split.
  - unfold terminalDecision. rewrite Hw, Hb. cbv zeta. cbn [fst snd].
    rewrite Hfinal, Hcrit, <- B3.
    split_and!; try done.
    + destruct (bool_decide (is_Some (recoveredPanic r))) eqn:E; simpl.
      * split; [intros _; right; by apply Hpanic|done].
      * destruct (hasCriticalError fr); simpl; [by split; auto|].
        split; [done|]. intros [?|Hp]; [done|]. apply Hpanic in Hp. done.
    + destruct (bool_decide (is_Some (recoveredPanic r))) eqn:E; simpl.
      * split; [done|]. intros Hn. exfalso. apply Hn. right. by apply Hpanic.
      * destruct (hasCriticalError fr); simpl; [split; [done|tauto]|].
        split; [|done]. intros _ [?|Hp]; [done|]. apply Hpanic in Hp. done.
    + intros v ->. simpl in dcs. apply list_elem_of_further, elem_of_app. right.
      unfold dcs, deferredCalls. simpl.
      apply list_elem_of_further, list_elem_of_here.
  - unfold failurePolicy. rewrite Hw, Hb. cbv zeta. cbn [fst snd]. rewrite Hfinal.
    intros i step crit e Hi Hin. specialize (B4 i step crit e Hi Hin).
    destruct crit.
    + destruct B4 as (Hst & Hc' & Hr). split; [done|].
      rewrite Hc'. by rewrite orb_true_r.
    + destruct B4 as (Hw' & B4). split; [done|]. intros Hnp.
      destruct (B4 Hnp) as (Hst & Hc' & Hr). split; [done|].
      rewrite Hc'. by subst r.
Qed.

Lemma workers_decided (os : OS) (taskID : string) (onl : OnlineSteps)
    (exp : ExportSteps) (imp : ImportSteps) (s : TaskService)
    (task : MigrationTask) :
  tasks (store s) !! taskID = Some task →
  (terminalDecision taskID "Migration panic: " onlinePipeline
     (executeOnlineMigration_body taskID onl) (executeOnlineMigration taskID onl) s
   ∧ failurePolicy taskID onlinePipeline
       (executeOnlineMigration_body taskID onl) (executeOnlineMigration taskID onl) s)
  ∧ (terminalDecision taskID "Panic occurred during export: " exportPipeline
       (executeDataExport_body os taskID exp) (executeDataExport os taskID exp) s
     ∧ failurePolicy taskID exportPipeline
         (executeDataExport_body os taskID exp) (executeDataExport os taskID exp) s)
  ∧ (terminalDecision taskID "Panic occurred during import: " importPipeline
       (executeDataImport_body taskID imp) (executeDataImport taskID imp) s
     ∧ failurePolicy taskID importPipeline
         (executeDataImport_body taskID imp) (executeDataImport taskID imp) s).
Proof.
  intros Ht. split_and!.
  - eapply terminal_from_body; [done|]. by apply executeOnlineMigration_body_post.
  - eapply terminal_from_body; [done|]. by apply executeOnlineMigration_body_post.
  - eapply terminal_from_body; [done|]. by apply executeDataExport_body_post.
  - eapply terminal_from_body; [done|]. by apply executeDataExport_body_post.
  - eapply terminal_from_body; [done|]. by apply executeDataImport_body_post.
  - eapply terminal_from_body; [done|]. by apply executeDataImport_body_post.
Qed.


(** ** The error policy of the workers *)

Section ErrorPolicy.
Import Online Policy.
Implicit Types (taskID step : string) (fr : Frame) (s : TaskService).

(** *** What a step makes of its closure *)

Lemma ExecuteStep_run taskID step (fn : Closure TaskEffect error) fr :
  ∃ mid, quiet taskID mid ∧
    let fr' := mkFrame (fn (vars fr)).1.2 (hasCriticalError fr) in
    ExecuteStep taskID step fn fr
    = match (fn (vars fr)).2 with
      | Fault v => (stepStartCalls taskID step ++ mid, fr', Panicked v)
      | Ret (Some e) =>
          (stepStartCalls taskID step ++ mid ++ stepErrorCalls taskID step e,
           fr', Normal (Some e))
      | Ret None =>
          (stepStartCalls taskID step ++ mid ++ stepCompleteCalls taskID step,
           fr', Normal None)
      end.
Proof.
  unfold ExecuteStep, runClosure, call, mbind, mret, Worker_bind, Worker_ret.
  simpl. destruct (fn (vars fr)) as [[es x] [[e|]|v]]; simpl;
    exists (es ≫= taskEffectCalls taskID);
    (split; [apply lifted_quiet, taskEffect_quiet|done]).
Qed.

Lemma ExecuteStepWithProgress_run taskID step (fn : Closure StepEffect error) fr :
  ∃ mid, quiet taskID mid ∧
    let fr' := mkFrame (fn (vars fr)).1.2 (hasCriticalError fr) in
    ExecuteStepWithProgress taskID step fn fr
    = match (fn (vars fr)).2 with
      | Fault v => (stepStartCalls taskID step ++ mid, fr', Panicked v)
      | Ret (Some e) =>
          (stepStartCalls taskID step ++ mid ++ stepErrorCalls taskID step e,
           fr', Normal (Some e))
      | Ret None =>
          (stepStartCalls taskID step ++ mid ++ stepCompleteCalls taskID step,
           fr', Normal None)
      end.
Proof.
  unfold ExecuteStepWithProgress, runClosure, call, mbind, mret, Worker_bind,
    Worker_ret.
  simpl. destruct (fn (vars fr)) as [[es x] [[e|]|v]]; simpl;
    exists (es ≫= stepEffectCalls taskID step);
    (split; [apply lifted_quiet, stepEffect_quiet|done]).
Qed.

(** *** The traces of the workers *)

Ltac step_run lemma :=
  apply wp_bind;
  let mid := fresh "mid" in
  let Hq := fresh "Hq" in
  let H := fresh "Hrun" in
  match goal with
  | |- wp (_ ?taskID ?name ?fn) ?fr _ =>
      destruct (lemma taskID name fn fr) as (mid & Hq & H);
      cbv zeta in H; split_quiet
  end.

Lemma noncritical_step_trace taskID name (fn : Closure StepEffect error)
    (handler : string → Worker unit) (rest : Worker unit)
    (names : list (string * bool)) fr :
  (∀ e, (fn (vars fr)).2 = Ret (Some e) →
     ∃ cs1 fr1,
       handler e (mkFrame (fn (vars fr)).1.2 (hasCriticalError fr))
       = (cs1, fr1, Normal tt) ∧ stepEvents cs1 = []) →
  (∀ fr', wp rest fr' (traced names)) →
  wp (err ← ExecuteStepWithProgress taskID name fn;
      match err with Some e => handler e | None => mret tt end;;
      rest) fr (traced ((name, false) :: names)).
Proof.
  intros Hh Hrest. step_run ExecuteStepWithProgress_run.
  destruct (fn (vars fr)) as [[es x] [[e|]|v]]; cbn [fst snd] in *;
    (eapply wp_eq; [exact Hrun|]); lazy beta iota.
  - apply wp_bind. destruct (Hh e eq_refl) as (cs1 & fr1 & Hrun1 & Hev1).
    eapply wp_eq; [exact Hrun1|]. lazy beta iota.
    eapply wp_mono; [apply Hrest|]. intros cs fr' r Ht.
    unfold traced in *. autorewrite with obs.
    rewrite H0, Hev1. simpl. by apply trace_warn.
  - apply wp_bind.
    apply wp_eq with (cs := []) (fr' := mkFrame x (hasCriticalError fr))
                     (r := Normal tt); [done|].
    eapply wp_mono; [apply Hrest|]. intros cs fr' r Ht.
    unfold traced in *. autorewrite with obs.
    rewrite H0. simpl. by apply trace_complete.
  - unfold traced. autorewrite with obs. rewrite H0. simpl. apply trace_panic.
Qed.

Lemma critical_step_trace taskID name (fn : Closure TaskEffect error)
    (rest : Worker unit) (names : list (string * bool)) fr :
  ((fn (vars fr)).2 = Ret None →
   wp rest (mkFrame (fn (vars fr)).1.2 (hasCriticalError fr)) (traced names)) →
  wp (err ← ExecuteStep taskID name fn;
      match err with
      | Some _ => setCriticalError;; return_
      | None => rest
      end) fr (traced ((name, true) :: names)).
Proof.
  intros Hrest. step_run ExecuteStep_run.
  destruct (fn (vars fr)) as [[es x] [[e|]|v]]; cbn [fst snd] in *;
    (eapply wp_eq; [exact Hrun|]); lazy beta iota.
  - eapply wp_eq; [apply critical_branch|].
    unfold traced. autorewrite with obs. rewrite H0. simpl. apply trace_stop.
  - eapply wp_mono; [by apply Hrest|]. intros cs fr' r Ht.
    unfold traced in *. autorewrite with obs.
    rewrite H0. simpl. by apply trace_complete.
  - unfold traced. autorewrite with obs. rewrite H0. simpl. apply trace_panic.
Qed.

Lemma critical_progress_step_trace taskID name (fn : Closure StepEffect error)
    (rest : Worker unit) (names : list (string * bool)) fr :
  ((fn (vars fr)).2 = Ret None →
   wp rest (mkFrame (fn (vars fr)).1.2 (hasCriticalError fr)) (traced names)) →
  wp (err ← ExecuteStepWithProgress taskID name fn;
      match err with
      | Some _ => setCriticalError;; return_
      | None => rest
      end) fr (traced ((name, true) :: names)).
Proof.
  intros Hrest. step_run ExecuteStepWithProgress_run.
  destruct (fn (vars fr)) as [[es x] [[e|]|v]]; cbn [fst snd] in *;
    (eapply wp_eq; [exact Hrun|]); lazy beta iota.
  - eapply wp_eq; [apply critical_branch|].
    unfold traced. autorewrite with obs. rewrite H0. simpl. apply trace_stop.
  - eapply wp_mono; [by apply Hrest|]. intros cs fr' r Ht.
    unfold traced in *. autorewrite with obs.
    rewrite H0. simpl. by apply trace_complete.
  - unfold traced. autorewrite with obs. rewrite H0. simpl. apply trace_panic.
Qed.

(** With a map in [sourceData], the error branch of the scan step ends
    normally. *)
Lemma scanFailed_run taskID (e : string) fr :
  is_Some (sourceData (vars fr)) →
  ∃ fr', scanFailed taskID e fr
         = ([CallAddTaskLog taskID LogLevelWarning
               (warningText "Scan app configuration" e)], fr', Normal tt).
Proof.
  intros [m Hm].
  unfold scanFailed, setSourceData, modifyWorkerVars, call, mbind, Worker_bind.
  simpl. rewrite Hm. simpl. eauto.
Qed.

Lemma itemSteps_trace taskID (scan merge compose cleanup : Closure StepEffect error)
    fr :
  (∀ e, (scan (vars fr)).2 = Ret (Some e) →
        is_Some (sourceData (scan (vars fr)).1.2)) →
  wp (itemSteps taskID scan merge compose cleanup) fr (traced itemPipeline).
Proof.
  intros Hscan. unfold itemSteps, itemPipeline.
  apply (noncritical_step_trace _ _ _ (scanFailed taskID)).
  { intros e He.
    destruct (scanFailed_run taskID e
                (mkFrame (scan (vars fr)).1.2 (hasCriticalError fr)))
      as [fr' Hrun]; [exact (Hscan e He)|].
    eexists _, _. split; [exact Hrun|done]. }
  intros fr1. apply (noncritical_step_trace _ _ _ (mergeFailed taskID));
    [intros; eexists _, _; by split|].
  intros fr2. apply (noncritical_step_trace _ _ _ (composeFailed taskID));
    [intros; eexists _, _; by split|].
  intros fr3. apply (noncritical_step_trace _ _ _ (cleanupFailed taskID));
    [intros; eexists _, _; by split|].
  intros fr4. unfold wp, traced. simpl. apply trace_end.
Qed.

Lemma executeDataImport_body_trace taskID (st : ImportSteps) fr :
  assignsSourceData (imp_parse st) (imp_scan st) →
  wp (executeDataImport_body taskID st) fr (traced importPipeline).
Proof.
  intros [Hacquire Hscan]. unfold executeDataImport_body, importPipeline.
  apply critical_step_trace. intros _.
  apply critical_progress_step_trace. intros Hparse.
  apply itemSteps_trace. intros e He. cbn [vars].
  apply (Hscan _ e); [|done]. by apply Hacquire.
Qed.

Lemma executeOnlineMigration_body_trace taskID (st : OnlineSteps) fr :
  assignsSourceData (onl_download st) (onl_scan st) →
  wp (executeOnlineMigration_body taskID st) fr (traced onlinePipeline).
Proof.
  intros [Hacquire Hscan]. unfold executeOnlineMigration_body, onlinePipeline.
  apply critical_step_trace. intros _.
  apply critical_step_trace. intros _.
  apply critical_progress_step_trace. intros Hdownload.
  apply itemSteps_trace. intros e He. cbn [vars].
  apply (Hscan _ e); [|done]. by apply Hacquire.
Qed.

Lemma executeDataExport_body_trace (os : OS) taskID (st : ExportSteps) fr :
  wp (executeDataExport_body os taskID st) fr (traced exportPipeline).
Proof.
  unfold executeDataExport_body, exportPipeline.
  apply critical_step_trace. intros _.
  apply critical_progress_step_trace. intros _.
  unfold wp, traced. simpl. apply trace_end.
Qed.

(** *** The closures of the code assign [sourceData] *)

Ltac run_closure :=
  unfold mbind, mret, Closure_bind, Closure_ret, progressCallback, addTaskLog,
    emit, extern, reporting, modifyVars, getVars, closureSetSourceData;
  cbn [fst snd].

Lemma importParse_assigns (env : ImportEnv) (task : MigrationTask) (x : Vars) :
  (importParse env task x).2 = Ret None →
  is_Some (sourceData (importParse env task x).1.2).
Proof.
  unfold importParse.
  destruct (Options task !! "import_file") as [[]|]; try done.
  destruct (String.eqb _ ""); [done|].
  run_closure.
  destruct (osMkdirAll env _) as [es1 [[e1|]|v1]]; try done. cbn.
  destruct (detectFileFormat env _) as [es2 [[f|e2]|v2]]; try done. cbn.
  destruct (String.eqb f "gzip").
  - destruct (extractTarGz env _ _) as [es3 [[e3|]|v3]]; try done; cbn; eauto.
  - destruct (String.eqb f "zip"); [|done].
    destruct (extractZipFile env _ _) as [es3 [[e3|]|v3]]; try done; cbn; eauto.
Qed.

Lemma importScan_keeps (env : ImportEnv) (task : MigrationTask) (x : Vars)
    (e : string) :
  is_Some (sourceData x) → (importScan env task x).2 = Ret (Some e) →
  is_Some (sourceData (importScan env task x).1.2).
Proof.
  intros [m Hm]. unfold importScan. run_closure.
  destruct (sourceString "extractedPath" x); cbn; [|by rewrite Hm; eauto].
  destruct (readComposeFiles env _) as [es1 [[files|e1]|v1]]; cbn;
    rewrite ?Hm; cbn; by eauto.
Qed.

Lemma importSteps_assign (env : ImportEnv) (task : MigrationTask) :
  assignsSourceData (importParse env task) (importScan env task).
Proof.
  split; [apply importParse_assigns|apply importScan_keeps].
Qed.

Lemma onlineDownload_assigns (env : OnlineEnv) (task : MigrationTask) (x : Vars) :
  (onlineDownload env task x).2 = Ret None →
  is_Some (sourceData (onlineDownload env task x).1.2).
Proof.
  unfold onlineDownload. run_closure.
  destruct (downloadCasaOSFiles env _) as [es1 [[p1|e1]|v1]]; try done. cbn.
  destruct (extractDownloadedFiles env _) as [es2 [[p2|e2]|v2]]; try done;
    cbn; eauto.
Qed.

Lemma onlineSteps_assign (oenv : OnlineEnv) (env : ImportEnv)
    (task : MigrationTask) :
  assignsSourceData (onlineDownload oenv task) (onlineScan env task).
Proof.
  split; [apply onlineDownload_assigns|apply importScan_keeps].
Qed.

(** *** What a trace tells *)

Lemma trace_nil (pipeline : list (string * bool)) (r : Res unit) :
  pipelineTrace pipeline r [] → r = Normal tt.
Proof. by inversion 1. Qed.

(** The run ended in a panic exactly when it ended inside a step. *)
Lemma trace_panicked (pipeline : list (string * bool)) (r : Res unit)
    (events : list StepEvent) :
  pipelineTrace pipeline r events →
  (∃ v, r = Panicked v) ↔ endsInStep events.
Proof.
  unfold endsInStep. induction 1 as [|step crit rest r events Ht IH
    |step rest r e events Ht IH|step rest e|step crit rest v].
  - split; [by intros [? ?]|by intros [? ?]].
  - destruct events as [|ev events].
    + apply trace_nil in Ht as ->. split; [by intros [? ?]|by intros [? [=]]].
    + by rewrite !last_cons_cons.
  - destruct events as [|ev events].
    + apply trace_nil in Ht as ->. split; [by intros [? ?]|by intros [? [=]]].
    + by rewrite !last_cons_cons.
  - split; [by intros [? ?]|by intros [? [=]]].
  - split; eauto.
Qed.

Lemma trace_steps (pipeline : list (string * bool)) (r : Res unit)
    (events : list StepEvent) :
  pipelineTrace pipeline r events →
  ∀ ev, ev ∈ events → eventStep ev ∈ pipeline.*1.
Proof.
  induction 1 as [|step crit rest r events Ht IH
    |step rest r e events Ht IH|step rest e|step crit rest v];
    intros ev Hin; set_unfold in Hin; destruct_or?; simplify_eq; simpl;
    try apply list_elem_of_here; try done.
  - apply list_elem_of_further. by apply IH.
  - apply list_elem_of_further. by apply IH.
Qed.

Lemma trace_head (step : string) (crit : bool) (rest : list (string * bool))
    (r : Res unit) (events : list StepEvent) :
  pipelineTrace ((step, crit) :: rest) r events → StepStart step ∈ events.
Proof. inversion 1; subst; apply list_elem_of_here. Qed.

(** After a non-critical step that returned an error, the step that
    follows it in the pipeline is started. *)
Lemma trace_next (pipeline : list (string * bool)) (r : Res unit)
    (events : list StepEvent) :
  pipelineTrace pipeline r events → NoDup pipeline.*1 →
  ∀ i step e next,
    pipeline !! i = Some (step, false) → StepError step e ∈ events →
    pipeline.*1 !! S i = Some next → StepStart next ∈ events.
Proof.
  induction 1 as [|step0 crit rest r events Ht IH
    |step0 rest r e0 events Ht IH|step0 rest e0|step0 crit rest v];
    intros Hnd i step e next Hi Hin Hnext; [done| | | |].
  - apply NoDup_cons in Hnd as [Hfresh Hnd].
    apply elem_of_cons in Hin as [?|Hin]; [done|].
    apply elem_of_cons in Hin as [?|Hin]; [done|].
    do 2 apply list_elem_of_further.
    destruct i as [|i]; simpl in Hi, Hnext.
    + simplify_eq. destruct Hfresh.
      apply (trace_steps _ _ _ Ht _ Hin).
    + by apply (IH Hnd i step e next).
  - apply NoDup_cons in Hnd as [Hfresh Hnd].
    do 2 apply list_elem_of_further.
    destruct i as [|i]; simpl in Hi, Hnext.
    + destruct rest as [|[n c] rest]; [done|]. simpl in Hnext. simplify_eq.
      by eapply trace_head.
    + apply elem_of_cons in Hin as [?|Hin]; [done|].
      apply elem_of_cons in Hin as [Heq|Hin].
      * simplify_eq. destruct Hfresh. apply list_elem_of_fmap.
        exists (step0, false). split; [done|]. by eapply list_elem_of_lookup_2.
      * by apply (IH Hnd i step e next).
  - apply NoDup_cons in Hnd as [Hfresh Hnd].
    destruct i as [|i]; simpl in Hi; [done|].
    apply elem_of_cons in Hin as [?|Hin]; [done|].
    apply elem_of_cons in Hin as [Heq|Hin]; [|by apply elem_of_nil in Hin].
    simplify_eq. destruct Hfresh. apply list_elem_of_fmap.
    exists (step0, false). split; [done|]. by eapply list_elem_of_lookup_2.
  - apply elem_of_cons in Hin as [?|Hin]; [done|]. by apply elem_of_nil in Hin.
Qed.

Lemma trace_returned (pipeline : list (string * bool)) (r : Res unit)
    (events : list StepEvent) :
  pipelineTrace pipeline r events → r = Returned →
  ∃ step, (step, true) ∈ pipeline.
Proof.
  induction 1 as [|step0 crit rest r events Ht IH
    |step0 rest r e0 events Ht IH|step0 rest e0|step0 crit rest v];
    intros Hr; try done.
  - destruct (IH Hr) as [step Hstep]. exists step. by apply list_elem_of_further.
  - destruct (IH Hr) as [step Hstep]. exists step. by apply list_elem_of_further.
  - exists step0. apply list_elem_of_here.
Qed.

Lemma criticalFirst_tail (p : string * bool) (rest : list (string * bool)) :
  criticalFirst (p :: rest) = true → criticalFirst rest = true.
Proof.
  destruct p as [step [|]]; simpl; [done|].
  induction rest as [|[n [|]] rest IH]; simpl; done.
Qed.

(** In a pipeline whose critical steps come first, a run in which a
    non-critical step returned an error does not end by the early return. *)
Lemma trace_not_returned (pipeline : list (string * bool)) (r : Res unit)
    (events : list StepEvent) :
  pipelineTrace pipeline r events → NoDup pipeline.*1 →
  criticalFirst pipeline = true →
  ∀ step e, StepError step e ∈ events → (step, false) ∈ pipeline →
  r ≠ Returned.
Proof.
  induction 1 as [|step0 crit rest r events Ht IH
    |step0 rest r e0 events Ht IH|step0 rest e0|step0 crit rest v];
    intros Hnd Hcf step e Hin Hstep; try done.
  - apply NoDup_cons in Hnd as [Hfresh Hnd].
    apply elem_of_cons in Hin as [?|Hin]; [done|].
    apply elem_of_cons in Hin as [?|Hin]; [done|].
    apply (IH Hnd (criticalFirst_tail _ _ Hcf) step e Hin).
    apply elem_of_cons in Hstep as [Heq|Hstep]; [|done].
    simplify_eq. destruct Hfresh. apply (trace_steps _ _ _ Ht _ Hin).
  - intros ->. destruct (trace_returned _ _ _ Ht eq_refl) as [n Hn].
    simpl in Hcf. rewrite forallb_forall in Hcf.
    apply list_elem_of_In in Hn. by apply Hcf in Hn.
  - apply NoDup_cons in Hnd as [Hfresh Hnd].
    apply elem_of_cons in Hin as [?|Hin]; [done|].
    apply elem_of_cons in Hin as [Heq|Hin]; [|by apply elem_of_nil in Hin].
    simplify_eq.
    apply elem_of_cons in Hstep as [?|Hstep]; [done|].
    destruct Hfresh. apply list_elem_of_fmap. by exists (step0, false).
Qed.

Lemma startedSteps_events (cs : list Call) :
  startedSteps cs = omap startedBy (stepEvents cs).
Proof.
  induction cs as [|c cs IH]; [done|].
  change (startedSteps (c :: cs))
    with (match startedStep c with
          | Some st => st :: startedSteps cs
          | None => startedSteps cs
          end).
  change (stepEvents (c :: cs))
    with (match stepEvent c with
          | Some ev => ev :: stepEvents cs
          | None => stepEvents cs
          end).
  rewrite IH. by destruct c.
Qed.

(** The steps are started in the order of the pipeline, none left out. *)
Lemma trace_started (pipeline : list (string * bool)) (r : Res unit)
    (events : list StepEvent) :
  pipelineTrace pipeline r events →
  omap startedBy events `prefix_of` pipeline.*1.
Proof.
  induction 1 as [|step0 crit rest r events Ht IH
    |step0 rest r e0 events Ht IH|step0 rest e0|step0 crit rest v]; simpl.
  - done.
  - by apply prefix_cons.
  - by apply prefix_cons.
  - apply prefix_cons, prefix_nil.
  - apply prefix_cons, prefix_nil.
Qed.

Lemma started_event (step : string) (cs : list Call) :
  step ∈ startedSteps cs ↔ StepStart step ∈ stepEvents cs.
Proof.
  unfold startedSteps, stepEvents. rewrite !list_elem_of_omap. split.
  - intros (c & Hc & Hs). exists c. split; [done|]. destruct c; simpl in *; by simplify_eq.
  - intros (c & Hc & Hs). exists c. split; [done|]. destruct c; simpl in *; by simplify_eq.
Qed.

(** *** From the body of a worker to its run *)

Lemma policy_from_body (taskID panicPrefix criticalText completedText : string)
    (save : bool) (pipeline : list (string * bool)) (body : Worker unit)
    (s : TaskService) (task : MigrationTask) :
  tasks (store s) !! taskID = Some task →
  NoDup pipeline.*1 → criticalFirst pipeline = true →
  wp body initFrame (bodyPost pipeline taskID) →
  wp body initFrame (traced pipeline) →
  errorPolicy taskID pipeline
    (call (CallUpdateTaskStatus taskID TaskStatusRunning);;
     deferRecover
       (workerDeferred taskID panicPrefix criticalText completedText save) body) s.
Proof.
  intros Ht Hnd Hcf Hpost Htrace.
  destruct (terminal_from_body taskID panicPrefix criticalText completedText save
              pipeline body s task Ht Hpost) as [Hterm Hpol].
  unfold terminalDecision, failurePolicy in Hterm, Hpol. unfold errorPolicy.
  destruct (body initFrame) as [[cs fr] r] eqn:Hb.
  pose proof (wp_run _ _ _ Hpost _ _ _ Hb) as (B1 & B2 & B3 & B4).
  pose proof (wp_run _ _ _ Htrace _ _ _ Hb) as Htr. unfold traced in Htr.
  rewrite (worker_run taskID panicPrefix criticalText completedText save
             body _ _ _ _ Hb) in *.
  cbv zeta in *. cbn [fst snd] in *.
  destruct (deferredCalls_obs taskID panicPrefix criticalText completedText save
              (recoveredPanic r) fr) as (D1 & D2 & D3 & D4 & D5).
  set (dcs := deferredCalls taskID panicPrefix criticalText completedText save
                (recoveredPanic r) fr) in *.
  set (wcs := CallUpdateTaskStatus taskID TaskStatusRunning :: cs ++ dcs) in *.
  assert (Hev : stepEvents wcs = stepEvents cs).
  { change (stepEvents wcs) with (stepEvents (cs ++ dcs)).
    by rewrite stepEvents_app, D2, app_nil_r. }
  assert (Hst : startedSteps wcs = startedSteps cs).
  { change (startedSteps wcs) with (startedSteps (cs ++ dcs)).
    by rewrite startedSteps_app, D3, app_nil_r. }
  rewrite Hev, Hst.
  destruct Hterm as (_ & _ & Hfailed & Hcompleted & _).
  intros i step crit e Hi Hin. specialize (Hpol i step crit e Hi Hin).
  destruct crit; [done|]. destruct Hpol as [Hwarn Hall].
  assert (Hret : r ≠ Returned).
  { apply (trace_not_returned _ _ _ Htr Hnd Hcf step e Hin).
    by eapply list_elem_of_lookup_2. }
  assert (Hnc : ¬ criticalFailure pipeline wcs).
  { intros (step' & e' & Hstep' & Hin'). rewrite Hev in Hin'.
    apply list_elem_of_lookup_1 in Hstep' as [j Hj].
    by destruct (B4 j step' true e' Hj Hin') as (_ & _ & ?). }
  pose proof (trace_panicked _ _ _ Htr) as Hpanic.
  split_and!.
  - apply list_elem_of_further, elem_of_app. by left.
  - rewrite startedSteps_events. by eapply trace_started.
  - intros next Hnext. apply started_event.
    by apply (trace_next _ _ _ Htr Hnd i step e next).
  - rewrite Hfailed, <- Hpanic. tauto.
  - rewrite Hcompleted, <- Hpanic. tauto.
  - intros Hn. apply Hall. intros v ->. apply Hn, Hpanic. eauto.
Qed.

Lemma pipelines_criticalFirst :
  criticalFirst onlinePipeline = true ∧ criticalFirst exportPipeline = true ∧
  criticalFirst importPipeline = true.
Proof. done. Qed.

(** The error policy of the workers, for closures that assign
    [sourceData] as those of the code do. *)
Lemma workers_error_policy (os : OS) taskID (onl : OnlineSteps)
    (exp : ExportSteps) (imp : ImportSteps) s (task : MigrationTask) :
  tasks (store s) !! taskID = Some task →
  assignsSourceData (onl_download onl) (onl_scan onl) →
  assignsSourceData (imp_parse imp) (imp_scan imp) →
  errorPolicy taskID onlinePipeline (executeOnlineMigration taskID onl) s ∧
  errorPolicy taskID exportPipeline (executeDataExport os taskID exp) s ∧
  errorPolicy taskID importPipeline (executeDataImport taskID imp) s.
Proof.
  intros Ht Honl Himp.
  destruct pipelines_NoDup as (N1 & N2 & N3).
  destruct pipelines_criticalFirst as (F1 & F2 & F3).
  split_and!.
  - eapply policy_from_body; [done..| |].
    + by apply executeOnlineMigration_body_post.
    + by apply executeOnlineMigration_body_trace.
  - eapply policy_from_body; [done..| |].
    + by apply executeDataExport_body_post.
    + by apply executeDataExport_body_trace.
  - eapply policy_from_body; [done..| |].
    + by apply executeDataImport_body_post.
    + by apply executeDataImport_body_trace.
Qed.


End ErrorPolicy.

(** ** The results a worker writes *)

Lemma applyCall_result (taskID : string) (c : Call) (s : TaskService)
    (task : MigrationTask) :
  tasks (store s) !! taskID = Some task →
  ∃ task', tasks (store (applyCall c s)) !! taskID = Some task' ∧
           Result task' = match resultWrite taskID c with
                          | Some v => Some (resultMap v)
                          | None => Result task
                          end.
Proof.
  intros Ht. destruct c as [id st|id lv msg|id p|id r|id a b|id a b|id a b e|id p a b];
    simpl; try (exists task; done).
  - unfold Services.UpdateTaskStatus, Storage.UpdateTaskStatus.
    destruct (tasks (store s) !! id) as [t|] eqn:Hid; simpl; [|eauto].
    assert (Hl : ∃ task', <[id := set_Status st t]> (tasks (store s)) !! taskID
                          = Some task' ∧ Result task' = Result task).
    { destruct (decide (id = taskID)) as [->|Hne].
      - rewrite lookup_insert_eq. simplify_eq. eauto.
      - rewrite lookup_insert_ne by done. eauto. }
    repeat case_match; simpl; done.
  - unfold Services.UpdateTaskProgress, Storage.UpdateTaskProgress.
    destruct (tasks (store s) !! id) as [t|] eqn:Hid; simpl; [|eauto].
    destruct (decide (id = taskID)) as [->|Hne].
    + rewrite lookup_insert_eq. simplify_eq. eauto.
    + rewrite lookup_insert_ne by done. eauto.
  - unfold Services.SetTaskResult, Storage.SetTaskResult.
    destruct (tasks (store s) !! id) as [t|] eqn:Hid; simpl.
    + destruct (String.eqb id taskID) eqn:E.
      * apply String.eqb_eq in E as ->. rewrite lookup_insert_eq.
        eexists. split; [done|]. simpl. by destruct r.
      * apply String.eqb_neq in E. rewrite lookup_insert_ne by done. eauto.
    + destruct (String.eqb id taskID) eqn:E; [|eauto].
      apply String.eqb_eq in E as ->. congruence.
Qed.

Lemma resultWrites_cons (taskID : string) (c : Call) (cs : list Call) :
  resultWrites taskID (c :: cs)
  = match resultWrite taskID c with
    | Some v => v :: resultWrites taskID cs
    | None => resultWrites taskID cs
    end.
Proof. reflexivity. Qed.

Lemma last_cons_default {A} (x : A) (l : list A) :
  last (x :: l) = Some (default x (last l)).
Proof.
  revert x. induction l as [|a l IH]; intros x; [done|].
  rewrite last_cons_cons. by rewrite !IH.
Qed.

(** After a sequence of calls the result of a task is the last one
    written to it, or the one it had. *)
Lemma applyCalls_result (taskID : string) (cs : list Call) (s : TaskService)
    (task : MigrationTask) :
  tasks (store s) !! taskID = Some task →
  taskResult taskID (applyCalls cs s)
  = Some (match last (resultWrites taskID cs) with
          | Some v => Some (resultMap v)
          | None => Result task
          end).
Proof.
  revert s task. induction cs as [|c cs IH]; intros s task Ht.
  - unfold taskResult. simpl. by rewrite Ht.
  - destruct (applyCall_result taskID c s task Ht) as (task' & Ht' & Hr).
    change (applyCalls (c :: cs) s) with (applyCalls cs (applyCall c s)).
    rewrite (IH _ _ Ht'). f_equal. rewrite Hr, resultWrites_cons.
    destruct (resultWrite taskID c) as [v|]; [|done].
    rewrite last_cons_default. by destruct (last (resultWrites taskID cs)).
Qed.

(** The loop of [calculateImportSummary] from any starting counts. *)
Lemma countOverall_cons (p : string → bool) (x : AppImportStatus)
    (l : list AppImportStatus) :
  countOverall p (x :: l)
  = (if p (OverallStatus x) then 1 else 0) + countOverall p l.
Proof.
  unfold countOverall. rewrite filter_cons.
  destruct (p (OverallStatus x)) eqn:E.
  - rewrite decide_True by done. simpl length. lia.
  - rewrite decide_False by done. lia.
Qed.

Lemma summary_loop (l : list AppImportStatus) (t a b : Z) :
  fold_left summaryStep l (mkImportSummary t a b)
  = mkImportSummary t
      (a + countOverall (fun st => String.eqb st AppStatusSuccess) l)
      (b + countOverall (fun st => negb (String.eqb st AppStatusSuccess)) l).
Proof.
  revert a b. induction l as [|x l IH]; intros a b.
  - unfold countOverall. simpl. f_equal; lia.
  - rewrite !countOverall_cons.
    change (fold_left summaryStep (x :: l) (mkImportSummary t a b))
      with (fold_left summaryStep l (summaryStep (mkImportSummary t a b) x)).
    unfold summaryStep.
    destruct (String.eqb (OverallStatus x) AppStatusSuccess); simpl;
      rewrite IH; f_equal; lia.
Qed.

Lemma calculateImportSummary_counts (l : list AppImportStatus) :
  let summary := calculateImportSummary l in
  TotalApps summary = Z.of_nat (length l) ∧
  SuccessApps summary = countOverall (fun st => String.eqb st "success") l ∧
  FailedApps summary = countOverall (fun st => negb (String.eqb st "success")) l ∧
  TotalApps summary = SuccessApps summary + FailedApps summary.
Proof.
  unfold calculateImportSummary. rewrite summary_loop. simpl.
  split_and!; try done. unfold AppStatusSuccess.
  induction l as [|x l IH]; [done|]. rewrite !countOverall_cons.
  destruct (String.eqb (OverallStatus x) "success"); simpl negb; simpl length; lia.
Qed.

Lemma results_from_body (taskID panicPrefix criticalText completedText : string)
    (pipeline : list (string * bool)) (body : Worker unit)
    (s : TaskService) (task : MigrationTask) :
  tasks (store s) !! taskID = Some task →
  wp body initFrame (bodyPost pipeline taskID) →
  resultsRecomputed taskID
    (call (CallUpdateTaskStatus taskID TaskStatusRunning);;
     deferRecover
       (workerDeferred taskID panicPrefix criticalText completedText true) body) s.
Proof.
  intros Ht Hpost.
  destruct (body initFrame) as [[cs fr] r] eqn:Hb.
  pose proof (wp_run _ _ _ Hpost _ _ _ Hb) as (B1 & B2 & B3 & B4).
  unfold resultsRecomputed.
  rewrite (worker_run taskID panicPrefix criticalText completedText true
             body _ _ _ _ Hb).
  cbv zeta. cbn [fst snd].
  destruct (deferredCalls_obs taskID panicPrefix criticalText completedText true
              (recoveredPanic r) fr) as (D1 & D2 & D3 & D4 & D5).
  rewrite (applyCalls_result _ _ _ _ Ht).
  rewrite resultWrites_cons. simpl resultWrite. rewrite resultWrites_app.
  split; [by apply Forall_app|].
  rewrite last_app, (D5 eq_refl). done.
Qed.

Lemma status_from_body (taskID panicPrefix criticalText completedText : string)
    (save : bool) (pipeline : list (string * bool)) (body : Worker unit)
    (s : TaskService) (task : MigrationTask) :
  tasks (store s) !! taskID = Some task →
  wp body initFrame (bodyPost pipeline taskID) →
  overwritesStatus taskID
    (call (CallUpdateTaskStatus taskID TaskStatusRunning);;
     deferRecover
       (workerDeferred taskID panicPrefix criticalText completedText save) body) s.
Proof.
  intros Ht Hpost.
  destruct (body initFrame) as [[cs fr] r] eqn:Hb.
  pose proof (wp_run _ _ _ Hpost _ _ _ Hb) as (B1 & B2 & B3 & B4).
  unfold overwritesStatus.
  rewrite (worker_run taskID panicPrefix criticalText completedText save
             body _ _ _ _ Hb).
  cbv zeta. cbn [fst snd].
  destruct (deferredCalls_obs taskID panicPrefix criticalText completedText save
              (recoveredPanic r) fr) as (D1 & D2 & D3 & D4 & D5).
  split.
  - eexists. rewrite statusWrites_cons. simpl statusWrite. rewrite String.eqb_refl.
    rewrite statusWrites_app, B1, D1. split; [|reflexivity].
    destruct (bool_decide (is_Some (recoveredPanic r)) || hasCriticalError fr);
      set_solver.
  - intros before after status Hcs Hne. rewrite Hcs.
    rewrite !(applyCalls_status _ _ _ _ Ht). f_equal. f_equal.
    rewrite !statusWrites_app, statusWrites_cons. simpl statusWrite.
    rewrite String.eqb_refl, !last_app, last_cons_default.
    destruct (last (statusWrites taskID after)) as [y|] eqn:E; [done|].
    apply last_None in E. done.
Qed.

(** The final status write of a worker is unconditional: each of the
    three workers writes the status "running" and then one of "completed"
    and "failed", and a status written to the task by anyone else before
    the worker's last status write does not change the status the run ends
    with. *)
Lemma worker_overwrites_status (os : OS) (taskID : string) (onl : OnlineSteps)
    (exp : ExportSteps) (imp : ImportSteps) (s : TaskService)
    (task : MigrationTask) :
  tasks (store s) !! taskID = Some task →
  overwritesStatus taskID (executeOnlineMigration taskID onl) s ∧
  overwritesStatus taskID (executeDataExport os taskID exp) s ∧
  overwritesStatus taskID (executeDataImport taskID imp) s.
Proof.
  intros Ht. split_and!.
  - eapply status_from_body; [done|]. by apply executeOnlineMigration_body_post.
  - eapply status_from_body; [done|]. by apply executeDataExport_body_post.
  - eapply status_from_body; [done|]. by apply executeDataImport_body_post.
Qed.

(** ** The import closures: what a step returns *)

Lemma Closure_bind_Ret {E A B} (m : Closure E A) (f : A → Closure E B)
    (x x' : Vars) (es : list E) (b : B) :
  (m ≫= f) x = (es, x', Ret b) →
  ∃ es1 x1 a es2, m x = (es1, x1, Ret a) ∧ f a x1 = (es2, x', Ret b) ∧
                  es = es1 ++ es2.
Proof.
  unfold mbind, Closure_bind. destruct (m x) as [[es1 x1] [a|v]]; [|done].
  destruct (f a x1) as [[es2 x2] r] eqn:Ef. intros [= <- <- <-]. eauto 8.
Qed.

Ltac closure_inv H :=
  repeat (apply Closure_bind_Ret in H as (? & ? & ? & ? & _ & H & _)).

(** The merge and the compose step return an error only when the data of
    an earlier step is missing; a failure of an item's upload or import is
    recorded on the item and logged, and is not returned.  The cleanup
    step returns no error. *)
Lemma importMerge_error (env : ImportEnv) (task : MigrationTask)
    (x x' : Vars) (es : list StepEffect) (e : string) :
  importMerge env task x = (es, x', Ret (Some e)) →
  e = "Extracted path not found".
Proof.
  unfold importMerge. intros H.
  apply Closure_bind_Ret in H as (? & ? & y & ? & _ & H & _).
  destruct (sourceString "extractedPath" y); [|by injection H as [= <-]].
  destruct (negb _); closure_inv H; discriminate H.
Qed.

Lemma importCompose_error (env : ImportEnv) (task : MigrationTask)
    (x x' : Vars) (es : list StepEffect) (e : string) :
  importCompose env task x = (es, x', Ret (Some e)) →
  e = "Compose file data not found".
Proof.
  unfold importCompose. intros H.
  apply Closure_bind_Ret in H as (? & ? & y & ? & _ & H & _).
  destruct (default ∅ (sourceData y) !! "composeFiles") as [[]|];
    try by injection H as [= <-].
  destruct (bool_decide _); closure_inv H; discriminate H.
Qed.

Lemma importCleanup_error (env : ImportEnv) (task : MigrationTask) (x : Vars) :
  (importCleanup env task x).2 = Ret None.
Proof. reflexivity. Qed.

(** ** The code at concrete inputs *)

Section Concrete.
Import Samples.

(** C4.  The import worker at [envX] (one application with AppData, whose
    upload is refused): after the AppData outcome has been written and the
    list persisted, a status query finds the task running and the item
    with AppData status "failed" and overall status still "pending",
    where the derivation rule gives "failed"; the overall status is only
    recomputed after the compose import. *)
Theorem overall_status_stale_after_merge :
  let cs := (runDataImport envX taskX).1.1 in
  let s := applyCalls (take 44 cs) serviceX in
  ∃ view a,
    (GetImportStatus "t1" 0 0 NewHandler s).1.1
    = mkHTTPResponse 200 true "Import status retrieved" (DataImportStatus view) ∧
    isr_Status view = "running" ∧
    isr_Apps view = [a] ∧
    HasAppData a = true ∧ AppDataStatus a = "failed" ∧
    ComposeStatus a = "pending" ∧ OverallStatus a = "pending" ∧
    calculateOverallStatus a = "failed".
Proof. vm_compute. eexists _, _. split_and!; reflexivity. Qed.

(** The sibling path: what the compose step writes to an item always
    carries the overall status given by the derivation rule. *)
Lemma composeOutcome_consistent (err : error) (a : AppImportStatus) :
  OverallStatus (composeOutcome err a)
  = calculateOverallStatus (composeOutcome err a).
Proof. unfold composeOutcome. by destruct err. Qed.

(** The import worker when the target cannot be reached: the first step
    is the only one started, the task ends failed, and the result written
    on the way out carries an empty item list. *)
Example import_target_unreachable :
  let cs := (runDataImport envOffline taskX).1.1 in
  statusWrites "t1" cs = ["running"; "failed"] ∧
  stepEvents cs
  = [StepStart "Test target system connection";
     StepError "Test target system connection" "Target connection failed: answer"] ∧
  omap storedApps (resultWrites "t1" cs) = [[]] ∧
  taskStatus "t1" (applyCalls cs serviceX) = Some "failed".
Proof. vm_compute. split_and!; reflexivity. Qed.

(** The import worker when the scan fails: a warning is logged, all the
    later steps run on an empty item list, and the task ends completed. *)
Example import_scan_failure_continues :
  let cs := (runDataImport envNoApps taskX).1.1 in
  statusWrites "t1" cs = ["running"; "completed"] ∧
  CallAddTaskLog "t1" "warning"
    ("Failed to scan app configuration: " +:+
     "Failed to read compose files: apps directory does not exist" +:+
     ", continuing with next steps") ∈ cs ∧
  startedSteps cs = importPipeline.*1 ∧
  omap storedApps (resultWrites "t1" cs) = [[]; []].
Proof.
  vm_compute. split_and!; try reflexivity.
  repeat first [apply list_elem_of_here | apply list_elem_of_further].
Qed.

(** The import worker when the upload of an item's AppData faults: the
    panic is recovered, the task ends failed with an error log, and the
    items scanned so far are written to the result. *)
Example import_panic_recovered :
  let run := runDataImport envCrash taskX in
  let cs := run.1.1 in
  run.2 = Normal tt ∧
  statusWrites "t1" cs = ["running"; "failed"] ∧
  CallAddTaskLog "t1" "error"
    ("Panic occurred during import: " +:+
     "invalid memory address or nil pointer dereference") ∈ cs ∧
  omap storedSummary (resultWrites "t1" cs) = [mkImportSummary 1 0 1].
Proof.
  vm_compute. split_and!; try reflexivity.
  repeat first [apply list_elem_of_here | apply list_elem_of_further].
Qed.

(** C9 as stated fails.  Deleting the task "t1" twice: the first call
    succeeds, the second is answered with the error "task not found" by
    the store and with status 404 by the handler. *)
Lemma second_delete_is_an_error :
  let s1 := (Handlers.DeleteTask "t1" serviceX).2 in
  http_Status (Handlers.DeleteTask "t1" serviceX).1 = 200 ∧
  (Storage.DeleteTask "t1" (store s1)).1 = Some "task not found" ∧
  (Handlers.DeleteTask "t1" s1).1
  = mkHTTPResponse 404 false "task not found" DataNone.
Proof. vm_compute. split_and!; reflexivity. Qed.

(** ** Instances *)


(** Deleting "t1" from a store that holds only this task, twice. *)
Lemma delete_twice_not_found_witness :
  Handlers.DeleteTask "t1" serviceX
  = (mkHTTPResponse 200 true "Task deleted successfully" DataNone,
     NewTaskService) ∧
  Storage.DeleteTask "t1" (store NewTaskService)
  = (Some ErrTaskNotFound, store NewTaskService) ∧
  Handlers.DeleteTask "t1" NewTaskService
  = (mkHTTPResponse 404 false ErrTaskNotFound DataNone, NewTaskService).
Proof.
  split; [by vm_compute|].
  apply (delete_twice_not_found "t1" serviceX NewTaskService
           (mkHTTPResponse 200 true "Task deleted successfully" DataNone)).
  - by vm_compute.
  - reflexivity.
Defined.

(** The view of the task "t2", whose two connections carry a password
    and a token. *)
Lemma GetTaskStatus_scrubs_witness :
  ∃ taskCopy heap',
    Handlers.GetTaskStatus "t2" serviceC connHeap
      = (mkHTTPResponse 200 true "Task status retrieved" (DataTask taskCopy),
         serviceC, heap') ∧
    deref heap' (Source taskCopy) = scrub <$> deref connHeap (Source taskC) ∧
    deref heap' (Target taskCopy) = scrub <$> deref connHeap (Target taskC) ∧
    (∀ c, deref heap' (Source taskCopy) = Some c ∨
          deref heap' (Target taskCopy) = Some c →
          Password c = "" ∧ Token c = "") ∧
    (∀ l c, connHeap !! l = Some c → heap' !! l = Some c).
Proof.
  apply (GetTaskStatus_scrubs "t2" serviceC connHeap taskC).
  - discriminate.
  - reflexivity.
  - intros l [H|H]; injection H as <-; vm_compute; eauto.
Defined.


(** Every observer registered at [hubX] has a client record. *)
Lemma hubX_invariant : hubInvariant hubX.
Proof.
  intros taskID c. unfold observers, hubX. simpl.
  destruct (decide (taskID = "t1")) as [->|Hne].
  - rewrite lookup_singleton_eq. simpl. intros Hc.
    apply elem_of_union in Hc as [Hc|Hc]; apply elem_of_singleton in Hc as ->.
    + exists (mkClient makeChan "t1"). by vm_compute.
    + exists (mkClient fullQueue "t1"). by vm_compute.
  - rewrite lookup_singleton_ne by done. simpl. set_solver.
Qed.

(** One event for "t1" at [hubX], which has an observer with room and
    one whose queue is full. *)
Lemma broadcast_delivers_witness :
  let message := mkBroadcastMessage "t1" eventX in
  ∃ m', broadcastIn [2%positive; 1%positive] message hubX = Some m' ∧
    (observers "t1" hubX = ∅ → m' = hubX) ∧
    (∀ c cl, c ∈ observers "t1" hubX → heap hubX !! c = Some cl →
       if hasRoom cl
       then heap m' !! c = Some (enqueued eventX cl) ∧ c ∈ observers "t1" m'
       else heap m' !! c = Some (dropped cl) ∧ c ∉ observers "t1" m') ∧
    (∀ c, c ∉ observers "t1" hubX → heap m' !! c = heap hubX !! c) ∧
    (∀ t, t ≠ "t1" → observers t m' = observers t hubX) ∧
    hubInvariant m'.
Proof.
  apply (broadcast_delivers (mkBroadcastMessage "t1" eventX)
           [2%positive; 1%positive] hubX).
  - apply hubX_invariant.
  - apply (bool_decide_unpack _). by vm_compute.
  - intros c. unfold observers, hubX. simpl. rewrite lookup_singleton_eq. simpl.
    set_solver.
Defined.

(** The hub at [hubX]: the event reaches the first observer, the second
    is dropped and its queue closed, and the producer is not involved. *)
Example broadcast_hubX :
  ∃ m', broadcast (mkBroadcastMessage "t1" eventX) hubX = Some m' ∧
    observers "t1" m' = {[ 1%positive ]} ∧
    (Send <$> heap m' !! 1%positive) = Some (mkChan [eventX] false) ∧
    (closed ∘ Send <$> heap m' !! 2%positive) = Some true.
Proof. vm_compute. eexists. split_and!; reflexivity. Qed.
End Concrete.

(** ** The error policy at concrete inputs *)

Section ErrorPolicyConcrete.
Import Samples Failing Online Policy.

Ltac in_events :=
  vm_compute; repeat first [apply list_elem_of_here | apply list_elem_of_further].


End ErrorPolicyConcrete.

(** ** Where the code departs from the specification *)

(** The statuses a worker writes: "running", then "completed" or
    "failed". *)
Lemma status_writes_from_body
    (taskID panicPrefix criticalText completedText : string)
    (save : bool) (pipeline : list (string * bool)) (body : Worker unit) :
  wp body initFrame (bodyPost pipeline taskID) →
  ∃ terminal, terminal ∈ [TaskStatusCompleted; TaskStatusFailed] ∧
    statusWrites taskID
      ((call (CallUpdateTaskStatus taskID TaskStatusRunning);;
        deferRecover
          (workerDeferred taskID panicPrefix criticalText completedText save)
          body) initFrame).1.1
    = [TaskStatusRunning; terminal].
Proof.
  intros Hpost.
  destruct (body initFrame) as [[cs fr] r] eqn:Hb.
  pose proof (wp_run _ _ _ Hpost _ _ _ Hb) as (B1 & B2 & B3 & B4).
  rewrite (worker_run taskID panicPrefix criticalText completedText save
             body _ _ _ _ Hb).
  cbn [fst snd].
  destruct (deferredCalls_obs taskID panicPrefix criticalText completedText save
              (recoveredPanic r) fr) as (D1 & D2 & D3 & D4 & D5).
  eexists. rewrite statusWrites_cons. simpl statusWrite. rewrite String.eqb_refl.
  rewrite statusWrites_app, B1, D1. split; [|reflexivity].
  destruct (bool_decide (is_Some (recoveredPanic r)) || hasCriticalError fr);
    set_solver.
Qed.

Section Departures.
Import Samples.

(** C5.  The summary counts items that are not failed as failed.  The
    import of an archive with one application, "X", which has an AppData
    directory.  When every collaborator succeeds ([envY]), a query made
    right after the merge step has persisted the outcome of X finds the
    task running with the item "pending" and the summary {total 1,
    success 0, failed 1}, although no item of the list is failed.  When
    the upload of X's AppData runs into a runtime fault ([envCrash]), the
    task ends "failed" and the result the worker leaves is the same:
    failed count 1, no failed item. *)
Theorem summary_counts_pending_as_failed :
  let found (s : TaskService) (status : string) :=
    ∃ m l, taskStatus "t1" s = Some status ∧
           taskResult "t1" s = Some (Some m) ∧
           storedApps (VMap m) = Some l ∧
           OverallStatus <$> l = ["pending"] ∧
           storedSummary (VMap m) = Some (mkImportSummary 1 0 1) ∧
           countOverall (fun st => String.eqb st "failed") l = 0 in
  found (applyCalls (take 44 (runDataImport envY taskX).1.1) serviceX) "running" ∧
  found (applyCalls (runDataImport envCrash taskX).1.1 serviceX) "failed".
Proof.
  split; vm_compute; eexists _, _; split_and!; reflexivity.
Qed.

(** C6.  There is no cancellation.  The request the frontend sends to
    cancel a task, POST /api/tasks/:id/cancel, matches no route, whatever
    the task id: it is answered with the page of the frontend by the
    [NoRoute] handler, which calls no service.  No worker ever writes a
    status other than "running", "completed" and "failed".  So a task of
    which the cancellation is requested while it runs (the import at
    [envX], after the merge step) stays "running" and ends "completed";
    it is never "cancelled". *)
Theorem cancel_request_is_not_served :
  (∀ taskID,
     Router.serve "POST" ["api"; "tasks"; taskID; "cancel"]
     = Router.File "./dist/index.html") ∧
  (∀ (os : OS) taskID (onl : OnlineSteps) (exp : ExportSteps) (imp : ImportSteps),
     Forall (fun worker : Worker unit =>
               ∃ terminal, terminal ∈ [TaskStatusCompleted; TaskStatusFailed] ∧
                 statusWrites taskID (worker initFrame).1.1
                 = [TaskStatusRunning; terminal])
       [executeOnlineMigration taskID onl; executeDataExport os taskID exp;
        executeDataImport taskID imp]) ∧
  (let cs := (runDataImport envX taskX).1.1 in
   let s1 := applyCalls (take 44 cs) serviceX in
   taskStatus "t1" s1 = Some "running" ∧
   statusWrites "t1" (drop 44 cs) = ["completed"] ∧
   taskStatus "t1" (applyCalls (drop 44 cs) s1) = Some "completed").
Proof.
  split_and!.
  - done.
  - intros os taskID onl exp imp. repeat constructor.
    + eapply status_writes_from_body. by apply executeOnlineMigration_body_post.
    + eapply status_writes_from_body. by apply executeDataExport_body_post.
    + eapply status_writes_from_body. by apply executeDataImport_body_post.
  - vm_compute. split_and!; reflexivity.
Qed.

End Departures.

(* ===================================================================== *)
(** * Further properties: the task store *)
(* ===================================================================== *)

Section StoreProperties.
Implicit Types (ms : MemoryStore) (task : MigrationTask) (taskID : string).

Lemma store_update_frame (f : MigrationTask → MigrationTask) taskID task ms :
  tasks ms !! taskID = Some task →
  let ms' := set_tasks (<[taskID := f task]> (tasks ms)) ms in
  Storage.GetTask taskID ms' = (Some (f task), None) ∧
  (∀ other, other ≠ taskID → Storage.GetTask other ms' = Storage.GetTask other ms) ∧
  logs ms' = logs ms.
Proof.
  intros Ht. simpl. unfold Storage.GetTask. simpl. split_and!; [|  |done].
  - by rewrite lookup_insert_eq.
  - intros other Hne. by rewrite lookup_insert_ne.
Qed.

(** X1.  The three update methods of the store need the task: for an
    unknown id each returns [ErrTaskNotFound] and leaves the store as it
    is.  For a stored task each returns no error, and a later [GetTask]
    shows the task with the one field replaced (a result that is not a map
    wrapped under the key "data"), all other ids and the logs being as
    before. *)
Theorem store_updates_need_the_task taskID (status : string) (progress : Z)
    (result : Value) ms :
  match tasks ms !! taskID with
  | None =>
      Storage.UpdateTaskStatus taskID status ms = (Some ErrTaskNotFound, ms) ∧
      Storage.UpdateTaskProgress taskID progress ms = (Some ErrTaskNotFound, ms) ∧
      Storage.SetTaskResult taskID result ms = (Some ErrTaskNotFound, ms)
  | Some task =>
      let changed (r : error * MemoryStore) (task' : MigrationTask) :=
        r.1 = None ∧ Storage.GetTask taskID r.2 = (Some task', None) ∧
        (∀ other, other ≠ taskID →
           Storage.GetTask other r.2 = Storage.GetTask other ms) ∧
        logs r.2 = logs ms in
      changed (Storage.UpdateTaskStatus taskID status ms) (set_Status status task) ∧
      changed (Storage.UpdateTaskProgress taskID progress ms)
              (set_Progress progress task) ∧
      changed (Storage.SetTaskResult taskID result ms)
              (set_Result (Some match result with
                                | VMap m => m
                                | _ => {[ "data" := result ]}
                                end) task)
  end.
Proof.
  destruct (tasks ms !! taskID) as [task|] eqn:Ht.
  - unfold Storage.UpdateTaskStatus, Storage.UpdateTaskProgress,
      Storage.SetTaskResult. rewrite Ht. cbn [fst snd].
    split_and!; try done; by apply store_update_frame.
  - unfold Storage.UpdateTaskStatus, Storage.UpdateTaskProgress,
      Storage.SetTaskResult. by rewrite Ht.
Qed.

(** X2.  Deleting a stored task removes the task and its logs and nothing
    else: afterwards [GetTask] fails and [GetLogs] is empty for the id,
    while download instructions saved under the id are still returned, and
    the other tasks, the logs of other ids and the connections are as
    before. *)
Theorem store_delete_scope taskID task ms :
  tasks ms !! taskID = Some task →
  let ms' := (Storage.DeleteTask taskID ms).2 in
  (Storage.DeleteTask taskID ms).1 = None ∧
  Storage.GetTask taskID ms' = (None, Some ErrTaskNotFound) ∧
  Storage.GetLogs taskID ms' = ([], None) ∧
  Store.GetDownloadInstructions taskID ms' = Store.GetDownloadInstructions taskID ms ∧
  (∀ other, other ≠ taskID →
     Storage.GetTask other ms' = Storage.GetTask other ms ∧
     Storage.GetLogs other ms' = Storage.GetLogs other ms) ∧
  connections ms' = connections ms.
Proof.
  intros Ht. unfold Storage.DeleteTask. rewrite Ht. cbn [fst snd].
  unfold Storage.GetTask, Storage.GetLogs, Store.GetDownloadInstructions. simpl.
  rewrite !lookup_delete_eq. split_and!; try done.
  intros other Hne. by rewrite !lookup_delete_ne.
Qed.

(** X3.  Logs are kept in the order they are added: after adding a list
    of entries one by one, [GetLogs] returns the entries that were there
    followed by the new ones.  No task needs to be stored under the id, the
    logs of other ids are not touched, and [GetLogs] of an id without logs
    is the empty list and no error. *)
Theorem store_logs_append taskID (new : list MigrationLog) ms :
  Storage.GetLogs taskID (Views.addLogs taskID new ms)
  = ((Storage.GetLogs taskID ms).1 ++ new, None) ∧
  (∀ other, other ≠ taskID →
     Storage.GetLogs other (Views.addLogs taskID new ms) = Storage.GetLogs other ms) ∧
  tasks (Views.addLogs taskID new ms) = tasks ms ∧
  (logs ms !! taskID = None → Storage.GetLogs taskID ms = ([], None)).
Proof.
  split_and!.
  - revert ms. induction new as [|log new IH]; intros ms.
    + simpl. rewrite app_nil_r. unfold Storage.GetLogs.
      by destruct (logs ms !! taskID).
    + simpl. rewrite IH. f_equal. rewrite (app_assoc _ [log] new). f_equal.
      unfold Storage.GetLogs, Storage.AddLog. simpl. rewrite lookup_insert_eq.
      by destruct (logs ms !! taskID).
  - intros other Hne. revert ms. induction new as [|log new IH]; intros ms; [done|].
    simpl. rewrite IH. unfold Storage.GetLogs, Storage.AddLog. simpl.
    by rewrite lookup_insert_ne.
  - revert ms. induction new as [|log new IH]; intros ms; [done|].
    simpl. by rewrite IH.
  - intros Hl. unfold Storage.GetLogs. by rewrite Hl.
Qed.

(** X4.  The life of a connection record: once saved it is returned under
    its id; deleting it succeeds once, after which both [GetConnection] and
    a second [DeleteConnection] report [ErrConnectionNotFound] and change
    nothing. *)
Theorem store_connection_lifecycle (conn : SystemConnection) ms :
  let ms1 := (Store.SaveConnection conn ms).2 in
  let ms2 := (Store.DeleteConnection (conn_ID conn) ms1).2 in
  Store.GetConnection (conn_ID conn) ms1 = (Some conn, None) ∧
  (Store.DeleteConnection (conn_ID conn) ms1).1 = None ∧
  Store.GetConnection (conn_ID conn) ms2 = (None, Some Store.ErrConnectionNotFound) ∧
  Store.DeleteConnection (conn_ID conn) ms2 = (Some Store.ErrConnectionNotFound, ms2) ∧
  (∀ other, other ≠ conn_ID conn →
     Store.GetConnection other ms2 = Store.GetConnection other ms) ∧
  tasks ms2 = tasks ms.
Proof.
  simpl. unfold Store.GetConnection, Store.DeleteConnection, Store.SaveConnection.
  simpl. rewrite !lookup_insert_eq. simpl. rewrite !lookup_delete_eq.
  split_and!; try done.
  intros other Hne. by rewrite lookup_delete_ne, lookup_insert_ne.
Qed.

(** X5.  Download instructions: once saved they are returned under the
    task id; deleting them never fails, also when none are stored, and
    afterwards [GetDownloadInstructions] reports
    [ErrDownloadInstructionsNotFound]. *)
Theorem store_instructions_lifecycle taskID (d : DownloadInstructions) ms :
  let ms1 := (Store.SaveDownloadInstructions taskID d ms).2 in
  let ms2 := (Store.DeleteDownloadInstructions taskID ms1).2 in
  Store.GetDownloadInstructions taskID ms1 = (Some d, None) ∧
  (Store.DeleteDownloadInstructions taskID ms1).1 = None ∧
  Store.GetDownloadInstructions taskID ms2
  = (None, Some Store.ErrDownloadInstructionsNotFound) ∧
  (Store.DeleteDownloadInstructions taskID ms2).1 = None ∧
  (Store.DeleteDownloadInstructions taskID ms2).2 = ms2.
Proof.
  simpl. unfold Store.GetDownloadInstructions. simpl.
  rewrite lookup_insert_eq, lookup_delete_eq. split_and!; try done.
  unfold Store.DeleteDownloadInstructions, Store.set_downloadInstructions. simpl.
  by rewrite delete_delete_eq.
Qed.

End StoreProperties.

Section StatsProperties.
Implicit Types (ms : MemoryStore) (taskID : string).

Lemma sumLogs_insert (m : gmap string (list MigrationLog)) (k : string)
    (l : list MigrationLog) :
  m !! k = None → Store.sumLogs (<[k := l]> m) = Store.sumLogs m + Z.of_nat (length l).
Proof.
  intros Hk. unfold Store.sumLogs.
  rewrite (map_fold_insert_L (fun _ (l : list MigrationLog) total =>
                                total + Z.of_nat (length l))); [done| |done].
  intros. lia.
Qed.

Lemma sumLogs_delete (m : gmap string (list MigrationLog)) (k : string) :
  Store.sumLogs (delete k m) = Store.sumLogs m - Z.of_nat (length (default [] (m !! k))).
Proof.
  destruct (m !! k) as [l|] eqn:Hk; simpl.
  - rewrite <- (insert_delete_id m k l Hk) at 2.
    rewrite sumLogs_insert by apply lookup_delete_eq. lia.
  - rewrite delete_id by done. lia.
Qed.

Lemma sumLogs_replace (m : gmap string (list MigrationLog)) (k : string)
    (l : list MigrationLog) :
  Store.sumLogs (<[k := l]> m)
  = Store.sumLogs m - Z.of_nat (length (default [] (m !! k))) + Z.of_nat (length l).
Proof.
  rewrite <- insert_delete_eq. rewrite sumLogs_insert by apply lookup_delete_eq.
  rewrite sumLogs_delete. done.
Qed.

(** X6.  The statistics follow the operations: adding a log entry raises
    "total_logs" by one and leaves "tasks" as it is; saving a task raises
    "tasks" by one if its id is new and leaves it otherwise; deleting a
    stored task lowers "tasks" by one and "total_logs" by the number of
    log entries of the task. *)
Theorem store_stats_accounting taskID (log : MigrationLog)
    (task : MigrationTask) ms :
  let stat key ms := Store.GetStats ms !! key in
  let n := Z.of_nat (size (tasks ms)) in
  stat "tasks" ms = Some (VInt n) ∧
  stat "total_logs" ms = Some (VInt (Store.totalLogs ms)) ∧
  stat "total_logs" (Storage.AddLog taskID log ms).2
  = Some (VInt (Store.totalLogs ms + 1)) ∧
  stat "tasks" (Storage.AddLog taskID log ms).2 = Some (VInt n) ∧
  stat "tasks" (Storage.SaveTask task ms).2
  = Some (VInt (match tasks ms !! ID task with Some _ => n | None => n + 1 end)) ∧
  (is_Some (tasks ms !! taskID) →
   stat "tasks" (Storage.DeleteTask taskID ms).2 = Some (VInt (n - 1)) ∧
   stat "total_logs" (Storage.DeleteTask taskID ms).2
   = Some (VInt (Store.totalLogs ms
                 - Z.of_nat (length (Storage.GetLogs taskID ms).1)))).
Proof.
  cbn zeta. unfold Store.GetStats.
  rewrite !lookup_insert_eq.
  repeat (rewrite lookup_insert_ne by done; rewrite ?lookup_insert_eq).
  split_and!; try done.
  - do 2 f_equal. unfold Store.totalLogs, Storage.AddLog. simpl.
    rewrite sumLogs_replace, length_app. simpl. lia.
  - do 2 f_equal. simpl. destruct (tasks ms !! ID task) as [old|] eqn:Ht.
    + rewrite <- (insert_id (tasks ms) (ID task) old Ht) at 2.
      rewrite <- (insert_delete_eq (tasks ms)).
      rewrite <- (insert_delete_eq (tasks ms) (ID task) old).
      by rewrite !map_size_insert_None by apply lookup_delete_eq.
    + rewrite map_size_insert_None by done. lia.
  - intros [task' Ht]. unfold Storage.DeleteTask. rewrite Ht. simpl.
    split; do 2 f_equal.
    + rewrite map_size_delete, Ht.
      assert (size (tasks ms) ≠ 0%nat); [|lia].
      intros Hz. apply map_size_empty_iff in Hz. rewrite Hz in Ht. done.
    + unfold Store.totalLogs. simpl. rewrite sumLogs_delete.
      unfold Storage.GetLogs. by destruct (logs ms !! taskID).
Qed.

End StatsProperties.

(* ===================================================================== *)
(** * Further properties: the task service *)
(* ===================================================================== *)

Section TaskServiceProperties.
Implicit Types (s : TaskService) (taskID : string).

(** X7.  [UpdateTaskStatus] on an unknown task returns [ErrTaskNotFound],
    stores nothing and publishes nothing.  On a stored task it stores the
    status, whatever it is, and publishes one "task_status" message exactly
    for the statuses "running", "completed" and "failed"; any other status
    is stored without a message. *)
Theorem UpdateTaskStatus_publishes taskID (status : string) s :
  match tasks (store s) !! taskID with
  | None => Services.UpdateTaskStatus taskID status s = (Some ErrTaskNotFound, s)
  | Some task =>
      let s' := (Services.UpdateTaskStatus taskID status s).2 in
      (Services.UpdateTaskStatus taskID status s).1 = None ∧
      tasks (store s') !! taskID = Some (set_Status status task) ∧
      Broadcast s'
      = Broadcast s ++
        (if decide (status = "running") then
           [mkBroadcastMessage taskID (taskStatusMessage taskID "running" "Task started")]
         else if decide (status = "completed") then
           [mkBroadcastMessage taskID (taskStatusMessage taskID "completed" "Task completed")]
         else if decide (status = "failed") then
           [mkBroadcastMessage taskID (taskStatusMessage taskID "failed" "Task failed")]
         else [])
  end.
Proof.
  unfold Services.UpdateTaskStatus, Storage.UpdateTaskStatus.
  destruct (tasks (store s) !! taskID) as [task|] eqn:Ht; [|done].
  cbn [fst snd]. split; [done|].
  unfold TaskStatusRunning, TaskStatusCompleted, TaskStatusFailed.
  repeat case_decide; subst; simpl; rewrite ?lookup_insert_eq;
    try done.
  rewrite !(proj2 (String.eqb_neq _ _)) by done. simpl.
  by rewrite lookup_insert_eq, app_nil_r.
Qed.

Lemma publishedLog_log taskID t level message :
  Views.publishedLog taskID (mkBroadcastMessage t (logMessage t level message))
  = if String.eqb t taskID then Some (mkMigrationLog level message) else None.
Proof. unfold Views.publishedLog. simpl. by destruct (String.eqb t taskID). Qed.

Lemma publishedLogs_snoc taskID s t (message : WSMessage) :
  Views.publishedLogs taskID (SendMessage t message s)
  = Views.publishedLogs taskID s
    ++ option_list (Views.publishedLog taskID (mkBroadcastMessage t message)).
Proof.
  unfold Views.publishedLogs, SendMessage. simpl. rewrite omap_app. simpl.
  by destruct (Views.publishedLog _ _).
Qed.

Lemma publishedLog_other taskID t (message : WSMessage) :
  ws_Type message ≠ "task_log" →
  Views.publishedLog taskID (mkBroadcastMessage t message) = None.
Proof.
  intros Hty. unfold Views.publishedLog. simpl.
  apply String.eqb_neq in Hty. rewrite Hty. by rewrite andb_false_r.
Qed.

(** One call adds the same entries to the stored and to the published
    logs. *)
Lemma applyCall_logs taskID (c : Call) s :
  Views.storedLogs taskID (applyCall c s)
  = Views.storedLogs taskID s ++ option_list (Views.logged taskID c) ∧
  Views.publishedLogs taskID (applyCall c s)
  = Views.publishedLogs taskID s ++ option_list (Views.logged taskID c).
Proof.
  destruct c as [id st|id lv msg|id p|id r|id a b|id a b|id a b e|id p a b]; simpl.
  - rewrite !app_nil_r.
    unfold Services.UpdateTaskStatus, Storage.UpdateTaskStatus.
    destruct (tasks (store s) !! id); [|done]. cbn [fst snd].
    repeat case_match; rewrite ?publishedLogs_snoc, ?publishedLog_other,
      ?app_nil_r by done; done.
  - unfold Services.AddTaskLog. simpl. rewrite publishedLogs_snoc, publishedLog_log.
    unfold Views.storedLogs, Storage.GetLogs. simpl.
    destruct (String.eqb id taskID) eqn:E.
    + apply String.eqb_eq in E as ->.
      rewrite lookup_insert_eq. by destruct (logs (store s) !! taskID).
    + apply String.eqb_neq in E. rewrite lookup_insert_ne by done.
      by rewrite !app_nil_r.
  - rewrite !app_nil_r.
    unfold Services.UpdateTaskProgress, Storage.UpdateTaskProgress.
    destruct (tasks (store s) !! id); [|done]. simpl.
    by rewrite publishedLogs_snoc, publishedLog_other, app_nil_r.
  - rewrite !app_nil_r.
    unfold Services.SetTaskResult, Storage.SetTaskResult.
    by destruct (tasks (store s) !! id).
  - by rewrite publishedLogs_snoc, publishedLog_other, !app_nil_r.
  - by rewrite publishedLogs_snoc, publishedLog_other, !app_nil_r.
  - by rewrite publishedLogs_snoc, publishedLog_other, !app_nil_r.
  - by rewrite publishedLogs_snoc, publishedLog_other, !app_nil_r.
Qed.

Lemma applyCalls_logs taskID (cs : list Call) s :
  Views.storedLogs taskID (applyCalls cs s)
  = Views.storedLogs taskID s ++ Views.loggedBy taskID cs ∧
  Views.publishedLogs taskID (applyCalls cs s)
  = Views.publishedLogs taskID s ++ Views.loggedBy taskID cs.
Proof.
  revert s. induction cs as [|c cs IH]; intros s.
  - simpl. by rewrite !app_nil_r.
  - change (applyCalls (c :: cs) s) with (applyCalls cs (applyCall c s)).
    destruct (IH (applyCall c s)) as (Hs2 & Hp2).
    destruct (applyCall_logs taskID c s) as (Hs1 & Hp1).
    rewrite Hs2, Hp2, Hs1, Hp1. unfold Views.loggedBy. cbn [omap list_omap].
    fold (omap (Views.logged taskID) cs).
    destruct (Views.logged taskID c); simpl; by rewrite <- !app_assoc.
Qed.

(** X8.  The stored log of a task and the log published to its observers
    grow together: whatever calls a worker makes, the entries stored for a
    task and the entries published for it are extended by the same
    entries, those of the worker's [AddTaskLog] calls for the task in the
    order of the calls; so the two logs agree after the calls if they
    agreed before. *)
Theorem logs_stored_as_published taskID (cs : list Call) s :
  Views.storedLogs taskID s = Views.publishedLogs taskID s →
  Views.storedLogs taskID (applyCalls cs s)
  = Views.publishedLogs taskID (applyCalls cs s) ∧
  Views.storedLogs taskID (applyCalls cs s)
  = Views.storedLogs taskID s ++ Views.loggedBy taskID cs.
Proof.
  intros Heq. destruct (applyCalls_logs taskID cs s) as (Hs & Hp).
  by rewrite Hs, Hp, Heq.
Qed.

Lemma applyCalls_app (cs1 cs2 : list Call) s :
  applyCalls (cs1 ++ cs2) s = applyCalls cs2 (applyCalls cs1 s).
Proof. apply fold_left_app. Qed.

(** One call neither creates nor removes a task. *)
Lemma applyCall_dom (c : Call) s :
  dom (tasks (store (applyCall c s))) = dom (tasks (store s)).
Proof.
  destruct c as [id st|id lv msg|id p|id r|id a b|id a b|id a b e|id p a b];
    simpl; try done.
  - unfold Services.UpdateTaskStatus, Storage.UpdateTaskStatus.
    destruct (tasks (store s) !! id) eqn:Hid; [|done]. simpl.
    assert (dom (<[id:=set_Status st m]> (tasks (store s))) = dom (tasks (store s))).
    { rewrite dom_insert_L. apply elem_of_dom_2 in Hid. set_solver. }
    repeat case_match; done.
  - unfold Services.UpdateTaskProgress, Storage.UpdateTaskProgress.
    destruct (tasks (store s) !! id) eqn:Hid; [|done]. simpl.
    rewrite dom_insert_L. apply elem_of_dom_2 in Hid. set_solver.
  - unfold Services.SetTaskResult, Storage.SetTaskResult.
    destruct (tasks (store s) !! id) eqn:Hid; [|done]. simpl.
    rewrite dom_insert_L. apply elem_of_dom_2 in Hid. set_solver.
Qed.

(** X9.  The calls of a worker never create or delete a task.  In
    particular a worker whose task has been deleted does not bring it
    back: all its writes to the task fail and are dropped, while each of
    its log lines is still stored under the id of the task, where the
    logs handler, which asks for the task first, does not show them. *)
Theorem worker_calls_keep_tasks (cs : list Call) s :
  dom (tasks (store (applyCalls cs s))) = dom (tasks (store s)) ∧
  ∀ taskID, taskID ≠ "" → tasks (store s) !! taskID = None →
    tasks (store (applyCalls cs s)) !! taskID = None ∧
    Api.GetTaskLogs taskID (applyCalls cs s)
    = Api.mkAnswer 404 false "Task not found" None ∧
    ∀ level message, CallAddTaskLog taskID level message ∈ cs →
      mkMigrationLog level message ∈ Views.storedLogs taskID (applyCalls cs s).
Proof.
  assert (Hdom : ∀ cs s, dom (tasks (store (applyCalls cs s))) = dom (tasks (store s))).
  { clear. intros cs. induction cs as [|c cs IH]; intros s; [done|].
    change (applyCalls (c :: cs) s) with (applyCalls cs (applyCall c s)).
    by rewrite IH, applyCall_dom. }
  split; [apply Hdom|]. intros taskID Hne Ht.
  assert (Ht' : tasks (store (applyCalls cs s)) !! taskID = None).
  { apply not_elem_of_dom. rewrite Hdom. by apply not_elem_of_dom. }
  split_and!; [done| |].
  - unfold Api.GetTaskLogs, Services.GetTask, Storage.GetTask.
    rewrite (proj2 (String.eqb_neq _ _) Hne), Ht'. done.
  - intros level message Hin. clear Ht Ht'.
    apply list_elem_of_split in Hin as (cs1 & cs2 & ->).
    rewrite applyCalls_app.
    change (applyCalls (CallAddTaskLog taskID level message :: cs2) (applyCalls cs1 s))
      with (applyCalls cs2
              (Services.AddTaskLog taskID level message (applyCalls cs1 s)).2).
    set (s1 := (Services.AddTaskLog taskID level message (applyCalls cs1 s)).2).
    destruct (applyCalls_logs taskID cs2 s1) as (Hs & _).
    rewrite Hs. apply elem_of_app. left.
    unfold s1, Views.storedLogs, Storage.GetLogs, Services.AddTaskLog. simpl.
    rewrite lookup_insert_eq. apply elem_of_app. right. apply list_elem_of_here.
Qed.

End TaskServiceProperties.

(* ===================================================================== *)
(** * Further properties: the handlers *)
(* ===================================================================== *)

Section ListTasksProperties.
Import Api.
Import Stdlib.Strings.Ascii.

Lemma omap_length_le {A B} (f : A → option B) (l : list A) :
  (length (omap f l) ≤ length l)%nat.
Proof.
  induction l as [|a l IH]; [done|]. cbn [omap list_omap length].
  destruct (f a); cbn [length]; lia.
Qed.

Lemma Atoi_range (s : string) (n : Z) : Atoi s = Some n → minInt ≤ n ≤ maxInt.
Proof.
  unfold Atoi. destruct (match s with
                         | String "-"%char rest => (true, rest)
                         | String "+"%char rest => (false, rest)
                         | _ => (false, s)
                         end) as [neg ds].
  destruct (String.eqb ds ""); [done|].
  destruct (digits ds 0) as [m|]; [|done]. simpl.
  case_match eqn:E; [|done]. intros [= <-]. lia.
Qed.

(** The limit and the offset [ListTasks] works with. *)
Lemma ListTasks_limit (query : gmap string string) :
  let limit :=
    match Atoi (DefaultQuery query "limit" "10") with
    | Some limit => if limit <=? 0 then 10 else limit
    | None => 10
    end in
  1 ≤ (if 100 <? limit then 100 else limit) ≤ 100.
Proof.
  simpl. destruct (Atoi _) as [n|]; repeat case_match; lia.
Qed.

Lemma wrap_small (z : Z) : minInt ≤ z ≤ maxInt → wrap z = z.
Proof.
  unfold wrap, minInt, maxInt. intros Hz.
  rewrite Z.mod_small by lia. lia.
Qed.

Lemma wrap_over (z : Z) : maxInt < z ≤ maxInt + 100 → wrap z < 0.
Proof.
  unfold wrap, maxInt. intros Hz.
  replace (z + 2 ^ 63) with ((z - 2 ^ 63) + 1 * 2 ^ 64) by lia.
  rewrite Z.mod_add by lia. rewrite Z.mod_small by lia. lia.
Qed.

(** The page cut out of the filtered list. *)
Lemma page_slice {A} (l : list A) (offset limit : Z) :
  1 ≤ limit ≤ 100 → 0 ≤ offset ≤ maxInt → Z.of_nat (length l) + 100 ≤ maxInt →
  let total := Z.of_nat (length l) in
  let start := offset in
  let end_ := wrap (offset + limit) in
  let start := if total <? start then total else start in
  let end_ := if total <? end_ then total else end_ in
  (if start <? end_ then slice l start end_ else Some [])
  = Some (take (Z.to_nat limit) (drop (Z.to_nat offset) l)).
Proof.
  intros Hl Ho Htot. cbv zeta. set (total := Z.of_nat (length l)) in *.
  assert (Hempty : total ≤ offset →
            Some [] = Some (take (Z.to_nat limit) (drop (Z.to_nat offset) l))).
  { intros ?. rewrite drop_ge by (unfold total in *; lia). by rewrite take_nil. }
  destruct (decide (offset + limit ≤ maxInt)) as [Hfit|Hover].
  - rewrite wrap_small by (unfold minInt, maxInt in *; lia).
    destruct (Z.ltb_spec total offset) as [H1|H1];
      destruct (Z.ltb_spec total (offset + limit)) as [H2|H2];
      try lia.
    + rewrite Z.ltb_irrefl. apply Hempty. lia.
    + destruct (Z.ltb_spec offset total) as [H3|H3]; [|apply Hempty; lia].
      unfold slice.
      destruct (Z.leb_spec 0 offset); [|lia].
      destruct (Z.leb_spec offset total); [|lia].
      destruct (Z.leb_spec total (Z.of_nat (length l))); [|unfold total in *; lia].
      simpl. f_equal. rewrite !take_ge; [done| |]; rewrite length_drop;
        unfold total in *; lia.
    + destruct (Z.ltb_spec offset (offset + limit)) as [H3|H3]; [|lia].
      unfold slice.
      destruct (Z.leb_spec 0 offset); [|lia].
      destruct (Z.leb_spec offset (offset + limit)); [|lia].
      destruct (Z.leb_spec (offset + limit) (Z.of_nat (length l)));
        [|unfold total in *; lia].
      simpl. do 2 f_equal. lia.
  - assert (wrap (offset + limit) < 0) by (apply wrap_over; lia).
    destruct (Z.ltb_spec total (wrap (offset + limit))) as [H1|H1]; [lia|].
    destruct (Z.ltb_spec total offset) as [H2|H2].
    + destruct (Z.ltb_spec total (wrap (offset + limit))); [lia|].
      apply Hempty. lia.
    + destruct (Z.ltb_spec offset (wrap (offset + limit))); [lia|].
      apply Hempty. unfold maxInt in *. lia.
Qed.

(** X10.  [ListTasks] answers every query string, whatever the limit and
    the offset say, without a slice out of range: the answer is the page of
    at most [limit] tasks that starts [offset] tasks into the list of the
    tasks passing the filters, the empty page when the offset lies beyond
    the end, together with the number of tasks passing the filters.  The
    limit is the number given if it lies between 1 and 100, 100 if it is
    larger, and 10 if it is missing, not a number or not positive; the
    offset is the number given if it is non-negative and 0 otherwise. *)
Theorem ListTasks_pages (query : gmap string string) (order : list string)
    (s : TaskService) :
  Z.of_nat (length order) + 100 ≤ maxInt →
  let filtered :=
    List.filter (kept (Query query "status") (Query query "type"))
                (Tasks.ListTasks order s) in
  let limit :=
    match Atoi (DefaultQuery query "limit" "10") with
    | Some n => if decide (n ≤ 0) then 10 else Z.min n 100
    | None => 10
    end in
  let offset :=
    match Atoi (DefaultQuery query "offset" "0") with
    | Some n => Z.max n 0
    | None => 0
    end in
  ListTasks query order s
  = Some (mkAnswer 200 true "Task list retrieved"
            (Some (mkTaskList
                     (take (Z.to_nat limit) (drop (Z.to_nat offset) filtered))
                     (Z.of_nat (length filtered)) limit offset))) ∧
  1 ≤ limit ≤ 100 ∧ 0 ≤ offset.
Proof.
  intros Hlen filtered limit offset.
  assert (Hl : 1 ≤ limit ≤ 100).
  { unfold limit. destruct (Atoi (DefaultQuery query "limit" "10")) as [n|];
      repeat case_decide; lia. }
  assert (Ho : 0 ≤ offset ≤ maxInt).
  { unfold offset. destruct (Atoi (DefaultQuery query "offset" "0")) as [n|] eqn:E;
      [|split; [lia|by vm_compute]].
    apply Atoi_range in E. unfold minInt, maxInt in *. lia. }
  split; [|lia].
  assert (Htot : Z.of_nat (length filtered) + 100 ≤ maxInt).
  { etrans; [|exact Hlen]. apply Z.add_le_mono_r, inj_le. unfold filtered.
    etrans; [apply List.filter_length_le|].
    unfold Tasks.ListTasks, Store.GetAllTasks. simpl. apply omap_length_le. }
  assert (Hlim : (if 100 <? match Atoi (DefaultQuery query "limit" "10") with
                             | Some limit0 => if limit0 <=? 0 then 10 else limit0
                             | None => 10
                             end
                   then 100
                   else match Atoi (DefaultQuery query "limit" "10") with
                        | Some limit0 => if limit0 <=? 0 then 10 else limit0
                        | None => 10
                        end) = limit).
  { unfold limit. destruct (Atoi (DefaultQuery query "limit" "10")) as [n|]; [|done].
    case_decide; repeat case_match; lia. }
  assert (Hoff : match Atoi (DefaultQuery query "offset" "0") with
                 | Some offset0 => if offset0 <? 0 then 0 else offset0
                 | None => 0
                 end = offset).
  { unfold offset. destruct (Atoi (DefaultQuery query "offset" "0")) as [n|]; [|done].
    destruct (Z.ltb_spec n 0); lia. }
  unfold ListTasks. cbv zeta. rewrite Hlim, Hoff.
  fold filtered.
  pose proof (page_slice filtered offset limit Hl Ho Htot) as Hpage.
  cbv zeta in Hpage. by rewrite Hpage.
Qed.

End ListTasksProperties.

Section HandlerProperties.
Implicit Types (s : TaskService) (taskID : string) (task : MigrationTask).

(** X11.  The logs endpoint shows what the worker logged: for a stored
    task it answers 200 with the entries stored before followed by the
    entries of the worker's [AddTaskLog] calls for the task, in the order
    of the calls. *)
Theorem GetTaskLogs_shows_worker_log taskID task (cs : list Call) s :
  taskID ≠ "" → tasks (store s) !! taskID = Some task →
  Api.GetTaskLogs taskID (applyCalls cs s)
  = Api.mkAnswer 200 true "Task logs retrieved"
      (Some (Views.storedLogs taskID s ++ Views.loggedBy taskID cs)).
Proof.
  intros Hne Ht.
  assert (Hin : is_Some (tasks (store (applyCalls cs s)) !! taskID)).
  { pose proof (applyCalls_status taskID cs s task Ht) as Hst.
    unfold taskStatus in Hst.
    destruct (tasks (store (applyCalls cs s)) !! taskID); [eauto|done]. }
  destruct Hin as [task' Ht'].
  unfold Api.GetTaskLogs, Services.GetTask, Storage.GetTask, Tasks.GetTaskLogs.
  rewrite (proj2 (String.eqb_neq _ _) Hne), Ht'.
  destruct (applyCalls_logs taskID cs s) as (Hs & _). rewrite <- Hs.
  unfold Views.storedLogs, Storage.GetLogs.
  by destruct (logs (store (applyCalls cs s)) !! taskID).
Qed.

(** X12.  A task cannot be deleted through the handler while its worker
    runs: as long as the last status written to the task is "running", the
    answer is 400 and the task service is left as it is. *)
Theorem running_task_not_deleted taskID task (cs : list Call) s :
  taskID ≠ "" → tasks (store s) !! taskID = Some task →
  last (statusWrites taskID cs) = Some "running" →
  Handlers.DeleteTask taskID (applyCalls cs s)
  = (mkHTTPResponse 400 false "Running tasks cannot be deleted" DataNone,
     applyCalls cs s).
Proof.
  intros Hne Ht Hlast.
  pose proof (applyCalls_status taskID cs s task Ht) as Hst.
  rewrite Hlast in Hst. unfold taskStatus in Hst. simpl in Hst.
  destruct (tasks (store (applyCalls cs s)) !! taskID) as [task'|] eqn:Ht'; [|done].
  injection Hst as Hst.
  unfold Handlers.DeleteTask, Services.GetTask, Storage.GetTask.
  rewrite (proj2 (String.eqb_neq _ _) Hne), Ht', Hst. done.
Qed.

End HandlerProperties.

Section ImportStatusProperties.
Implicit Types (s : TaskService) (taskID : string) (task : MigrationTask).

(** One call leaves the type of every stored task as it is. *)
Lemma applyCall_type taskID (c : Call) s :
  task_Type <$> tasks (store (applyCall c s)) !! taskID
  = task_Type <$> tasks (store s) !! taskID.
Proof.
  assert (Hins : ∀ id (f : MigrationTask → MigrationTask) t,
            tasks (store s) !! id = Some t → task_Type (f t) = task_Type t →
            task_Type <$> <[id := f t]> (tasks (store s)) !! taskID
            = task_Type <$> tasks (store s) !! taskID).
  { intros id f t Hid Hf. destruct (decide (id = taskID)) as [->|Hne].
    - by rewrite lookup_insert_eq, Hid; simpl; rewrite Hf.
    - by rewrite lookup_insert_ne. }
  destruct c as [id st|id lv msg|id p|id r|id a b|id a b|id a b e|id p a b];
    simpl; try done.
  - unfold Services.UpdateTaskStatus, Storage.UpdateTaskStatus.
    destruct (tasks (store s) !! id) as [t|] eqn:Hid; [|done]. cbn [fst snd].
    pose proof (Hins id (set_Status st) t Hid eq_refl).
    repeat case_match; done.
  - unfold Services.UpdateTaskProgress, Storage.UpdateTaskProgress.
    destruct (tasks (store s) !! id) as [t|] eqn:Hid; [|done].
    apply (Hins id (set_Progress p) t Hid eq_refl).
  - unfold Services.SetTaskResult, Storage.SetTaskResult.
    destruct (tasks (store s) !! id) as [t|] eqn:Hid; [|done].
    apply (Hins id (set_Result _) t Hid eq_refl).
Qed.

Lemma applyCalls_type taskID (cs : list Call) s :
  task_Type <$> tasks (store (applyCalls cs s)) !! taskID
  = task_Type <$> tasks (store s) !! taskID.
Proof.
  revert s. induction cs as [|c cs IH]; intros s; [done|].
  change (applyCalls (c :: cs) s) with (applyCalls cs (applyCall c s)).
  by rewrite IH, applyCall_type.
Qed.

(** The query on an import-type task that is not answered from the
    cache. *)
Lemma GetImportStatus_computed taskID task (now now' : Time) (h : Handler) s :
  taskID ≠ "" → tasks (store s) !! taskID = Some task →
  importStatusType task →
  (Status task = "running" ∨ importStatusCache h !! taskID = None) →
  ∃ h' s',
    GetImportStatus taskID now now' h s
    = (mkHTTPResponse 200 true "Import status retrieved"
         (DataImportStatus (computeImportStatus taskID task)), h', s') ∧
    tasks (store s') !! taskID = Some (writeDownloadURLs taskID task) ∧
    (Status task = "running" → h' = h).
Proof.
  intros Hne Ht Hty Hc. unfold GetImportStatus, Services.GetTask, Storage.GetTask.
  rewrite (proj2 (String.eqb_neq _ _) Hne), Ht.
  replace (negb (String.eqb (task_Type task) TaskTypeImport)
           && negb (String.eqb (task_Type task) TaskTypeOnline)
           && negb (String.eqb (task_Type task) TaskTypeOfflineImport))
    with false.
  2:{ destruct Hty as [-> | [-> | ->]]; reflexivity. }
  unfold TaskStatusRunning.
  destruct (String.eqb (Status task) "running") eqn:Hrun; simpl.
  - eexists _, _. split; [reflexivity|]. simpl.
    rewrite lookup_insert_eq. done.
  - destruct Hc as [Hc|Hc]; [apply String.eqb_neq in Hrun; done|].
    unfold getCachedImportStatus. rewrite Hc.
    eexists _, _. split; [reflexivity|]. simpl. rewrite lookup_insert_eq.
    split; [done|]. intros Hr. apply String.eqb_neq in Hrun. done.
Qed.

(** The view of a result as [saveAppImportStatuses] writes it. *)
Lemma computeImportStatus_saved taskID task (apps : list AppImportStatus) :
  Result task = Some (resultMap (importStatusResult apps)) →
  isr_Apps (computeImportStatus taskID task) = withDownloadURL taskID <$> apps ∧
  isr_Summary (computeImportStatus taskID task) = mkImportSummary 0 0 0.
Proof.
  intros Hr. unfold computeImportStatus, resultApps, resultSummary. rewrite Hr.
  simpl. rewrite lookup_insert_eq. simpl.
  rewrite lookup_insert_ne by done. rewrite lookup_insert_eq. done.
Qed.

(** The task a worker with a deferred save leaves in the store. *)
Lemma task_after_run (taskID panicPrefix criticalText completedText : string)
    (pipeline : list (string * bool)) (body : Worker unit) s task :
  tasks (store s) !! taskID = Some task →
  wp body initFrame (bodyPost pipeline taskID) →
  let worker :=
    call (CallUpdateTaskStatus taskID TaskStatusRunning);;
    deferRecover
      (workerDeferred taskID panicPrefix criticalText completedText true) body in
  ∃ task',
    tasks (store (applyCalls (worker initFrame).1.1 s)) !! taskID = Some task' ∧
    task_Type task' = task_Type task ∧
    Status task' ∈ [TaskStatusCompleted; TaskStatusFailed] ∧
    Result task'
    = Some (resultMap (importStatusResult
                         (appStatuses (vars (worker initFrame).1.2)))).
Proof.
  intros Ht Hpost worker.
  destruct (results_from_body taskID panicPrefix criticalText completedText
              pipeline body s task Ht Hpost) as [_ Hres].
  destruct (status_from_body taskID panicPrefix criticalText completedText true
              pipeline body s task Ht Hpost) as [(terminal & Hterm & Hw) _].
  fold worker in Hres, Hw. cbv zeta in Hres, Hw.
  pose proof (applyCalls_status taskID (worker initFrame).1.1 s task Ht) as Hst.
  rewrite Hw in Hst. simpl in Hst.
  pose proof (applyCalls_type taskID (worker initFrame).1.1 s) as Hty.
  rewrite Ht in Hty. unfold taskStatus in Hst. unfold taskResult in Hres.
  destruct (tasks (store (applyCalls (worker initFrame).1.1 s)) !! taskID)
    as [task'|]; [|done].
  exists task'. simpl in *. split_and!; [done|congruence| |congruence].
  injection Hst as ->. done.
Qed.


(** X14.  The import-status query is not read-only.  When the stored
    result carries the item list as the workers write it, a query that is
    not answered from the cache writes the download link of every item
    into the stored list; asking again gives the same view. *)
Theorem GetImportStatus_writes_links taskID task (m : gmap string Value)
    (apps : list AppImportStatus) (now now' : Time) (h : Handler) s :
  taskID ≠ "" → tasks (store s) !! taskID = Some task →
  importStatusType task → Status task = "running" →
  Result task = Some m → m !! "apps" = Some (VAppStatuses apps) →
  ∃ view s',
    GetImportStatus taskID now now' h s
    = (mkHTTPResponse 200 true "Import status retrieved" (DataImportStatus view),
       h, s') ∧
    isr_Apps view = withDownloadURL taskID <$> apps ∧
    tasks (store s') !! taskID
    = Some (set_Result
              (Some (<["apps" := VAppStatuses (withDownloadURL taskID <$> apps)]> m))
              task) ∧
    GetImportStatus taskID now now' h s'
    = (mkHTTPResponse 200 true "Import status retrieved" (DataImportStatus view),
       h, s').
Proof.
  intros Hne Ht Hty Hrun Hr Happs.
  assert (Hw : writeDownloadURLs taskID task
               = set_Result (Some (<["apps" := VAppStatuses
                                       (withDownloadURL taskID <$> apps)]> m)) task).
  { unfold writeDownloadURLs, resultApps. by rewrite Hr, Happs. }
  assert (Hidem : (withDownloadURL taskID <$> (withDownloadURL taskID <$> apps))
                  = withDownloadURL taskID <$> apps).
  { rewrite <- list_fmap_compose. apply list_fmap_ext. intros _ a _. by destruct a. }
  assert (Hq : ∀ s0 task0, tasks (store s0) !! taskID = Some task0 →
            importStatusType task0 → Status task0 = "running" →
            GetImportStatus taskID now now' h s0
            = (mkHTTPResponse 200 true "Import status retrieved"
                 (DataImportStatus (computeImportStatus taskID task0)), h,
               mkTaskService
                 (set_tasks (<[taskID := writeDownloadURLs taskID task0]>
                               (tasks (store s0))) (store s0))
                 (Broadcast s0))).
  { intros s0 task0 Ht0 Hty0 Hrun0.
    unfold GetImportStatus, Services.GetTask, Storage.GetTask.
    rewrite (proj2 (String.eqb_neq _ _) Hne), Ht0.
    replace (negb (String.eqb (task_Type task0) TaskTypeImport)
             && negb (String.eqb (task_Type task0) TaskTypeOnline)
             && negb (String.eqb (task_Type task0) TaskTypeOfflineImport))
      with false.
    2:{ destruct Hty0 as [-> | [-> | ->]]; reflexivity. }
    rewrite Hrun0. reflexivity. }
  eexists _, _. split; [apply (Hq s task Ht Hty Hrun)|].
  split_and!.
  - unfold computeImportStatus, resultApps. simpl. by rewrite Hr, Happs.
  - simpl. by rewrite lookup_insert_eq, Hw.
  - set (s' := mkTaskService _ _).
    assert (Ht' : tasks (store s') !! taskID = Some (writeDownloadURLs taskID task)).
    { unfold s'. simpl. by rewrite lookup_insert_eq. }
    rewrite (Hq s' _ Ht').
    2:{ unfold importStatusType in *. by rewrite Hw. }
    2:{ by rewrite Hw. }
    assert (Hw2 : writeDownloadURLs taskID (writeDownloadURLs taskID task)
                  = writeDownloadURLs taskID task).
    { rewrite Hw. unfold writeDownloadURLs, resultApps. cbn [Result set_Result].
      rewrite lookup_insert_eq, Hidem. unfold set_Result. cbn.
      by rewrite insert_insert_eq. }
    assert (Hview : computeImportStatus taskID (writeDownloadURLs taskID task)
                    = computeImportStatus taskID task).
    { rewrite Hw. unfold computeImportStatus, resultApps, resultSummary.
      cbn [Result set_Result Status Progress fst].
      rewrite Hr, Happs, lookup_insert_eq. cbn [fst]. rewrite Hidem.
      by rewrite lookup_insert_ne by done. }
    rewrite Hview, Hw2. do 2 f_equal.
    unfold s', set_tasks. simpl. by rewrite insert_insert_eq.
Qed.

End ImportStatusProperties.

Section CacheProperties.
Implicit Types (h : Handler) (taskID : string).

Lemma clearExpiredCache_dom (now : Time) h :
  Views.cacheAligned h → Views.cacheAligned (clearExpiredCache now h).
Proof.
  unfold Views.cacheAligned, clearExpiredCache. simpl. intros Hal.
  apply set_eq. intros k. rewrite !elem_of_dom. unfold is_Some.
  setoid_rewrite map_lookup_filter_Some. simpl. split.
  - intros (v & Hv & Hnone).
    assert (Hk : k ∈ dom (cacheExpiry h)) by (rewrite <- Hal; by apply elem_of_dom_2 in Hv).
    apply elem_of_dom in Hk as [e He]. exists e. split; [done|].
    intros Hlt. apply map_lookup_filter_None in Hnone as [Hn|Hn]; [congruence|].
    by apply (Hn e).
  - intros (e & He & Hge).
    assert (Hk : k ∈ dom (importStatusCache h)) by (rewrite Hal; by apply elem_of_dom_2 in He).
    apply elem_of_dom in Hk as [v Hv]. exists v. split; [done|].
    apply map_lookup_filter_None. right. intros e' He'. simpl. congruence.
Qed.

(** X15.  The status cache keeps its two maps aligned: starting from the
    empty cache of [NewHandler], every cache operation (a lookup, which
    deletes an entry it finds expired, a store, a sweep) and every
    import-status query leaves the cached views and the expiry times with
    the same set of task ids. *)
Theorem cache_maps_aligned taskID (response : ImportStatusResponse)
    (now now' : Time) h (s : TaskService) :
  Views.cacheAligned NewHandler ∧
  (Views.cacheAligned h →
   Views.cacheAligned (getCachedImportStatus taskID now h).2 ∧
   Views.cacheAligned (cacheImportStatus taskID response now h) ∧
   Views.cacheAligned (clearExpiredCache now h) ∧
   Views.cacheAligned (GetImportStatus taskID now now' h s).1.2).
Proof.
  split; [done|]. intros Hal.
  assert (Hget : ∀ t, Views.cacheAligned (getCachedImportStatus taskID t h).2).
  { intros t. unfold getCachedImportStatus.
    destruct (importStatusCache h !! taskID) as [v|]; [|done].
    destruct (cacheExpiry h !! taskID) as [e|].
    - destruct (t <? e); [done|]. unfold Views.cacheAligned in *. simpl.
      by rewrite !dom_delete_L, Hal.
    - unfold Views.cacheAligned in *. simpl. by rewrite !dom_delete_L, Hal. }
  assert (Hput : ∀ h0 r t, Views.cacheAligned h0 → Views.cacheAligned (cacheImportStatus taskID r t h0)).
  { intros h0 r t Hal0. unfold Views.cacheAligned in *. simpl.
    by rewrite !dom_insert_L, Hal0. }
  split_and!; [apply Hget|by apply Hput|by apply clearExpiredCache_dom|].
  unfold GetImportStatus. destruct (String.eqb taskID ""); [done|].
  destruct (Services.GetTask taskID s) as [[task|] [err|]]; try done.
  destruct (negb _ && negb _ && negb _); [done|].
  destruct (String.eqb (Status task) TaskStatusRunning); simpl; [done|].
  pose proof (Hget now) as Hg.
  destruct (getCachedImportStatus taskID now h) as [[cached ok] h1].
  destruct ok; simpl in *; [done|]. by apply Hput.
Qed.

(** X16.  How long a cached view lives.  A view cached at time [t0] is
    served by the lookup at every time before [t0 + cacheTTL] and at no
    time from [t0 + cacheTTL] on, where the lookup deletes it; the sweep
    deletes it only at times after [t0 + cacheTTL], so at that very
    instant the entry is still stored but no longer served. *)
Theorem cache_entry_lifetime taskID (response : ImportStatusResponse)
    (t0 t : Time) h :
  let h0 := cacheImportStatus taskID response t0 h in
  let expiry := t0 + cacheTTL h in
  (t < expiry →
   getCachedImportStatus taskID t h0 = (response, true, h0)) ∧
  (expiry ≤ t →
   (getCachedImportStatus taskID t h0).1 = (zeroImportStatusResponse, false) ∧
   importStatusCache (getCachedImportStatus taskID t h0).2 !! taskID = None) ∧
  (importStatusCache (clearExpiredCache t h0) !! taskID
   = if decide (expiry < t) then None else Some response).
Proof.
  simpl. unfold getCachedImportStatus. simpl. rewrite !lookup_insert_eq.
  split_and!.
  - intros Hlt. by rewrite (proj2 (Z.ltb_lt _ _) Hlt).
  - intros Hge. rewrite (proj2 (Z.ltb_ge _ _) Hge). simpl.
    by rewrite lookup_delete_eq.
  - case_decide as Hlt.
    + apply map_lookup_filter_None. right. intros r Hr. simpl.
      intros Hnone. apply map_lookup_filter_None in Hnone as [Hn|Hn].
      * by rewrite lookup_insert_eq in Hn.
      * apply (Hn (t0 + cacheTTL h)); [by rewrite lookup_insert_eq|done].
    + apply map_lookup_filter_Some. split; [by rewrite lookup_insert_eq|].
      simpl. apply map_lookup_filter_None. right. intros e He.
      rewrite lookup_insert_eq in He. injection He as <-. done.
Qed.

End CacheProperties.

Section UploadChecks.

(** X17.  The two format detectors agree.  On every file they give the
    same format name, and the one of the handlers returns an error exactly
    when the file cannot be opened or read; the one of the import worker
    returns an error in these cases and also for the format "unknown".  So
    a file the upload handler lets pass (format "zip" or "gzip", no error)
    is one the import worker detects as the same format without error. *)
Theorem detectors_agree (open : error) (header : Api.Header) :
  (Files.detectFileFormat open header).1 = (Api.detectFileFormat open header).1 ∧
  (Api.detectFileFormat open header).1 ∈ ["zip"; "gzip"; "unknown"; ""] ∧
  ((Api.detectFileFormat open header).2 = None ↔
     open = None ∧ ∃ bytes, header = Api.ReadOK bytes) ∧
  ((Files.detectFileFormat open header).2 = None ↔
     (Api.detectFileFormat open header).2 = None ∧
     (Api.detectFileFormat open header).1 ≠ "unknown") ∧
  (∀ format, format ∈ ["zip"; "gzip"] →
     Api.detectFileFormat open header = (format, None) →
     Files.detectFileFormat open header = (format, None)).
Proof.
  unfold Files.detectFileFormat, Api.detectFileFormat.
  destruct open as [e|]; [simpl; split_and!; try done; try set_solver; naive_solver|].
  destruct header as [e|bytes]; [simpl; split_and!; try done; try set_solver; naive_solver|].
  cbv zeta.
  destruct (bool_decide (2 ≤ length bytes)%nat && Byte.eqb (Api.bufAt bytes 0) Byte.x50
            && Byte.eqb (Api.bufAt bytes 1) Byte.x4b);
    [simpl; split_and!; try done; try set_solver; naive_solver|].
  destruct (bool_decide (2 ≤ length bytes)%nat && Byte.eqb (Api.bufAt bytes 0) Byte.x1f
            && Byte.eqb (Api.bufAt bytes 1) Byte.x8b);
    simpl; split_and!; try done; try set_solver; try naive_solver.
Qed.

(** X18.  A file that passes [validateGzipFile] is at least ten bytes long
    and starts with the gzip magic number, so both detectors call it
    "gzip"; a file shorter than ten bytes is refused, whatever it starts
    with. *)
Theorem validateGzipFile_accepts (f : Api.GzipFile) :
  (Api.validateGzipFile f = None →
   (∃ size, Api.gz_stat f = Ok size ∧ 10 ≤ size) ∧
   Api.detectFileFormat (Api.gz_open f) (Api.gz_header f) = ("gzip", None) ∧
   Files.detectFileFormat (Api.gz_open f) (Api.gz_header f) = ("gzip", None)) ∧
  (∀ size, Api.gz_open f = None → Api.gz_stat f = Ok size → size < 10 →
     Api.validateGzipFile f = Some "File too small, not a valid gzip file").
Proof.
  unfold Api.validateGzipFile, Api.detectFileFormat, Files.detectFileFormat.
  split.
  - destruct (Api.gz_open f); [done|].
    destruct (Api.gz_stat f) as [size|]; [|done].
    destruct (Z.ltb_spec size 10); [done|].
    destruct (Api.gz_header f) as [e|bytes]; [done|]. cbv zeta.
    destruct (bool_decide (length bytes < 2)%nat) eqn:Hn; [done|].
    destruct (Byte.eqb (Api.bufAt bytes 0) Byte.x1f) eqn:H0; [|done].
    destruct (Byte.eqb (Api.bufAt bytes 1) Byte.x8b) eqn:H1; [|done].
    simpl. intros _. split; [eauto|].
    apply Byte.byte_dec_bl in H0. rewrite H0. simpl.
    apply bool_decide_eq_false in Hn.
    rewrite (bool_decide_eq_true_2 (2 ≤ length bytes)%nat) by lia. done.
  - intros size -> -> Hlt. by rewrite (proj2 (Z.ltb_lt _ _) Hlt).
Qed.

End UploadChecks.

(* ===================================================================== *)
(** * Further properties: the hub *)
(* ===================================================================== *)

Section HubProperties.
Implicit Types (m : Manager) (c : ClientRef) (cl : Client) (t : string).

Lemma register_observers c cl m t :
  observers t (register c cl m)
  = if decide (t = TaskID cl) then {[ c ]} ∪ observers t m else observers t m.
Proof.
  unfold observers, register. simpl. case_decide as Ht.
  - subst. by rewrite lookup_insert_eq.
  - by rewrite lookup_insert_ne.
Qed.

(** What [Unregister] does: nothing for a client that observes no task;
    otherwise the client leaves its task and its queue is closed. *)
Lemma unregister_spec c m :
  hubInvariant m →
  match heap m !! c with
  | Some cl =>
      if decide (c ∈ observers (TaskID cl) m) then
        unregister c m
        = Some (mkManager (dropClient (TaskID cl) c (Clients m))
                          (<[c := dropped cl]> (heap m)))
      else unregister c m = Some m
  | None => unregister c m = Some m
  end.
Proof.
  intros Hinv. unfold unregister. destruct (heap m !! c) as [cl|] eqn:Hc; [|done].
  unfold observers. destruct (Clients m !! TaskID cl) as [clients|] eqn:Hcl; simpl.
  - case_decide as Hin.
    + rewrite bool_decide_eq_true_2 by done.
      destruct (Hinv (TaskID cl) c) as (cl' & Hc' & _ & Hopen).
      { unfold observers. by rewrite Hcl. }
      simplify_eq. unfold closeChan. rewrite Hopen. done.
    + by rewrite bool_decide_eq_false_2.
  - rewrite decide_False by set_solver. done.
Qed.

Lemma invariant_unique m c cl t :
  hubInvariant m → heap m !! c = Some cl → c ∈ observers t m → t = TaskID cl.
Proof.
  intros Hinv Hc Hin. destruct (Hinv t c Hin) as (cl' & Hc' & Ht & _).
  by simplify_eq.
Qed.

(** One event that the code can produce does not panic and keeps the
    invariant; clients stay allocated. *)
Lemma step_invariant (ev : Hub.Event) m :
  hubInvariant m → Hub.enabled ev m →
  ∃ m', Hub.step ev m = Some m' ∧ hubInvariant m' ∧
        ∀ c, is_Some (heap m !! c) → is_Some (heap m' !! c).
Proof.
  intros Hinv Hen. destruct ev as [c cl|c|message order|c]; simpl in *.
  - destruct Hen as [Hfresh Hnew]. eexists. split; [done|]. split.
    + intros t c' Hin. rewrite register_observers in Hin.
      unfold register. simpl.
      destruct (decide (c' = c)) as [->|Hne].
      * rewrite lookup_insert_eq. exists cl. split; [done|].
        case_decide as Ht.
        -- split; [done|]. rewrite Hnew. done.
        -- destruct (Hinv t c Hin) as (cl' & Hc' & _). congruence.
      * rewrite lookup_insert_ne by done. apply Hinv.
        case_decide; set_solver.
    + intros c' Hc'. unfold register. simpl.
      destruct (decide (c = c')) as [->|Hne];
        [rewrite lookup_insert_eq|rewrite lookup_insert_ne by done]; eauto.
  - pose proof (unregister_spec c m Hinv) as Hun.
    destruct (heap m !! c) as [cl|] eqn:Hc; [|eauto].
    case_decide as Hin; [|eauto].
    eexists. split; [done|]. split.
    + intros t c' Hin'. unfold observers in Hin'. simpl in Hin'.
      rewrite dropClient_observers in Hin'. simpl.
      assert (Hc'' : c' ∈ observers t m ∧ c' ≠ c).
      { case_decide as Ht; [subst; set_solver|].
        split; [done|]. intros ->.
        by apply Ht, (invariant_unique m c cl). }
      destruct Hc'' as [Hobs Hne]. rewrite lookup_insert_ne by done.
      by apply Hinv.
    + intros c' Hc'. simpl.
      destruct (decide (c = c')) as [->|Hne];
        [rewrite lookup_insert_eq|rewrite lookup_insert_ne by done]; eauto.
  - destruct Hen as [Hnd Hord]. destruct message as [taskID msg]. simpl in *.
    unfold broadcastIn. simpl. fold (observers taskID m).
    case_bool_decide as Hsz; [eauto|].
    destruct (deliverAll_spec taskID msg order m Hnd)
      as (m' & Hrun & Hout & Hin & Hoth & Hobs).
    { intros c Hc. apply Hord in Hc.
      destruct (Hinv taskID c Hc) as (cl & ? & ? & ?). eauto. }
    exists m'. split; [done|]. split.
    + intros t c Hc. destruct (decide (t = taskID)) as [->|Ht].
      * apply Hobs in Hc as [Hc Hn].
        destruct (Hinv taskID c Hc) as (cl & Hcl & Htid & Hop).
        specialize (Hin c cl (proj2 (Hord c) Hc) Hcl).
        destruct (hasRoom cl) eqn:Hroom.
        -- exists (enqueued msg cl). done.
        -- exfalso. apply Hn. split; [by apply Hord|]. eauto.
      * unfold observers in Hc. rewrite Hoth in Hc by done.
        destruct (Hinv t c Hc) as (cl & Hcl & Htid & Hop).
        exists cl. split; [|done]. rewrite Hout; [done|].
        intros Hc'. apply Hord in Hc'.
        destruct (Hinv taskID c Hc') as (cl' & Hcl' & Htid' & _).
        by simplify_eq.
    + intros c [cl Hc]. destruct (decide (c ∈ order)) as [Hco|Hco].
      * rewrite (Hin c cl Hco Hc). eauto.
      * rewrite (Hout c Hco). eauto.
  - destruct (heap m !! c) as [cl|] eqn:Hc; [|eauto].
    eexists. split; [done|]. split.
    + intros t c' Hin. unfold observers in Hin. simpl in *.
      destruct (Hinv t c' Hin) as (cl' & Hc' & Ht & Hopen).
      destruct (decide (c' = c)) as [->|Hne].
      * rewrite lookup_insert_eq. simplify_eq. eexists. split; [done|].
        split; [done|]. simpl. unfold Hub.receive.
        by destruct (buf (Send _)).
      * rewrite lookup_insert_ne by done. eauto.
    + intros c' Hc'. simpl.
      destruct (decide (c = c')) as [->|Hne];
        [rewrite lookup_insert_eq|rewrite lookup_insert_ne by done]; eauto.
Qed.

(** X19.  The hub never panics.  Starting from a hub in which every
    registered observer has an open queue (the new hub is one), any
    sequence of events the code can produce, registrations of new
    clients, unregistrations, broadcasts in any visiting order and
    receives by the clients' writers, is handled without a send on a
    closed channel and without closing a channel twice, and leaves a hub
    of the same kind. *)
Theorem hub_never_panics (evs : list Hub.Event) m :
  hubInvariant m → Hub.admissible evs m →
  ∃ m', Hub.run evs m = Some m' ∧ hubInvariant m'.
Proof.
  revert m. induction evs as [|ev evs IH]; intros m Hinv Hadm; [eauto|].
  destruct Hadm as [Hen Hrest].
  destruct (step_invariant ev m Hinv Hen) as (m1 & Hstep & Hinv1 & _).
  simpl. rewrite Hstep. simpl. apply IH; [done|]. by apply Hrest.
Qed.

End HubProperties.

Section HubDelivery.
Implicit Types (m : Manager) (c : ClientRef) (cl : Client) (t : string).

(** One event, seen from a client that is allocated before it and
    observes [t] after it: the client observed [t] before, and what its
    writer took out of the queue followed by what is queued now is what
    was queued before followed by what the event broadcasts to [t]. *)
Lemma step_observer (ev : Hub.Event) m m' c cl t :
  hubInvariant m → Hub.enabled ev m → Hub.step ev m = Some m' →
  heap m !! c = Some cl → c ∈ observers t m' →
  c ∈ observers t m ∧
  ∃ cl', heap m' !! c = Some cl' ∧
         Hub.taken c ev m ++ buf (Send cl') = buf (Send cl) ++ Hub.broadcastTo t ev.
Proof.
  intros Hinv Hen Hstep Hc Hin.
  destruct ev as [c0 cl0|c0|message order|c0]; simpl in *.
  - destruct Hen as [Hfresh _]. injection Hstep as <-.
    assert (c ≠ c0) by congruence.
    rewrite register_observers in Hin. split; [case_decide; set_solver|].
    exists cl. unfold register. simpl. rewrite lookup_insert_ne by done.
    by rewrite app_nil_r.
  - pose proof (unregister_spec c0 m Hinv) as Hun.
    destruct (heap m !! c0) as [cl0|] eqn:Hc0.
    + case_decide as Hobs.
      * rewrite Hun in Hstep. injection Hstep as <-.
        unfold observers in Hin. simpl in Hin.
        rewrite dropClient_observers in Hin.
        assert (Hne : c ≠ c0).
        { intros ->. simplify_eq. rewrite decide_True in Hin; [set_solver|].
          case_decide as Ht; [done|].
          (* c0 would observe a task other than its own *)
          exfalso. apply Ht. by apply (invariant_unique m c0 cl). }
        split; [case_decide; [subst; set_solver|done]|].
        exists cl. simpl. rewrite lookup_insert_ne by done. by rewrite app_nil_r.
      * rewrite Hun in Hstep. injection Hstep as <-. split; [done|].
        exists cl. by rewrite app_nil_r.
    + rewrite Hun in Hstep. injection Hstep as <-. split; [done|].
      exists cl. by rewrite app_nil_r.
  - destruct Hen as [Hnd Hord]. destruct message as [taskID msg]. simpl in *.
    unfold broadcastIn in Hstep. simpl in Hstep. fold (observers taskID m) in Hstep.
    case_bool_decide as Hsz.
    + injection Hstep as <-. split; [done|]. exists cl. split; [done|].
      case_decide as Ht; [|by rewrite app_nil_r].
      subst. apply size_empty_iff in Hsz. set_solver.
    + destruct (deliverAll_spec taskID msg order m Hnd)
        as (m1 & Hrun & Hout & Hdel & Hoth & Hobs).
      { intros c' Hc'. apply Hord in Hc'.
        destruct (Hinv taskID c' Hc') as (cl' & ? & ? & ?). eauto. }
      rewrite Hrun in Hstep. injection Hstep as <-.
      case_decide as Ht.
      * subst t. apply Hobs in Hin as [Hin Hn]. split; [done|].
        assert (Hco : c ∈ order) by by apply Hord.
        rewrite (Hdel c cl Hco Hc).
        destruct (hasRoom cl) eqn:Hroom.
        -- eexists. split; [done|]. done.
        -- exfalso. apply Hn. eauto.
      * assert (Hin0 : c ∈ observers t m).
        { unfold observers in *. by rewrite <- Hoth. }
        split; [done|]. exists cl. rewrite app_nil_r. split; [|done].
        rewrite Hout; [done|]. intros Hco. apply Hord in Hco.
        apply Ht. rewrite (invariant_unique m c cl taskID Hinv Hc Hco).
        by rewrite (invariant_unique m c cl t Hinv Hc Hin0).
  - destruct (heap m !! c0) as [cl0|] eqn:Hc0.
    + injection Hstep as <-. unfold observers in *. simpl in *.
      split; [done|]. rewrite app_nil_r.
      case_decide as Heq.
      * subst c0. rewrite Hc. rewrite lookup_insert_eq. simplify_eq.
        eexists. split; [done|]. simpl. unfold Hub.receive.
        destruct (buf (Send _)) eqn:Hb; simpl; by rewrite ?Hb.
      * rewrite lookup_insert_ne by done. eauto.
    + injection Hstep as <-. split; [done|]. rewrite app_nil_r.
      case_decide as Heq; [subst; congruence|]. eauto.
Qed.

(** X20.  What an observer gets.  Take a client that is allocated when
    the events start and observes a task when they end.  Then the
    messages its writer took out of its queue during the events, followed
    by the messages left in the queue, are exactly the messages that were
    queued at the start followed by the messages broadcast to the task
    during the events, in the order of the broadcasts: nothing is lost,
    doubled, reordered or taken from another task. *)
Theorem observer_gets_broadcasts_in_order (evs : list Hub.Event) m m' c cl t :
  hubInvariant m → Hub.admissible evs m → Hub.run evs m = Some m' →
  heap m !! c = Some cl → c ∈ observers t m' →
  c ∈ observers t m ∧
  ∃ cl', heap m' !! c = Some cl' ∧
         Hub.takenAll c evs m ++ buf (Send cl')
         = buf (Send cl) ++ (evs ≫= Hub.broadcastTo t).
Proof.
  revert m cl. induction evs as [|ev evs IH]; intros m cl Hinv Hadm Hrun Hc Hin.
  - injection Hrun as <-. split; [done|]. exists cl. by rewrite app_nil_r.
  - destruct Hadm as [Hen Hrest].
    destruct (step_invariant ev m Hinv Hen) as (m1 & Hstep & Hinv1 & Halloc).
    simpl in Hrun. rewrite Hstep in Hrun. simpl in Hrun.
    destruct (Halloc c) as [cl1 Hc1]; [eauto|].
    destruct (IH m1 cl1 Hinv1 (Hrest _ Hstep) Hrun Hc1 Hin)
      as (Hin1 & cl' & Hc' & Hq).
    destruct (step_observer ev m m1 c cl t Hinv Hen Hstep Hc Hin1)
      as (Hin0 & cl1' & Hc1' & Hq1).
    simplify_eq. split; [done|]. exists cl'. split; [done|].
    simpl. rewrite Hstep.
    change ((ev :: evs) ≫= Hub.broadcastTo t)
      with (Hub.broadcastTo t ev ++ (evs ≫= Hub.broadcastTo t)).
    rewrite <- app_assoc, Hq, !app_assoc. by rewrite Hq1.
Qed.

(** X21.  A client is closed once.  When a broadcast finds the queue of
    an observer full it drops the observer and closes its queue; the
    unregistration that follows when the reader of that client ends then
    finds nothing to do and leaves the hub as it is.  The same holds for a
    second unregistration of any client. *)
Theorem dropped_client_closed_once (message : BroadcastMessage)
    (order : list ClientRef) m m' c cl :
  hubInvariant m → Hub.enabled (Hub.EvBroadcast message order) m →
  broadcastIn order message m = Some m' →
  c ∈ observers (bm_TaskID message) m → heap m !! c = Some cl →
  hasRoom cl = false →
  heap m' !! c = Some (dropped cl) ∧
  unregister c m' = Some m' ∧
  ∀ c0 m1, unregister c0 m' = Some m1 → unregister c0 m1 = Some m1.
Proof.
  intros Hinv Hen Hstep Hin Hc Hfull.
  destruct (step_invariant (Hub.EvBroadcast message order) m Hinv Hen)
    as (m1 & Hstep1 & Hinv' & _).
  simpl in Hstep1. rewrite Hstep in Hstep1. injection Hstep1 as <-.
  destruct Hen as [Hnd Hord]. destruct message as [taskID msg]. simpl in *.
  unfold broadcastIn in Hstep. simpl in Hstep. fold (observers taskID m) in Hstep.
  rewrite bool_decide_eq_false_2 in Hstep.
  2:{ intros Hsz. apply size_empty_iff in Hsz. set_solver. }
  destruct (deliverAll_spec taskID msg order m Hnd)
    as (m1 & Hrun & Hout & Hdel & Hoth & Hobs).
  { intros c' Hc'. apply Hord in Hc'.
    destruct (Hinv taskID c' Hc') as (cl' & ? & ? & ?). eauto. }
  rewrite Hrun in Hstep. injection Hstep as ->.
  assert (Hc' : heap m' !! c = Some (dropped cl)).
  { rewrite (Hdel c cl (proj2 (Hord c) Hin) Hc). by rewrite Hfull. }
  assert (Hidle : ∀ m0 c0, hubInvariant m0 →
            (∀ cl0, heap m0 !! c0 = Some cl0 → c0 ∉ observers (TaskID cl0) m0) →
            unregister c0 m0 = Some m0).
  { intros m0 c0 Hinv0 Hno. pose proof (unregister_spec c0 m0 Hinv0) as Hun.
    destruct (heap m0 !! c0) as [cl0|]; [|done].
    rewrite decide_False in Hun; [done|]. by apply Hno. }
  split_and!; [done| |].
  - apply Hidle; [done|]. intros cl0 Hcl0. simplify_eq. simpl.
    destruct (Hinv taskID c Hin) as (cl' & Hcl' & Htid & _). simplify_eq.
    rewrite Hobs. intros [_ Hn]. apply Hn. split; [by apply Hord|]. eauto.
  - intros c0 m1 Hun1.
    pose proof (unregister_spec c0 m' Hinv') as Hun.
    destruct (heap m' !! c0) as [cl0|] eqn:Hc0.
    + case_decide as Hobs0.
      * rewrite Hun in Hun1. injection Hun1 as <-.
        unfold unregister. simpl. rewrite lookup_insert_eq. simpl.
        pose proof (dropClient_observers (TaskID cl0) (TaskID cl0) c0 (Clients m'))
          as Hd. rewrite decide_True in Hd by done.
        destruct (dropClient (TaskID cl0) c0 (Clients m') !! TaskID cl0)
          as [clients|]; [|done].
        simpl in Hd. rewrite bool_decide_eq_false_2; [done|]. set_solver.
      * rewrite Hun in Hun1. by injection Hun1 as <-.
    + rewrite Hun in Hun1. by injection Hun1 as <-.
Qed.

End HubDelivery.

(* ===================================================================== *)
(** * Further properties: the connection service *)
(* ===================================================================== *)

Section ConnectionProperties.
Import Connection.

Lemma accepted_unique (login : Login) (lr1 lr2 : gmap string JSON) :
  Views.accepted login lr1 → Views.accepted login lr2 → lr1 = lr2.
Proof. intros [(b1 & ->) _] [(b2 & [= _ ->]) _]. done. Qed.

Lemma testLogin_cases (system : string) (login : Login) (conn : SystemConnection) :
  (∃ loginResponse info,
     Views.accepted login loginResponse ∧
     testLogin system login conn
     = (mkTestResponse true (system +:+ " login successful") info, None,
        set_Token (Views.accessToken loginResponse) conn)) ∨
  ((∀ loginResponse, ¬ Views.accepted login loginResponse) ∧
   ∃ message, testLogin system login conn
              = (mkTestResponse false message None, None, conn)).
Proof.
  unfold testLogin, Views.accepted. cbv zeta.
  destruct login as [e|e|e|e|statusCode body parsed];
    try (right; split; [by intros lr [(b & [= ]) _]|by eauto]).
  destruct (Z.eqb_spec statusCode 200) as [->|Hne]; cbn [negb].
  2:{ right. split; [|eauto]. intros lr [(b & [= ]) _]. done. }
  destruct parsed as [loginResponse|e].
  2:{ right. split; [|eauto]. intros lr [(b & [= ]) _]. }
  set (isSuccess := match loginResponse !! "success" with
                    | Some (JBool success) => success
                    | Some (JNumber mantissa exponent) => is200 mantissa exponent
                    | _ => false
                    end).
  assert (Hs : isSuccess = true ↔
            (loginResponse !! "success" = Some (JBool true) ∨
             ∃ mantissa exponent,
               loginResponse !! "success" = Some (JNumber mantissa exponent) ∧
               is200 mantissa exponent = true)).
  { unfold isSuccess. destruct (loginResponse !! "success") as [[]|];
      naive_solver. }
  destruct isSuccess; cbn [negb].
  - left. exists loginResponse. eexists. split; [|reflexivity].
    split; [eauto|]. by apply Hs.
  - right. split; [|eauto]. intros lr [(b & Heq) Hok].
    injection Heq as _ <-. by apply Hs in Hok.
Qed.

(** X22.  When a login test succeeds.  The test never returns an error.
    It reports success exactly when the remote system answered with status
    200 and a JSON object whose "success" field is [true] or the number
    200.  On success the token of the connection becomes the string at
    "data.token.access_token" of the answer, or the empty string when
    there is none, the login still counting as a success; on failure the
    connection is left as it is. *)
Theorem login_test_outcome (system : string) (login : Login)
    (conn : SystemConnection) :
  let '(response, err, conn') := testLogin system login conn in
  err = None ∧
  (tr_Success response = true ↔ ∃ loginResponse, Views.accepted login loginResponse) ∧
  (∀ loginResponse, Views.accepted login loginResponse →
     conn' = set_Token (Views.accessToken loginResponse) conn ∧
     tr_Message response = system +:+ " login successful") ∧
  (tr_Success response = false → conn' = conn).
Proof.
  destruct (testLogin_cases system login conn)
    as [(lr & info & Hacc & ->)|(Hno & message & ->)].
  - split_and!; [done| | |done].
    + split; eauto.
    + intros lr' Hacc'. by rewrite (accepted_unique login lr' lr).
  - split_and!; [done| | |done].
    + split; [done|]. intros [lr Hacc]. by apply Hno in Hacc.
    + intros lr Hacc. by apply Hno in Hacc.
Qed.

(** X23.  [TestConnection] saves a connection only once it is verified.
    It never returns an error.  When it reports success, the connection
    has a host, a user name and a password, a port between 1 and 65535 and
    the type "casaos" or "zimaos", the login was Views.accepted, and the
    connection is stored, with the token of the login, under its id, which
    is the given one or, if that was empty, a new one.  When it does not
    report success, the store is left as it is. *)
Theorem TestConnection_saves_verified (login : Login) (uuid : string)
    (conn : option SystemConnection) (ms : MemoryStore) :
  let '(response, err, conn', ms') := TestConnection login uuid conn ms in
  err = None ∧
  (tr_Success response = false → ms' = ms) ∧
  (tr_Success response = true →
   ∃ c loginResponse,
     conn = Some c ∧ Views.accepted login loginResponse ∧
     Host c ≠ "" ∧ 1 ≤ Port c ≤ 65535 ∧ Username c ≠ "" ∧ Password c ≠ "" ∧
     (conn_Type c = "casaos" ∨ conn_Type c = "zimaos") ∧
     let saved :=
       set_Token (Views.accessToken loginResponse)
         (if decide (conn_ID c = "") then set_ID uuid c else c) in
     conn' = Some saved ∧
     Store.GetConnection (conn_ID saved) ms' = (Some saved, None)).
Proof.
  unfold TestConnection. destruct conn as [c|]; [|done].
  destruct (String.eqb_spec (Host c) ""); [done|].
  destruct (Z.leb_spec (Port c) 0); [done|].
  destruct (Z.ltb_spec 65535 (Port c)); [done|]. cbn [orb].
  destruct (String.eqb_spec (Username c) ""); [done|].
  destruct (String.eqb_spec (Password c) ""); [done|].
  assert (Hgen : ∀ system,
    (conn_Type c = "casaos" ∨ conn_Type c = "zimaos") →
    let '(response, err, conn', ms') :=
      (let '(response, err, c1) := testLogin system login c in
       match err with
       | None =>
           if tr_Success response then
             let c2 := if String.eqb (conn_ID c1) "" then set_ID uuid c1 else c1 in
             (response, err, Some c2, (Store.SaveConnection c2 ms).2)
           else (response, err, Some c1, ms)
       | Some _ => (response, err, Some c1, ms)
       end) in
    err = None ∧ (tr_Success response = false → ms' = ms) ∧
    (tr_Success response = true →
     ∃ c0 loginResponse,
       Some c = Some c0 ∧ Views.accepted login loginResponse ∧
       Host c0 ≠ "" ∧ 1 ≤ Port c0 ≤ 65535 ∧ Username c0 ≠ "" ∧ Password c0 ≠ "" ∧
       (conn_Type c0 = "casaos" ∨ conn_Type c0 = "zimaos") ∧
       let saved :=
         set_Token (Views.accessToken loginResponse)
           (if decide (conn_ID c0 = "") then set_ID uuid c0 else c0) in
       conn' = Some saved ∧
       Store.GetConnection (conn_ID saved) ms' = (Some saved, None))).
  { intros system Hty.
    destruct (testLogin_cases system login c)
      as [(lr & info & Hacc & ->)|(Hno & message & ->)]; [|done].
    cbn [tr_Success]. split; [done|]. split; [done|]. intros _.
    assert (Hsaved : (if String.eqb (conn_ID (set_Token (Views.accessToken lr) c)) ""
                      then set_ID uuid (set_Token (Views.accessToken lr) c)
                      else set_Token (Views.accessToken lr) c)
                     = set_Token (Views.accessToken lr)
                         (if decide (conn_ID c = "") then set_ID uuid c else c)).
    { simpl. destruct (String.eqb_spec (conn_ID c) ""); case_decide; done. }
    exists c, lr. cbv zeta. rewrite Hsaved.
    split_and!; try done; try lia.
    unfold Store.GetConnection, Store.SaveConnection. simpl.
    by rewrite lookup_insert_eq. }
  destruct (String.eqb_spec (conn_Type c) "casaos") as [Hc|Hc].
  { apply (Hgen "CasaOS"). by left. }
  destruct (String.eqb_spec (conn_Type c) "zimaos") as [Hz|Hz].
  { apply (Hgen "ZimaOS"). by right. }
  done.
Qed.

End ConnectionProperties.

(* ===================================================================== *)
(** * Further properties: the steps of the import worker *)
(* ===================================================================== *)

Section ClosureReasoning.
Context {E : Type} (R : Vars → Vars → Prop) `{!Reflexive R} `{!Transitive R}.

Lemma keeps_bind {A B} (m : Closure E A) (f : A → Closure E B) :
  Views.keeps R m → (∀ a, Views.keeps R (f a)) → Views.keeps R (m ≫= f).
Proof.
  intros Hm Hf x. unfold mbind, Closure_bind. specialize (Hm x).
  destruct (m x) as [[es x1] [a|v]]; simpl in *; [|done].
  specialize (Hf a x1). destruct (f a x1) as [[es' x2] r]. simpl in *.
  by etrans.
Qed.

Lemma keeps_ret {A} (a : A) : Views.keeps R (mret a : Closure E A).
Proof. intros x. simpl. reflexivity. Qed.

Lemma keeps_emit (e : E) : Views.keeps R (emit e).
Proof. intros x. simpl. reflexivity. Qed.

Lemma keeps_getVars : Views.keeps R (getVars : Closure E Vars).
Proof. intros x. simpl. reflexivity. Qed.

Lemma keeps_panic {A} (v : string) : Views.keeps R (panic v : Closure E A).
Proof. intros x. simpl. reflexivity. Qed.

Lemma keeps_modifyVars (f : Vars → Vars) :
  (∀ x, R x (f x)) → Views.keeps R (modifyVars f : Closure E unit).
Proof. intros Hf x. simpl. apply Hf. Qed.

End ClosureReasoning.

Section ImportSteps.
Implicit Types (env : ImportEnv) (task : MigrationTask) (x : Vars)
  (a : AppImportStatus) (l : list AppImportStatus).

#[local] Instance mergeKeeps_refl : Reflexive Views.mergeKeeps.
Proof. intros a. by unfold Views.mergeKeeps. Qed.
#[local] Instance mergeKeeps_trans : Transitive Views.mergeKeeps.
Proof.
  intros a b c (H1 & H2 & H3 & H4 & H5) (G1 & G2 & G3 & G4 & G5).
  unfold Views.mergeKeeps. by rewrite G1, G2, G3, G4, G5.
Qed.
#[local] Instance mergeRel_refl : Reflexive Views.mergeRel.
Proof.
  intros x. split; [|done]. reflexivity.
Qed.
#[local] Instance mergeRel_trans : Transitive Views.mergeRel.
Proof.
  intros x y z [H1 H2] [G1 G2]. split; [|congruence].
  by etrans.
Qed.

Lemma update_at_Forall2 (i : nat) (f : AppImportStatus → AppImportStatus)
    (P : AppImportStatus → AppImportStatus → Prop) l :
  (∀ a, P a a) → (∀ a, l !! i = Some a → P a (f a)) →
  Forall2 P l (update_at i f l).
Proof.
  intros Hrefl Hf. unfold update_at. destruct (l !! i) as [a|] eqn:Hi.
  - apply Forall2_same_length_lookup_2; [by rewrite length_insert|].
    intros j b b' Hb Hb'. destruct (decide (i = j)) as [->|Hne].
    + rewrite list_lookup_insert_eq in Hb' by by eapply lookup_lt_Some.
      simplify_eq. by apply Hf.
    + rewrite list_lookup_insert_ne in Hb' by done. simplify_eq. apply Hrefl.
  - apply Forall2_same_length_lookup_2; [done|].
    intros j b b' Hb Hb'. simplify_eq. apply Hrefl.
Qed.

Lemma keeps_extern (R : Vars → Vars → Prop) `{!Reflexive R} {A} (c : External A) :
  Views.keeps R (extern c).
Proof. intros x. simpl. reflexivity. Qed.

Lemma mergeLoop_keeps env task (appDataPath : string) (total : Z)
    (indices : list nat) (completed : Z) :
  Views.keeps Views.mergeRel (mergeLoop env task appDataPath total indices completed).
Proof.
  revert completed. induction indices as [|i rest IH]; intros completed.
  - apply keeps_ret; apply _.
  - simpl. apply keeps_bind; [apply _|apply keeps_getVars; apply _|].
    intros x. destruct (appStatuses x !! i) as [app|] eqn:Hi;
      [|apply keeps_panic; apply _].
    destruct (HasAppData app) eqn:Hhas; simpl; [|apply IH].
    apply keeps_bind; [apply _| |intros _].
    { destruct (total =? 0); [apply keeps_panic|apply keeps_ret]; apply _. }
    apply keeps_bind; [apply _|apply keeps_emit; apply _|intros _].
    apply keeps_bind; [apply _|apply keeps_extern; apply _|intros err].
    apply keeps_bind; [apply _| |intros _].
    { assert (Hmod : ∀ g : AppImportStatus → AppImportStatus,
                (∀ a, Views.mergeKeeps a (g a)) →
                Views.keeps (E:=StepEffect) Views.mergeRel
                  (modifyVars (fun x0 => set_appStatuses
                                 (update_at i g (appStatuses x0)) x0))).
      { intros g Hg. apply keeps_modifyVars. intros x0. split; [|done]. simpl.
        apply update_at_Forall2; [intros; reflexivity|]. intros a _. apply Hg. }
      destruct err as [e|].
      - apply keeps_bind; [apply _|by apply Hmod|intros _].
        apply keeps_emit; apply _.
      - apply keeps_bind; [apply _|by apply Hmod|intros _].
        apply keeps_emit; apply _. }
    apply keeps_bind; [apply _|apply keeps_getVars; apply _|intros x1].
    apply keeps_bind; [apply _|apply keeps_emit; apply _|intros _].
    apply IH.
Qed.

Lemma keeps_progressCallback (R : Vars → Vars → Prop) `{!Reflexive R}
    (progress : Z) (message : string) :
  Views.keeps R (progressCallback progress message).
Proof. intros x. simpl. reflexivity. Qed.

Lemma importMerge_keeps env task : Views.keeps Views.mergeRel (importMerge env task).
Proof.
  unfold importMerge.
  apply keeps_bind; [apply _|apply keeps_getVars; apply _|intros x].
  destruct (sourceString "extractedPath" x); [|apply keeps_ret; apply _].
  destruct (negb _).
  - apply keeps_bind; [apply _|apply keeps_progressCallback; apply _|intros _].
    apply keeps_ret; apply _.
  - apply keeps_bind; [apply _|apply keeps_progressCallback; apply _|intros _].
    apply keeps_bind; [apply _|apply mergeLoop_keeps|intros _].
    apply keeps_bind; [apply _|apply keeps_progressCallback; apply _|intros _].
    apply keeps_ret; apply _.
Qed.

(** X24.  The merge step never recomputes anything.  Whatever the uploads
    do and however the step ends (no error, an error, a panic), the item
    list has the same length afterwards and every item has the name, the
    AppData flag, the compose status, the overall status and the download
    link it had before: the step writes AppData outcomes without deriving
    the overall status from them. *)
Theorem merge_step_keeps_overall_status env task x :
  let x' := (importMerge env task x).1.2 in
  length (appStatuses x') = length (appStatuses x) ∧
  sourceData x' = sourceData x ∧
  ∀ i a', appStatuses x' !! i = Some a' →
    ∃ a, appStatuses x !! i = Some a ∧
         AppName a' = AppName a ∧ HasAppData a' = HasAppData a ∧
         ComposeStatus a' = ComposeStatus a ∧ OverallStatus a' = OverallStatus a ∧
         DownloadURL a' = DownloadURL a.
Proof.
  destruct (importMerge_keeps env task x) as [Hall Hsrc]. cbv zeta.
  split_and!; [symmetry; by eapply Forall2_length|done|].
  intros i a' Ha'.
  destruct (Forall2_lookup_r _ _ _ _ _ Hall Ha') as (a & Ha & Hk). eauto.
Qed.

Lemma composeOutcome_decided (err : error) a :
  Views.decided (composeOutcome err a) ∧ AppName (composeOutcome err a) = AppName a.
Proof.
  split.
  2:{ unfold composeOutcome. destruct err; simpl; [|done].
      by destruct (String.eqb (ErrorMessage a) ""). }
  split; [apply composeOutcome_consistent|].
  rewrite composeOutcome_consistent. unfold composeOutcome, calculateOverallStatus.
  destruct err as [e|]; simpl; destruct (HasAppData a); simpl;
    repeat case_match; set_solver.
Qed.

Lemma findApp_Some (name : string) l (i : nat) :
  findApp name l = Some i → ∃ a, l !! i = Some a ∧ AppName a = name.
Proof.
  revert i. induction l as [|a l IH]; intros i; [done|]. simpl.
  destruct (String.eqb_spec (AppName a) name) as [Hn|Hn].
  - intros [= <-]. eauto.
  - destruct (findApp name l) as [j|]; [|done]. intros [= <-]. by apply IH.
Qed.

Lemma findApp_None (name : string) l :
  findApp name l = None → name ∉ AppName <$> l.
Proof.
  induction l as [|a l IH]; [intros _; apply not_elem_of_nil|]. simpl.
  destruct (String.eqb_spec (AppName a) name) as [Hn|Hn]; [done|].
  destruct (findApp name l) as [j|]; [done|]. intros _.
  apply not_elem_of_cons. split; [done|]. by apply IH.
Qed.

Lemma names_index l (i j : nat) a b :
  NoDup (AppName <$> l) → l !! i = Some a → l !! j = Some b →
  AppName a = AppName b → i = j.
Proof.
  intros Hnd Ha Hb Hn. eapply (NoDup_lookup (AppName <$> l)); [done| |].
  - rewrite list_lookup_fmap, Ha. done.
  - rewrite list_lookup_fmap, Hb. simpl. by rewrite Hn.
Qed.

Lemma update_at_names (i : nat) (f : AppImportStatus → AppImportStatus) l :
  (∀ a, AppName (f a) = AppName a) →
  AppName <$> update_at i f l = AppName <$> l.
Proof.
  intros Hf. unfold update_at. destruct (l !! i) as [a|] eqn:Hi; [|done].
  rewrite list_fmap_insert, Hf. apply list_insert_id.
  by rewrite list_lookup_fmap, Hi.
Qed.

Lemma update_at_lookup (i j : nat) (f : AppImportStatus → AppImportStatus) l :
  update_at i f l !! j
  = if decide (i = j) then f <$> l !! j else l !! j.
Proof.
  unfold update_at. destruct (l !! i) as [a|] eqn:Hi.
  - case_decide as Hij.
    + subst. rewrite list_lookup_insert_eq by by eapply lookup_lt_Some.
      by rewrite Hi.
    + by rewrite list_lookup_insert_ne.
  - case_decide as Hij; [|done]. subst. by rewrite Hi.
Qed.

(** The compose loop, when it returns: names are kept, Views.decided items stay
    Views.decided, and every item named by an entry is Views.decided. *)
Lemma composeLoop_post env task (total : Z) (entries : list (string * string))
    (completed : Z) x (es : list StepEffect) x' :
  composeLoop env task total entries completed x = (es, x', Ret tt) →
  AppName <$> appStatuses x' = AppName <$> appStatuses x ∧
  (∀ i a a', appStatuses x !! i = Some a → appStatuses x' !! i = Some a' →
             Views.decided a → Views.decided a') ∧
  (NoDup (AppName <$> appStatuses x) →
   ∀ i a', appStatuses x' !! i = Some a' → AppName a' ∈ entries.*1 → Views.decided a').
Proof.
  revert completed x es. induction entries as [|[name content] rest IH];
    intros completed x es Hrun.
  - injection Hrun as _ <-. split_and!; [done| |].
    + intros i a a' Ha Ha'. by simplify_eq.
    + intros _ i a' _ Hin. by apply elem_of_nil in Hin.
  - simpl in Hrun.
    apply Closure_bind_Ret in Hrun as (ea1 & x1 & [] & eb1 & Hz & Hrun & _).
    assert (x1 = x) as ->.
    { destruct (total =? 0); [done|]. by injection Hz. }
    apply Closure_bind_Ret in Hrun as (ea2 & x1 & [] & eb2 & Hp & Hrun & _).
    injection Hp as _ <-.
    apply Closure_bind_Ret in Hrun as (ea3 & x1 & err & eb3 & He & Hrun & _).
    assert (x1 = x) as -> by (unfold extern in He; by injection He).
    apply Closure_bind_Ret in Hrun as (ea4 & x1 & xg & eb4 & Hg & Hrun & _).
    injection Hg as _ <- <-.
    apply Closure_bind_Ret in Hrun as (ea5 & x1 & [] & eb5 & Hupd & Hrun & _).
    apply Closure_bind_Ret in Hrun as (ea6 & x2 & xg & eb6 & Hg & Hrun & _).
    injection Hg as _ <- <-.
    apply Closure_bind_Ret in Hrun as (ea7 & x2 & [] & eb7 & Hs & Hrun & _).
    injection Hs as _ <-.
    destruct (IH _ _ _ Hrun) as (Hnames & Hkeep & Hall). clear IH Hrun.
    assert (Hx1 : appStatuses x1
                  = match findApp name (appStatuses x) with
                    | Some i => update_at i (composeOutcome err) (appStatuses x)
                    | None => appStatuses x
                    end).
    { destruct (findApp name (appStatuses x)) as [i|].
      - apply Closure_bind_Ret in Hupd as (ea8 & x2 & [] & eb8 & Hm & Hl & _).
        injection Hm as _ <-.
        assert (x1 = set_appStatuses
                       (update_at i (composeOutcome err) (appStatuses x)) x)
          as -> by (destruct err; by injection Hl).
        done.
      - by injection Hupd as _ <-. }
    assert (Hn1 : AppName <$> appStatuses x1 = AppName <$> appStatuses x).
    { rewrite Hx1. destruct (findApp name (appStatuses x)); [|done].
      apply update_at_names. intros a. apply composeOutcome_decided. }
    assert (Hk1 : ∀ i a a1, appStatuses x !! i = Some a →
              appStatuses x1 !! i = Some a1 → Views.decided a → Views.decided a1).
    { intros i a a1 Ha Ha1 Hd. rewrite Hx1 in Ha1.
      destruct (findApp name (appStatuses x)) as [j|]; [|by simplify_eq].
      rewrite update_at_lookup in Ha1. case_decide; [|by simplify_eq].
      rewrite Ha in Ha1. injection Ha1 as <-. apply composeOutcome_decided. }
    split_and!.
    + by rewrite Hnames.
    + intros i a a' Ha Ha' Hd.
      assert (is_Some (appStatuses x1 !! i)) as [a1 Ha1].
      { apply lookup_lt_is_Some. apply lookup_lt_Some in Ha.
        rewrite <- (length_fmap AppName), Hn1, length_fmap. done. }
      eapply (Hkeep i a1 a'); eauto.
    + intros Hnd i a' Ha' Hin. simpl in Hin. apply elem_of_cons in Hin as [Hn|Hin].
      * assert (is_Some (appStatuses x1 !! i)) as [a1 Ha1].
        { apply lookup_lt_is_Some. apply lookup_lt_Some in Ha'.
          rewrite <- (length_fmap AppName), <- Hnames, length_fmap. done. }
        assert (is_Some (appStatuses x !! i)) as [a Ha].
        { apply lookup_lt_is_Some. apply lookup_lt_Some in Ha1.
          rewrite <- (length_fmap AppName), <- Hn1, length_fmap. done. }
        assert (Hna : AppName a = name).
        { assert (AppName <$> appStatuses x' !! i = AppName <$> appStatuses x !! i) as Hl
            by (rewrite <- !list_lookup_fmap; by rewrite Hnames, Hn1).
          rewrite Ha, Ha' in Hl. simpl in Hl. congruence. }
        apply (Hkeep i a1 a' Ha1 Ha'). rewrite Hx1 in Ha1.
        destruct (findApp name (appStatuses x)) as [j|] eqn:Hf.
        -- destruct (findApp_Some _ _ _ Hf) as (b & Hb & Hnb).
           assert (j = i) as -> by (eapply names_index; eauto; congruence).
           rewrite update_at_lookup, decide_True, Ha in Ha1 by done.
           injection Ha1 as <-. apply composeOutcome_decided.
        -- apply findApp_None in Hf. exfalso. apply Hf.
           apply list_elem_of_fmap. exists a. split; [done|].
           by eapply list_elem_of_lookup_2.
      * apply (Hall ltac:(by rewrite Hn1) i a' Ha' Hin).
Qed.

(** The compose step, when it returns no error. *)
Lemma importCompose_post env task x (es : list StepEffect) x' :
  (∀ m, composeRange env m ≡ₚ map_to_list m) →
  importCompose env task x = (es, x', Ret None) →
  ∃ composeFiles,
    default ∅ (sourceData x) !! "composeFiles" = Some (VComposeFiles composeFiles) ∧
    AppName <$> appStatuses x' = AppName <$> appStatuses x ∧
    (NoDup (AppName <$> appStatuses x) →
     ∀ i a', appStatuses x' !! i = Some a' →
             is_Some (composeFiles !! AppName a') → Views.decided a').
Proof.
  unfold importCompose. intros Hrange Hrun.
  apply Closure_bind_Ret in Hrun as (ea1 & x1 & xg & eb1 & Hg & Hrun & _).
  injection Hg as _ <- <-.
  destruct (default ∅ (sourceData x) !! "composeFiles") as [[]|]; try done.
  exists m. split; [done|].
  case_bool_decide as Hsz.
  - apply Closure_bind_Ret in Hrun as (ea2 & x1 & [] & eb2 & Hp & Hrun & _).
    injection Hp as _ <-. injection Hrun as _ <-. split; [done|].
    intros _ i a' _ [v Hin]. apply map_size_empty_iff in Hsz.
    by rewrite Hsz in Hin.
  - apply Closure_bind_Ret in Hrun as (ea2 & x1 & [] & eb2 & Hl & Hrun & _).
    apply Closure_bind_Ret in Hrun as (ea3 & x2 & [] & eb3 & Hp & Hrun & _).
    injection Hp as _ <-. injection Hrun as _ <-.
    destruct (composeLoop_post _ _ _ _ _ _ _ _ Hl) as (Hn & _ & Hall).
    split; [done|]. intros Hnd i a' Ha' [v Hin]. apply (Hall Hnd i a' Ha').
    rewrite Hrange. apply list_elem_of_fmap. exists (AppName a', v).
    split; [done|]. by apply elem_of_map_to_list.
Qed.

(** The scan step, when it returns no error. *)
Lemma importScan_post env task x (es : list StepEffect) x' :
  importScan env task x = (es, x', Ret None) →
  ∃ composeFiles appDataPath hasGlobalAppData,
    default ∅ (sourceData x') !! "composeFiles" = Some (VComposeFiles composeFiles) ∧
    appStatuses x'
    = appStatuses x
      ++ (scanStatus (env_os env) appDataPath hasGlobalAppData
            <$> (scanRange env composeFiles).*1).
Proof.
  unfold importScan. intros Hrun.
  apply Closure_bind_Ret in Hrun as (ea1 & x1 & xg & eb1 & Hg & Hrun & _).
  injection Hg as _ <- <-.
  destruct (sourceString "extractedPath" x) as [extracted|]; [|done].
  apply Closure_bind_Ret in Hrun as (ea2 & x1 & [] & eb2 & Hp & Hrun & _).
  injection Hp as _ <-.
  apply Closure_bind_Ret in Hrun as (ea3 & x1 & r & eb3 & He & Hrun & _).
  assert (x1 = x) as -> by (unfold extern in He; by injection He).
  destruct r as [composeFiles|e].
  2:{ apply Closure_bind_Ret in Hrun as (ea4 & x1 & [] & eb4 & Hp & Hrun & _).
      done. }
  apply Closure_bind_Ret in Hrun as (ea4 & x1 & [] & eb4 & Hp & Hrun & _).
  injection Hp as _ <-.
  apply Closure_bind_Ret in Hrun as (ea5 & x1 & [] & eb5 & Hm & Hrun & _).
  injection Hm as _ <-.
  apply Closure_bind_Ret in Hrun as (ea6 & x2 & [] & eb6 & H1 & Hrun & _).
  apply Closure_bind_Ret in Hrun as (ea7 & x3 & [] & eb7 & H2 & Hrun & _).
  apply Closure_bind_Ret in Hrun as (ea8 & x4 & [] & eb8 & Hp & Hrun & _).
  injection Hp as _ <-. injection Hrun as _ <-.
  unfold closureSetSourceData in H1, H2. simpl in H1.
  destruct (sourceData x) as [src|] eqn:Hsrc; [|done].
  injection H1 as _ <-. simpl in H2. injection H2 as _ <-.
  eexists _, _, _. simpl. split; [|done].
  rewrite lookup_insert_ne by done. by rewrite lookup_insert_eq.
Qed.

Lemma countOverall_ext (p q : string → bool) l :
  Forall (fun a => p (OverallStatus a) = q (OverallStatus a)) l →
  countOverall p l = countOverall q l.
Proof.
  induction 1 as [|a l Ha _ IH]; [done|].
  by rewrite !countOverall_cons, Ha, IH.
Qed.

(** X25.  When the steps of an import run to their end, no item is left
    undecided.  Start from an empty item list and let the scan step and
    the compose step return no error, with the merge step in between
    returning in any way; the range loops visit every entry of the map of
    compose files once, as Go's do.  Then the list has one item per
    compose file, every item carries the overall status derived from its
    sub-statuses, that status is "success" or "failed", and the failed
    count of the summary is the number of items whose overall status is
    "failed". *)
Theorem import_leaves_no_item_pending env task (x0 x1 x2 x3 : Vars)
    (es1 es2 es3 : list StepEffect) (r2 : error) :
  (∀ m, scanRange env m ≡ₚ map_to_list m) →
  (∀ m, composeRange env m ≡ₚ map_to_list m) →
  appStatuses x0 = [] →
  importScan env task x0 = (es1, x1, Ret None) →
  importMerge env task x1 = (es2, x2, Ret r2) →
  importCompose env task x2 = (es3, x3, Ret None) →
  (∃ composeFiles,
     default ∅ (sourceData x1) !! "composeFiles" = Some (VComposeFiles composeFiles) ∧
     AppName <$> appStatuses x3 ≡ₚ (map_to_list composeFiles).*1) ∧
  Forall (fun a => OverallStatus a = calculateOverallStatus a ∧
                   OverallStatus a ∈ ["success"; "failed"]) (appStatuses x3) ∧
  FailedApps (calculateImportSummary (appStatuses x3))
  = countOverall (fun st => String.eqb st "failed") (appStatuses x3).
Proof.
  intros Hscan Hcomp Hempty H1 H2 H3.
  destruct (importScan_post _ _ _ _ _ H1) as (m & p & g & Hsrc1 & Happs1).
  rewrite Hempty in Happs1. simpl in Happs1.
  assert (Hn1 : AppName <$> appStatuses x1 = (scanRange env m).*1).
  { rewrite Happs1. generalize ((scanRange env m).*1). intros names.
    induction names as [|n names IH]; [done|]. cbn [fmap list_fmap] in *.
    by f_equal. }
  pose proof (importMerge_keeps env task x1) as [Hall2 Hsrc2].
  rewrite H2 in Hall2, Hsrc2. simpl in Hall2, Hsrc2.
  assert (Hn2 : AppName <$> appStatuses x2 = AppName <$> appStatuses x1).
  { clear -Hall2. induction Hall2 as [|a b l k (Hn & _) _ IH]; [done|].
    cbn [fmap list_fmap] in *. by f_equal. }
  destruct (importCompose_post _ _ _ _ _ Hcomp H3) as (m' & Hsrc3 & Hn3 & Hdec).
  rewrite Hsrc2, Hsrc1 in Hsrc3. injection Hsrc3 as <-.
  assert (Hperm : AppName <$> appStatuses x3 ≡ₚ (map_to_list m).*1).
  { by rewrite Hn3, Hn2, Hn1, Hscan. }
  assert (Hdecided : Forall Views.decided (appStatuses x3)).
  { assert (Hnd : NoDup (AppName <$> appStatuses x2)).
    { rewrite Hn2, Hn1, Hscan. apply NoDup_fst_map_to_list. }
    apply Forall_lookup. intros i a' Ha'. apply (Hdec Hnd i a' Ha').
    assert (Hin : AppName a' ∈ (map_to_list m).*1).
    { rewrite <- Hperm. apply list_elem_of_fmap. exists a'. split; [done|].
      by eapply list_elem_of_lookup_2. }
    apply list_elem_of_fmap in Hin as ([k v] & -> & Hkv).
    apply elem_of_map_to_list in Hkv. eauto. }
  split_and!; [eauto|done|].
  destruct (calculateImportSummary_counts (appStatuses x3)) as (_ & _ & -> & _).
  apply countOverall_ext. eapply Forall_impl; [exact Hdecided|].
  intros a [_ Hin]. simpl. apply elem_of_cons in Hin as [->|Hin]; [done|].
  apply elem_of_cons in Hin as [->|Hin]; [done|]. by apply elem_of_nil in Hin.
Qed.

End ImportSteps.

(* ===================================================================== *)
(** * Further properties: progress of a completed task *)
(* ===================================================================== *)

Section CompletedProgress.
Import Views.
Implicit Types (s : TaskService) (taskID : string) (fr : Frame).

Lemma applyCall_progress taskID (c : Call) s (task : MigrationTask) :
  tasks (store s) !! taskID = Some task →
  ∃ task', tasks (store (applyCall c s)) !! taskID = Some task' ∧
           Progress task' = default (Progress task) (progressWrite taskID c).
Proof.
  intros Ht. destruct c as [id st|id lv msg|id p|id r|id a b|id a b|id a b e|id p a b];
    simpl; try (exists task; done).
  - unfold Services.UpdateTaskStatus, Storage.UpdateTaskStatus.
    destruct (tasks (store s) !! id) as [t|] eqn:Hid; cbn [fst snd]; [|eauto].
    assert (Hl : ∃ task', <[id := set_Status st t]> (tasks (store s)) !! taskID
                          = Some task' ∧ Progress task' = Progress task).
    { destruct (decide (id = taskID)) as [->|Hne].
      - rewrite lookup_insert_eq. simplify_eq. eauto.
      - rewrite lookup_insert_ne by done. eauto. }
    repeat case_match; simpl; done.
  - unfold Services.UpdateTaskProgress, Storage.UpdateTaskProgress.
    destruct (tasks (store s) !! id) as [t|] eqn:Hid; simpl.
    + destruct (String.eqb_spec id taskID) as [->|Hne].
      * rewrite lookup_insert_eq. eauto.
      * rewrite lookup_insert_ne by done. eauto.
    + destruct (String.eqb_spec id taskID) as [->|Hne]; [congruence|eauto].
  - unfold Services.SetTaskResult, Storage.SetTaskResult.
    destruct (tasks (store s) !! id) as [t|] eqn:Hid; simpl; [|eauto].
    destruct (decide (id = taskID)) as [->|Hne].
    + rewrite lookup_insert_eq. simplify_eq. eauto.
    + rewrite lookup_insert_ne by done. eauto.
Qed.

Lemma applyCalls_progress taskID (cs : list Call) s (task : MigrationTask) :
  tasks (store s) !! taskID = Some task →
  taskProgress taskID (applyCalls cs s)
  = Some (default (Progress task) (last (progressWrites taskID cs))).
Proof.
  revert s task. induction cs as [|c cs IH]; intros s task Ht.
  - unfold taskProgress. simpl. by rewrite Ht.
  - destruct (applyCall_progress taskID c s task Ht) as (task' & Ht' & Hp).
    change (applyCalls (c :: cs) s) with (applyCalls cs (applyCall c s)).
    rewrite (IH _ _ Ht'). f_equal. rewrite Hp.
    unfold progressWrites. cbn [omap list_omap].
    fold (omap (progressWrite taskID) cs).
    destruct (progressWrite taskID c) as [p|]; simpl; [|done].
    by rewrite default_last_cons.
Qed.

Lemma progressWrites_app taskID (a b : list Call) :
  progressWrites taskID (a ++ b) = progressWrites taskID a ++ progressWrites taskID b.
Proof. apply omap_app. Qed.

Lemma bodyEnds_suffix taskID (cs cs' : list Call) fr (r : Res unit) :
  bodyEnds taskID cs' fr r → bodyEnds taskID (cs ++ cs') fr r.
Proof.
  destruct r; simpl; try done. intros Hl.
  rewrite progressWrites_app, last_app, Hl. done.
Qed.

(** Sequencing a worker that does not return early with a continuation. *)
Lemma wp_then {A} taskID (m : Worker A) (f : A → Worker unit) fr :
  wp m fr (fun _ _ r => r ≠ Returned) →
  (∀ a fr', wp (f a) fr' (bodyEnds taskID)) →
  wp (m ≫= f) fr (bodyEnds taskID).
Proof.
  intros Hm Hf. apply wp_bind. eapply wp_mono; [exact Hm|].
  intros cs fr' r Hr. destruct r as [a| |v]; [|done|done].
  eapply wp_mono; [apply Hf|]. intros cs' fr'' r'. apply bodyEnds_suffix.
Qed.

Lemma step_not_returned taskID (step : string) (fn : Closure TaskEffect error) fr :
  wp (ExecuteStep taskID step fn) fr (fun _ _ r => r ≠ Returned).
Proof.
  destruct (ExecuteStep_cases taskID step fn fr)
    as (mid & x & _ & [[v H]|[[e H]|H]]); eapply wp_eq; eauto.
Qed.

Lemma progress_step_not_returned taskID (step : string)
    (fn : Closure StepEffect error) fr :
  wp (ExecuteStepWithProgress taskID step fn) fr (fun _ _ r => r ≠ Returned).
Proof.
  destruct (ExecuteStepWithProgress_cases taskID step fn fr)
    as (mid & x & _ & [[v H]|[[e H]|H]]); eapply wp_eq; eauto.
Qed.

Lemma critical_leaf_ends taskID fr :
  wp ((setCriticalError;; return_) : Worker unit) fr (bodyEnds taskID).
Proof. done. Qed.

Lemma handler_not_returned taskID (err : error) (handler : string → Worker unit) fr :
  (∀ e fr', (handler e fr').2 ≠ Returned) →
  wp (match err with Some e => handler e | None => mret tt end) fr
     (fun _ _ r => r ≠ Returned).
Proof. intros Hh. destruct err as [e|]; [apply Hh|done]. Qed.

Lemma itemSteps_ends taskID (scan merge compose cleanup : Closure StepEffect error) fr :
  wp (itemSteps taskID scan merge compose cleanup) fr (bodyEnds taskID).
Proof.
  unfold itemSteps.
  apply wp_then; [apply progress_step_not_returned|intros err1 fr1].
  apply wp_then.
  { apply (handler_not_returned taskID err1 (scanFailed taskID)).
    intros e fr'. unfold scanFailed, setSourceData,
      modifyWorkerVars, call, mbind, Worker_bind. simpl.
    destruct (sourceData (vars fr')); simpl; done. }
  intros _ fr2.
  apply wp_then; [apply progress_step_not_returned|intros err2 fr3].
  apply wp_then;
    [by apply (handler_not_returned taskID err2 (mergeFailed taskID))|intros _ fr4].
  apply wp_then; [apply progress_step_not_returned|intros err3 fr5].
  apply wp_then;
    [by apply (handler_not_returned taskID err3 (composeFailed taskID))|intros _ fr6].
  apply wp_then; [apply progress_step_not_returned|intros err4 fr7].
  apply wp_then;
    [by apply (handler_not_returned taskID err4 (cleanupFailed taskID))|intros _ fr8].
  unfold wp, writeImportResult, bodyEnds. simpl.
  by rewrite String.eqb_refl.
Qed.

Lemma import_body_ends taskID (st : ImportSteps) fr :
  wp (executeDataImport_body taskID st) fr (bodyEnds taskID).
Proof.
  unfold executeDataImport_body.
  apply wp_then; [apply step_not_returned|intros [e|] fr1];
    [apply critical_leaf_ends|].
  apply wp_then; [apply progress_step_not_returned|intros [e|] fr2];
    [apply critical_leaf_ends|].
  apply itemSteps_ends.
Qed.

Lemma online_body_ends taskID (st : OnlineSteps) fr :
  wp (executeOnlineMigration_body taskID st) fr (bodyEnds taskID).
Proof.
  unfold executeOnlineMigration_body.
  apply wp_then; [apply step_not_returned|intros [e|] fr1];
    [apply critical_leaf_ends|].
  apply wp_then; [apply step_not_returned|intros [e|] fr2];
    [apply critical_leaf_ends|].
  apply wp_then; [apply progress_step_not_returned|intros [e|] fr3];
    [apply critical_leaf_ends|].
  apply itemSteps_ends.
Qed.

Lemma export_body_ends (os : OS) taskID (st : ExportSteps) fr :
  wp (executeDataExport_body os taskID st) fr (bodyEnds taskID).
Proof.
  unfold executeDataExport_body.
  apply wp_then; [apply step_not_returned|intros [e|] fr1];
    [apply critical_leaf_ends|].
  apply wp_then; [apply progress_step_not_returned|intros [e|] fr2];
    [apply critical_leaf_ends|].
  unfold wp, bodyEnds. simpl. by rewrite String.eqb_refl.
Qed.

(** A run that leaves the status "completed" behind ended with the
    progress 100. *)
Lemma completed_from_body (taskID panicPrefix criticalText completedText : string)
    (save : bool) (pipeline : list (string * bool)) (body : Worker unit)
    s (task : MigrationTask) :
  tasks (store s) !! taskID = Some task →
  wp body initFrame (bodyPost pipeline taskID) →
  wp body initFrame (bodyEnds taskID) →
  let worker :=
    call (CallUpdateTaskStatus taskID TaskStatusRunning);;
    deferRecover
      (workerDeferred taskID panicPrefix criticalText completedText save) body in
  let s' := applyCalls (worker initFrame).1.1 s in
  taskStatus taskID s' = Some "completed" → taskProgress taskID s' = Some 100.
Proof.
  intros Ht Hpost Hends worker s'.
  destruct (body initFrame) as [[cs fr] r] eqn:Hb.
  pose proof (wp_run _ _ _ Hpost _ _ _ Hb) as (B1 & B2 & B3 & B4).
  pose proof (wp_run _ _ _ Hends _ _ _ Hb) as Hend.
  unfold s', worker.
  rewrite (worker_run taskID panicPrefix criticalText completedText save
             body _ _ _ _ Hb). cbn [fst snd].
  destruct (deferredCalls_obs taskID panicPrefix criticalText completedText save
              (recoveredPanic r) fr) as (D1 & D2 & D3 & D4 & D5).
  rewrite (applyCalls_status _ _ _ _ Ht), (applyCalls_progress _ _ _ _ Ht).
  rewrite statusWrites_cons. simpl statusWrite. rewrite String.eqb_refl.
  rewrite statusWrites_app, B1, D1. simpl.
  intros [= Hst].
  assert (Hok : recoveredPanic r = None ∧ hasCriticalError fr = false).
  { destruct (recoveredPanic r); [done|]. by destruct (hasCriticalError fr). }
  destruct Hok as [Hr Hc]. f_equal.
  assert (Hdef : progressWrites taskID
                   (deferredCalls taskID panicPrefix criticalText completedText
                      save (recoveredPanic r) fr) = []).
  { rewrite Hr. unfold deferredCalls. rewrite Hc. by destruct save. }
  change (progressWrites taskID
            (CallUpdateTaskStatus taskID TaskStatusRunning
               :: cs ++ deferredCalls taskID panicPrefix criticalText completedText
                          save (recoveredPanic r) fr))
    with (progressWrites taskID
            (cs ++ deferredCalls taskID panicPrefix criticalText completedText
                     save (recoveredPanic r) fr)).
  rewrite progressWrites_app, Hdef, app_nil_r.
  destruct r as [[]| |v]; simpl in *; [by rewrite Hend|congruence|done].
Qed.

(** X26.  A completed task shows progress 100.  For each of the three
    workers, whatever its steps do: if the run leaves the task with the
    status "completed", it leaves it with the progress 100. *)
Theorem completed_task_has_full_progress (os : OS) taskID (onl : OnlineSteps)
    (exp : ExportSteps) (imp : ImportSteps) s (task : MigrationTask) :
  tasks (store s) !! taskID = Some task →
  let full (worker : Worker unit) :=
    let s' := applyCalls (worker initFrame).1.1 s in
    taskStatus taskID s' = Some "completed" → taskProgress taskID s' = Some 100 in
  full (executeOnlineMigration taskID onl) ∧
  full (executeDataExport os taskID exp) ∧
  full (executeDataImport taskID imp).
Proof.
  intros Ht. split_and!.
  - eapply completed_from_body; [done| |apply online_body_ends].
    by apply executeOnlineMigration_body_post.
  - eapply completed_from_body; [done| |apply export_body_ends].
    by apply executeDataExport_body_post.
  - eapply completed_from_body; [done| |apply import_body_ends].
    by apply executeDataImport_body_post.
Qed.

End CompletedProgress.

(* ===================================================================== *)
(** * Further properties: the step wrappers *)
(* ===================================================================== *)

Section StepWrappers.
Import Views.
Implicit Types (taskID step : string) (fr : Frame).

(** X27.  The step wrappers report the closure faithfully.  Both
    [ExecuteStep] and [ExecuteStepWithProgress] publish the start of the
    step, run the closure once, and then: if the closure returns no error,
    publish the completion and return no error; if it returns an error,
    publish that error and return the same error; if it panics, let the
    panic through, the step having been started and never closed.  They
    write no task status and leave the critical-failure flag alone. *)
Theorem step_wrappers_report taskID step (fn : Closure TaskEffect error)
    (fnp : Closure StepEffect error) fr :
  (let '(cs, fr', r) := ExecuteStep taskID step fn fr in
   wrapped taskID step (fn (vars fr)).2 fr fr' cs r) ∧
  (let '(cs, fr', r) := ExecuteStepWithProgress taskID step fnp fr in
   wrapped taskID step (fnp (vars fr)).2 fr fr' cs r).
Proof.
  split.
  - pose proof (lifted_quiet taskID (taskEffectCalls taskID)
                  (fn (vars fr)).1.1 (taskEffect_quiet taskID))
      as (Q1 & Q2 & _).
    unfold ExecuteStep, runClosure, call, mbind, mret, Worker_bind, Worker_ret.
    simpl. destruct (fn (vars fr)) as [[es x] [[e|]|v]]; simpl in *;
      unfold wrapped; simpl;
      change (list_bind TaskEffect Call (taskEffectCalls taskID) es)
        with (es ≫= taskEffectCalls taskID);
      rewrite ?statusWrites_app, ?stepEvents_app, ?Q1, ?Q2; done.
  - pose proof (lifted_quiet taskID (stepEffectCalls taskID step)
                  (fnp (vars fr)).1.1 (stepEffect_quiet taskID step))
      as (Q1 & Q2 & _).
    unfold ExecuteStepWithProgress, runClosure, call, mbind, mret, Worker_bind,
      Worker_ret.
    simpl. destruct (fnp (vars fr)) as [[es x] [[e|]|v]]; simpl in *;
      unfold wrapped; simpl;
      change (list_bind StepEffect Call (stepEffectCalls taskID step) es)
        with (es ≫= stepEffectCalls taskID step);
      rewrite ?statusWrites_app, ?stepEvents_app, ?Q1, ?Q2; done.
Qed.

End StepWrappers.

(* ===================================================================== *)
(** * Further properties at concrete inputs *)
(* ===================================================================== *)

Section FurtherConcrete.
Import Samples Cases.

(** Deleting the task of [serviceX]. *)
Lemma store_delete_scope_witness :
  let ms' := (Storage.DeleteTask "t1" (store serviceX)).2 in
  (Storage.DeleteTask "t1" (store serviceX)).1 = None ∧
  Storage.GetTask "t1" ms' = (None, Some ErrTaskNotFound) ∧
  Storage.GetLogs "t1" ms' = ([], None) ∧
  Store.GetDownloadInstructions "t1" ms'
  = Store.GetDownloadInstructions "t1" (store serviceX) ∧
  (∀ other, other ≠ "t1" →
     Storage.GetTask other ms' = Storage.GetTask other (store serviceX) ∧
     Storage.GetLogs other ms' = Storage.GetLogs other (store serviceX)) ∧
  connections ms' = connections (store serviceX).
Proof.
  apply (store_delete_scope "t1" taskX (store serviceX)). reflexivity.
Defined.

(** The stored and the published log after the calls of the import worker. *)
Lemma logs_stored_as_published_witness :
  Views.storedLogs "t1" (applyCalls importCalls serviceX)
  = Views.publishedLogs "t1" (applyCalls importCalls serviceX) ∧
  Views.storedLogs "t1" (applyCalls importCalls serviceX)
  = Views.storedLogs "t1" serviceX ++ Views.loggedBy "t1" importCalls.
Proof.
  apply (logs_stored_as_published "t1" importCalls serviceX). reflexivity.
Defined.

(** The task list for a query with a limit and a negative offset. *)
Lemma ListTasks_pages_witness :
  Api.ListTasks {[ "limit" := "5"; "offset" := "-3" ]} ["t1"] serviceX
  = Some (Api.mkAnswer 200 true "Task list retrieved"
            (Some (Api.mkTaskList [taskX] 1 5 0))).
Proof.
  refine (proj1 (ListTasks_pages {[ "limit" := "5"; "offset" := "-3" ]} ["t1"]
                   serviceX _)).
  vm_compute. discriminate.
Defined.

(** The logs endpoint after the calls of the import worker. *)
Lemma GetTaskLogs_shows_worker_log_witness :
  Api.GetTaskLogs "t1" (applyCalls importCalls serviceX)
  = Api.mkAnswer 200 true "Task logs retrieved"
      (Some (Views.storedLogs "t1" serviceX ++ Views.loggedBy "t1" importCalls)).
Proof.
  apply (GetTaskLogs_shows_worker_log "t1" taskX importCalls serviceX);
    [discriminate | reflexivity].
Defined.

(** A delete request while the import worker is at its merge step. *)
Lemma running_task_not_deleted_witness :
  Handlers.DeleteTask "t1" (applyCalls (take 44 importCalls) serviceX)
  = (mkHTTPResponse 400 false "Running tasks cannot be deleted" DataNone,
     applyCalls (take 44 importCalls) serviceX).
Proof.
  apply (running_task_not_deleted "t1" taskX (take 44 importCalls) serviceX);
    [discriminate | reflexivity | reflexivity].
Defined.


(** The import-status query on the running import of [serviceA]. *)
Lemma GetImportStatus_writes_links_witness :
  ∃ view s',
    GetImportStatus "t1" 0 0 NewHandler serviceA
    = (mkHTTPResponse 200 true "Import status retrieved" (DataImportStatus view),
       NewHandler, s') ∧
    isr_Apps view = withDownloadURL "t1" <$> [appX] ∧
    tasks (store s') !! "t1"
    = Some (set_Result
              (Some (<["apps" := VAppStatuses (withDownloadURL "t1" <$> [appX])]>
                       {[ "apps" := VAppStatuses [appX] ]}))
              taskA) ∧
    GetImportStatus "t1" 0 0 NewHandler s'
    = (mkHTTPResponse 200 true "Import status retrieved" (DataImportStatus view),
       NewHandler, s').
Proof.
  apply (GetImportStatus_writes_links "t1" taskA
           {[ "apps" := VAppStatuses [appX] ]} [appX] 0 0 NewHandler serviceA);
    [discriminate | reflexivity | left; reflexivity | reflexivity | reflexivity
    | reflexivity].
Defined.

Lemma hubEvents_admissible : Hub.admissible hubEvents hubX.
Proof.
  assert (Hvisit : ∀ (order : list ClientRef) (X : gset ClientRef),
            X = list_to_set order → ∀ c, c ∈ order ↔ c ∈ X).
  { intros order X -> c. by rewrite elem_of_list_to_set. }
  unfold hubEvents. simpl.
  split; [by split|]. intros m1 H1. vm_compute in H1. injection H1 as <-.
  split.
  { split; [apply (bool_decide_unpack _); by vm_compute|].
    apply Hvisit. by vm_compute. }
  intros m2 H2. vm_compute in H2. injection H2 as <-.
  split; [done|]. intros m3 H3. vm_compute in H3. injection H3 as <-.
  split; [done|]. intros m4 H4. vm_compute in H4. injection H4 as <-.
  split; [|done].
  split; [apply (bool_decide_unpack _); by vm_compute|].
  apply Hvisit. by vm_compute.
Qed.

(** The hub of [hubX] handles the events of [hubEvents]. *)
Lemma hub_never_panics_witness :
  ∃ m', Hub.run hubEvents hubX = Some m' ∧ hubInvariant m'.
Proof.
  apply (hub_never_panics hubEvents hubX);
    [apply hubX_invariant | apply hubEvents_admissible].
Defined.

(** What the first client of [hubX] gets during [hubEvents]. *)
Lemma observer_gets_broadcasts_in_order_witness :
  (1%positive ∈ observers "t1" hubX) ∧
  ∃ cl', heap hubAfter !! 1%positive = Some cl' ∧
         Hub.takenAll 1%positive hubEvents hubX ++ buf (Send cl')
         = buf (Send (mkClient makeChan "t1")) ++ (hubEvents ≫= Hub.broadcastTo "t1").
Proof.
  apply (observer_gets_broadcasts_in_order hubEvents hubX hubAfter 1%positive
           (mkClient makeChan "t1") "t1");
    [apply hubX_invariant | apply hubEvents_admissible | by vm_compute
    | by vm_compute | apply (bool_decide_unpack _); by vm_compute].
Defined.

(** The second client of [hubX], whose queue is full, is dropped by a
    broadcast and not closed again. *)
Lemma dropped_client_closed_once_witness :
  heap hubDropped !! 2%positive = Some (dropped (mkClient fullQueue "t1")) ∧
  unregister 2%positive hubDropped = Some hubDropped ∧
  ∀ c0 m1, unregister c0 hubDropped = Some m1 → unregister c0 m1 = Some m1.
Proof.
  apply (dropped_client_closed_once (mkBroadcastMessage "t1" eventX)
           [2%positive; 1%positive] hubX hubDropped 2%positive
           (mkClient fullQueue "t1")).
  - apply hubX_invariant.
  - split; [apply (bool_decide_unpack _); by vm_compute|].
    intros c. unfold observers, hubX. simpl. rewrite lookup_singleton_eq. simpl.
    set_solver.
  - by vm_compute.
  - apply (bool_decide_unpack _). by vm_compute.
  - by vm_compute.
  - by vm_compute.
Defined.

(** The items of the archive of [envX], whose one application fails at the
    upload of its AppData, after the scan, merge and compose steps. *)
Lemma import_leaves_no_item_pending_witness :
  (∃ composeFiles,
     default ∅ (sourceData varsScanned) !! "composeFiles"
     = Some (VComposeFiles composeFiles) ∧
     AppName <$> appStatuses varsComposed ≡ₚ (map_to_list composeFiles).*1) ∧
  Forall (fun a => OverallStatus a = calculateOverallStatus a ∧
                   OverallStatus a ∈ ["success"; "failed"])
         (appStatuses varsComposed) ∧
  FailedApps (calculateImportSummary (appStatuses varsComposed))
  = countOverall (fun st => String.eqb st "failed") (appStatuses varsComposed).
Proof.
  apply (import_leaves_no_item_pending envX taskX varsParsed varsScanned
           varsMerged varsComposed
           (importScan envX taskX varsParsed).1.1
           (importMerge envX taskX varsScanned).1.1
           (importCompose envX taskX varsMerged).1.1 None);
    [reflexivity | reflexivity | reflexivity | by vm_compute | by vm_compute
    | by vm_compute].
Defined.

(** The workers of the samples complete, with progress 100. *)
Lemma completed_task_has_full_progress_witness :
  let after (worker : Worker unit) := applyCalls (worker initFrame).1.1 serviceX in
  let full (worker : Worker unit) :=
    taskStatus "t1" (after worker) = Some "completed" ∧
    Views.taskProgress "t1" (after worker) = Some 100 in
  full (executeOnlineMigration "t1" onlineOK) ∧
  full (executeDataExport sampleOS "t1" exportOK) ∧
  full (executeDataImport "t1" (importSteps envY taskX)).
Proof.
  destruct (completed_task_has_full_progress sampleOS "t1" onlineOK exportOK
              (importSteps envY taskX) serviceX taskX eq_refl)
    as (Honline & Hexport & Himport).
  split; [|split].
  - split; [reflexivity | apply Honline; reflexivity].
  - split; [reflexivity | apply Hexport; reflexivity].
  - split; [reflexivity | apply Himport; reflexivity].
Defined.

End FurtherConcrete.
